(** * elk: evaluation metrics and layer orchestration

    A shallow embedding of [elk/metrics/eval.py] and of the layer sweep of
    [elk/run.py], with the properties of the evaluation engine and of the
    orchestrator that the specification states.

    Conventions of the embedding:
    - a Python call that may raise returns a [result]; exceptions are the
      Python exception classes the code can meet;
    - a torch tensor is its shape together with its elements in row-major
      order (contiguous layout), so that reshaping operations keep the data
      and change the shape, as in torch;
    - tensor elements of floating type are exact rationals extended with
      [NaN]: rounding is not modelled, the value torch gives to an empty
      mean is; where rounding decides a property, the metrics are taken
      over IEEE 754 binary32 elements instead;
    - the confidence-interval estimators ([accuracy_ci], [roc_auc_ci],
      [CalibrationError]) and [torch.sigmoid] are parameters of the
      development: their code is not part of the files embedded here. *)

From Stdlib Require Import String Ascii.
From Stdlib Require Import List ZArith QArith Qcanon Qround Bool Lia.
From Stdlib Require Import Permutation Sorted.
From Stdlib Require Floats.SpecFloat.
Import ListNotations.

Close Scope Qc_scope.
Close Scope Q_scope.
Open Scope nat_scope.

Set Implicit Arguments.

(* ------------------------------------------------------------------ *)
(** ** Python exceptions and the error monad *)

Module Py.

Inductive exn : Type :=
| IndexError
| KeyError
| TypeError
| ValueError
| AssertionError
| RuntimeError
| EinopsError
| KeyboardInterrupt
| WorkerError (tag : Z).

Inductive result (A : Type) : Type :=
| Ok (a : A)
| Raise (e : exn).

Arguments Ok {A} a.
Arguments Raise {A} e.

Definition bind {A B} (m : result A) (k : A -> result B) : result B :=
  match m with
  | Ok a => k a
  | Raise e => Raise e
  end.

Definition fmap {A B} (f : A -> B) (m : result A) : result B :=
  bind m (fun a => Ok (f a)).

Definition is_ok {A} (m : result A) : bool :=
  match m with Ok _ => true | Raise _ => false end.

(** [mapM f xs]: run [f] on the items from left to right, stop at the
    first one that raises. *)
Fixpoint mapM {A B} (f : A -> result B) (xs : list A) : result (list B) :=
  match xs with
  | [] => Ok []
  | x :: xs' =>
      bind (f x) (fun y => bind (mapM f xs') (fun ys => Ok (y :: ys)))
  end.

(** [xs[i]] for a Python list, negative indices counting from the end. *)
Definition getitem {A} (xs : list A) (i : Z) : result A :=
  let n := Z.of_nat (length xs) in
  let j := if (i <? 0)%Z then (n + i)%Z else i in
  if ((0 <=? j) && (j <? n))%Z
  then match nth_error xs (Z.to_nat j) with
       | Some x => Ok x
       | None => Raise IndexError
       end
  else Raise IndexError.

Fixpoint replace_nth {A} (n : nat) (x : A) (xs : list A) : list A :=
  match xs, n with
  | [], _ => []
  | _ :: xs', O => x :: xs'
  | y :: xs', S n' => y :: replace_nth n' x xs'
  end.

(** [xs[i] = x] for a Python list. *)
Definition setitem {A} (xs : list A) (i : Z) (x : A) : result (list A) :=
  let n := Z.of_nat (length xs) in
  let j := if (i <? 0)%Z then (n + i)%Z else i in
  if ((0 <=? j) && (j <? n))%Z
  then Ok (replace_nth (Z.to_nat j) x xs)
  else Raise IndexError.

End Py.

Import Py.

Declare Scope py_scope.
Delimit Scope py_scope with py.
Notation "x <- m ;; k" := (bind m (fun x => k))
  (at level 61, m at next level, right associativity) : py_scope.
Open Scope py_scope.

(* ------------------------------------------------------------------ *)
(** ** The torch operations the metrics use *)

Module Torch.

(** Floating-point elements. *)
Inductive scalar : Type :=
| NaN
| Fin (q : Qc).

Definition of_int (z : Z) : scalar := Fin (Q2Qc (inject_Z z)).

Definition sadd (a b : scalar) : scalar :=
  match a, b with
  | Fin x, Fin y => Fin (x + y)%Qc
  | _, _ => NaN
  end.

Definition ssub (a b : scalar) : scalar :=
  match a, b with
  | Fin x, Fin y => Fin (x - y)%Qc
  | _, _ => NaN
  end.

Definition ssum (xs : list scalar) : scalar :=
  fold_right sadd (Fin 0%Qc) xs.

Definition sdiv_nat (a : scalar) (n : nat) : scalar :=
  match a, n with
  | _, O => NaN
  | NaN, _ => NaN
  | Fin x, _ => Fin (x / Q2Qc (inject_Z (Z.of_nat n)))%Qc
  end.

(** The mean of a list of elements; torch gives [nan] to an empty mean. *)
Definition mean (xs : list scalar) : scalar :=
  sdiv_nat (ssum xs) (length xs).

(** [a > b]; every comparison with [nan] is false. *)
Definition sgt (a b : scalar) : bool :=
  match a, b with
  | Fin x, Fin y => match (x ?= y)%Qc with Gt => true | _ => false end
  | _, _ => false
  end.

Definition is_nan (a : scalar) : bool :=
  match a with NaN => true | Fin _ => false end.

Record tensor (A : Type) : Type := Tensor {
  shape : list nat;
  data : list A
}.

Definition numel (s : list nat) : nat := fold_right Nat.mul 1 s.

(** The layout invariant of a tensor. *)
Definition wf {A} (t : tensor A) : Prop :=
  length (data t) = numel (shape t).

Definition tmap {A B} (f : A -> B) (t : tensor A) : tensor B :=
  Tensor (shape t) (map f (data t)).

(** Element-wise combination of two tensors of one shape. *)
Definition tzip {A B C} (f : A -> B -> C) (a : tensor A) (b : tensor B)
  : tensor C :=
  Tensor (shape a) (map (fun p => f (fst p) (snd p)) (combine (data a) (data b))).

(** The [m] consecutive blocks of [k] elements of a row-major buffer. *)
Definition rows {A} (m k : nat) (xs : list A) : list (list A) :=
  map (fun i => firstn k (skipn (i * k) xs)) (seq 0 m).

(** The elements at position [r] of each block. *)
Definition column {A} (r : nat) (blocks : list (list A)) : list A :=
  flat_map (fun b => match nth_error b r with Some x => [x] | None => [] end)
           blocks.

Definition shape_eqb (s1 s2 : list nat) : bool :=
  if list_eq_dec Nat.eq_dec s1 s2 then true else false.

(** [t[..., i]] for a constant [i >= 0]. *)
Definition select_last {A} (i : nat) (t : tensor A) : result (tensor A) :=
  match rev (shape t) with
  | [] => Raise IndexError
  | k :: lead_rev =>
      if i <? k
      then Ok (Tensor (rev lead_rev)
                      (column i (rows (numel (rev lead_rev)) k (data t))))
      else Raise IndexError
  end.

(** Index of the first maximal element of a block; [nan] counts as the
    greatest value. *)
Fixpoint argmax_from (best_i : nat) (best : scalar) (i : nat)
         (xs : list scalar) : nat :=
  match xs with
  | [] => best_i
  | x :: xs' =>
      if negb (is_nan best) && (is_nan x || sgt x best)
      then argmax_from i x (S i) xs'
      else argmax_from best_i best (S i) xs'
  end.

Definition argmax_row (xs : list scalar) : Z :=
  match xs with
  | [] => 0%Z
  | x :: xs' => Z.of_nat (argmax_from 0 x 1 xs')
  end.

(** [t.argmax(dim=-1)]. *)
Definition argmax_last (t : tensor scalar) : result (tensor Z) :=
  match rev (shape t) with
  | [] => Ok (Tensor [] (map (fun _ => 0%Z) (data t)))
  | k :: lead_rev =>
      if k =? 0 then Raise IndexError
      else Ok (Tensor (rev lead_rev)
                      (map argmax_row (rows (numel (rev lead_rev)) k (data t))))
  end.

(** [t.mean(dim=d)] for [d >= 0]. *)
Definition mean_dim (d : nat) (t : tensor scalar) : result (tensor scalar) :=
  let s := shape t in
  if d <? length s then
    let outer := numel (firstn d s) in
    let v := nth d s 0 in
    let inner := numel (skipn (S d) s) in
    Ok (Tensor (firstn d s ++ skipn (S d) s)
          (flat_map
             (fun g => map (fun r => mean (column r (rows v inner g)))
                           (seq 0 inner))
             (rows outer (v * inner) (data t))))
  else Raise IndexError.

(** [torch.stack(ts)] along a new first axis. *)
Definition stack {A} (ts : list (tensor A)) : result (tensor A) :=
  match ts with
  | [] => Raise RuntimeError
  | t :: _ =>
      if forallb (fun u => shape_eqb (shape u) (shape t)) ts
      then Ok (Tensor (length ts :: shape t) (concat (map (@data A) ts)))
      else Raise RuntimeError
  end.

(** [t.flatten(1)]: the first axis is kept, the others are merged. *)
Definition flatten_from_1 {A} (t : tensor A) : result (tensor A) :=
  match shape t with
  | d0 :: d1 :: rest => Ok (Tensor [d0; numel (d1 :: rest)] (data t))
  | _ => Raise IndexError
  end.

(** [t.flatten()]. *)
Definition flatten {A} (t : tensor A) : tensor A :=
  Tensor [numel (shape t)] (data t).

(** [einops.repeat(t, "n -> n v", v=v)]. *)
Definition repeat_n_v {A} (t : tensor A) (v : nat) : result (tensor A) :=
  match shape t with
  | [n] => Ok (Tensor [n; v] (flat_map (fun x => repeat x v) (data t)))
  | _ => Raise EinopsError
  end.

Fixpoint insert_sorted (x : Qc) (xs : list Qc) : list Qc :=
  match xs with
  | [] => [x]
  | y :: ys =>
      match (x ?= y)%Qc with
      | Gt => y :: insert_sorted x ys
      | _ => x :: y :: ys
      end
  end.

Definition sort (xs : list Qc) : list Qc :=
  fold_right insert_sorted [] xs.

Fixpoint finite_values (xs : list scalar) : option (list Qc) :=
  match xs with
  | [] => Some []
  | NaN :: _ => None
  | Fin q :: xs' =>
      match finite_values xs' with
      | Some qs => Some (q :: qs)
      | None => None
      end
  end.

Definition Qc_of_Z (z : Z) : Qc := Q2Qc (inject_Z z).

(** [xs.quantile(q)] over all the elements, linear interpolation between
    the two nearest order statistics. *)
Definition quantile (xs : list scalar) (q : scalar) : result scalar :=
  match xs, q with
  | [], _ => Raise RuntimeError
  | _, NaN => Raise RuntimeError
  | _, Fin p =>
      if (Qle_bool 0 p && Qle_bool p 1)%bool then
        match finite_values xs with
        | None => Ok NaN
        | Some qs =>
            let sorted := sort qs in
            let rank := (p * Qc_of_Z (Z.of_nat (length qs) - 1))%Qc in
            let below := Qfloor rank in
            let above := Qceiling rank in
            let lo := nth (Z.to_nat below) sorted 0%Qc in
            let hi := nth (Z.to_nat above) sorted 0%Qc in
            Ok (Fin (lo + (rank - Qc_of_Z below) * (hi - lo))%Qc)
        end
      else Raise RuntimeError
  end.

End Torch.

Import Torch.

(* ------------------------------------------------------------------ *)
(** ** Python dictionaries, in insertion order *)

Module Dict.

Definition dict (V : Type) : Type := list (string * V).

(** [d[k] = v]: a key already present keeps its position and takes the
    new value, a new key goes to the end. *)
Fixpoint set {V} (d : dict V) (k : string) (v : V) : dict V :=
  match d with
  | [] => [(k, v)]
  | (k', v') :: d' =>
      if String.eqb k k' then (k', v) :: d' else (k', v') :: set d' k v
  end.

(** [d.update(items)]. *)
Definition update {V} (d : dict V) (items : list (string * V)) : dict V :=
  fold_left (fun acc kv => set acc (fst kv) (snd kv)) items d.

(** The dictionary built from a sequence of items, as a comprehension
    or [dict(items)] does. *)
Definition of_items {V} (items : list (string * V)) : dict V :=
  update [] items.

(** [{**d1, **d2, ...}]. *)
Definition merge {V} (ds : list (dict V)) : dict V :=
  fold_left (@update V) ds [].

Definition keys {V} (d : dict V) : list string := map fst d.

End Dict.

(* ------------------------------------------------------------------ *)
(** ** elk/metrics/eval.py *)

Section Eval.

(** The result types of the estimators, with the fields [dataclasses.asdict]
    lists for them, in declaration order. *)
Variables AccuracyResult CalibrationEstimate RocAucResult : Type.
Variable fields_AccuracyResult : AccuracyResult -> list (string * scalar).
Variable fields_RocAucResult : RocAucResult -> list (string * scalar).
Variable ece : CalibrationEstimate -> scalar.

(** [accuracy_ci(y_true, y_pred)], [roc_auc_ci(y_true, y_pred)] and
    [CalibrationError().update(y_true, probs).compute()]. *)
Variable accuracy_ci : tensor Z -> tensor Z -> result AccuracyResult.
Variable roc_auc_ci : tensor Z -> tensor scalar -> result RocAucResult.
Variable calibration_error :
  tensor Z -> tensor scalar -> result CalibrationEstimate.

(** [torch.sigmoid]. *)
Variable sigmoid : scalar -> scalar.

Definition asdict_AccuracyResult (a : AccuracyResult) : Dict.dict scalar :=
  Dict.of_items (fields_AccuracyResult a).

Definition asdict_RocAucResult (a : RocAucResult) : Dict.dict scalar :=
  Dict.of_items (fields_RocAucResult a).

Record EvalResult : Type := mkEvalResult {
  accuracy : AccuracyResult;
  cal_accuracy : option AccuracyResult;
  calibration : option CalibrationEstimate;
  roc_auc : RocAucResult
}.

(** The items of [{f"{prefix}{tag}{k}": v for k, v in d.items()}]. *)
Definition prefixed (prefix tag : string) (d : Dict.dict scalar)
  : list (string * scalar) :=
  map (fun kv => ((prefix ++ tag ++ fst kv)%string, snd kv)) d.

Definition to_dict (self : EvalResult) (prefix : string) : Dict.dict scalar :=
  let acc_dict :=
    Dict.of_items (prefixed prefix "acc_" (asdict_AccuracyResult (accuracy self))) in
  let cal_acc_dict :=
    match cal_accuracy self with
    | Some c => Dict.of_items (prefixed prefix "cal_acc_" (asdict_AccuracyResult c))
    | None => []
    end in
  let cal_dict :=
    match calibration self with
    | Some c => Dict.of_items [((prefix ++ "ece")%string, ece c)]
    | None => []
    end in
  let auroc_dict :=
    Dict.of_items (prefixed prefix "auroc_" (asdict_RocAucResult (roc_auc self))) in
  Dict.merge [auroc_dict; cal_acc_dict; acc_dict; cal_dict].

Definition one_hot_row (n_classes : nat) (label : Z) : result (list Z) :=
  if ((0 <=? label) && (label <? Z.of_nat n_classes))%Z
  then Ok (map (fun j => if (Z.of_nat j =? label)%Z then 1%Z else 0%Z)
               (seq 0 n_classes))
  else Raise RuntimeError.

(** [to_one_hot]: a zero tensor whose shape is the shape of [labels]
    followed by [n_classes], with a one scattered at each label along the
    last axis; [scatter_] rejects a label below 0 or not below
    [n_classes]. *)
Definition to_one_hot (labels : tensor Z) (n_classes : nat)
  : result (tensor Z) :=
  hot <- mapM (one_hot_row n_classes) (data labels) ;;
  Ok (Tensor (shape labels ++ [n_classes]) (concat hot)).

(** [y_logits[..., 1] - y_logits[..., 0]]. *)
Definition logit_difference (y_logits : tensor scalar)
  : result (tensor scalar) :=
  l1 <- select_last 1 y_logits ;;
  l0 <- select_last 0 y_logits ;;
  Ok (tzip ssub l1 l0).

Definition calc_auroc (y_logits : tensor scalar) (y_true : tensor Z)
           (ensembling : string) (num_classes : nat) : result RocAucResult :=
  if String.eqb ensembling "none" then
    hot <- to_one_hot y_true num_classes ;;
    hot_flat <- flatten_from_1 hot ;;
    logits_flat <- flatten_from_1 y_logits ;;
    roc_auc_ci hot_flat logits_flat
  else if String.eqb ensembling "partial" || String.eqb ensembling "full" then
    if num_classes =? 2 then
      score <- logit_difference y_logits ;;
      roc_auc_ci y_true score
    else
      hot <- to_one_hot y_true num_classes ;;
      roc_auc_ci hot y_logits
  else Raise ValueError.

Definition calc_calibrated_accuracies (y_true : tensor Z)
           (pos_probs : tensor scalar) : result AccuracyResult :=
  cal_thresh <- quantile (data pos_probs) (mean (map of_int (data y_true))) ;;
  let cal_preds :=
    tmap (fun p => if sgt p cal_thresh then 1%Z else 0%Z) pos_probs in
  accuracy_ci y_true cal_preds.

Definition calc_calibrated_errors (y_true : tensor Z)
           (pos_probs : tensor scalar) : result CalibrationEstimate :=
  calibration_error (flatten y_true) (flatten pos_probs).

Definition calc_accuracies (y_logits : tensor scalar) (y_true : tensor Z)
  : result AccuracyResult :=
  y_pred <- argmax_last y_logits ;;
  accuracy_ci y_true y_pred.

Definition calc_eval_results (y_true : tensor Z) (y_logits : tensor scalar)
           (ensembling : string) (num_classes : nat) : result EvalResult :=
  acc <- calc_accuracies y_logits y_true ;;
  diff <- logit_difference y_logits ;;
  let pos_probs := tmap sigmoid diff in
  cal_acc <- (if num_classes =? 2
              then fmap Some (calc_calibrated_accuracies y_true pos_probs)
              else Ok None) ;;
  cal_err <- (if num_classes =? 2
              then fmap Some (calc_calibrated_errors y_true pos_probs)
              else Ok None) ;;
  auroc <- calc_auroc y_logits y_true ensembling num_classes ;;
  Ok (mkEvalResult acc cal_acc cal_err auroc).

Definition evaluate_preds (y_true : tensor Z) (y_logits : tensor scalar)
           (ensembling : string) : result EvalResult :=
  match shape y_logits with
  | [n; num_variants; num_classes] =>
      if shape_eqb (shape y_true) [n] then
        if String.eqb ensembling "full" then
          y_logits' <- mean_dim 1 y_logits ;;
          calc_eval_results y_true y_logits' ensembling num_classes
        else
          y_true' <- repeat_n_v y_true num_variants ;;
          calc_eval_results y_true' y_logits ensembling num_classes
      else Raise AssertionError
  | _ => Raise ValueError
  end.

(** One entry of a layer's output: the validation ground truth and
    credences of one dataset, with the dataset name and the layer index. *)
Record LayerOutput : Type := mkLayerOutput {
  val_gt : tensor Z;
  val_credences : tensor scalar;
  meta : string * Z
}.

(** One turn of the loop of [layer_ensembling]. *)
Definition ensembling_step (layer_output : list LayerOutput)
  : result (tensor scalar * tensor Z) :=
  first <- getitem layer_output 0 ;;
  y_logits_mean <- mean_dim 1 (val_credences first) ;;
  Ok (y_logits_mean, val_gt first).

Definition layer_ensembling (layer_outputs : list (list LayerOutput))
  : result EvalResult :=
  collected <- mapM ensembling_step layer_outputs ;;
  let y_logits_means := map fst collected in
  let y_trues := map snd collected in
  layer0 <- getitem layer_outputs 0 ;;
  first0 <- getitem layer0 0 ;;
  num_classes <- getitem (shape (val_credences first0)) 2 ;;
  let middle_index := length y_trues / 2 in
  let y_trues := skipn middle_index y_trues in
  let y_logits := skipn middle_index y_logits_means in
  y_logits_layers <- stack y_logits ;;
  y_layer_logits_means <- mean_dim 0 y_logits_layers ;;
  y_true <- getitem y_trues 2 ;;
  calc_eval_results y_true y_layer_logits_means "full" num_classes.

End Eval.

(* ------------------------------------------------------------------ *)
(** ** elk/run.py *)

Module Run.

(** What one entry of [layers] can be at run time: a layer index, or a
    list of layer indices (the layer and the earlier layers joined to
    it). *)
Inductive layer_unit : Type :=
| LInt (i : Z)
| LList (ls : list Z).

(** [entry + [entry[0] - offset]]. *)
Definition extend_unit (offset : Z) (entry : layer_unit) : result layer_unit :=
  match entry with
  | LInt _ => Raise TypeError
  | LList [] => Raise IndexError
  | LList (l0 :: ls) => Ok (LList ((l0 :: ls) ++ [(l0 - offset)%Z]))
  end.

(** The [turns] next turns of the loop of [concatenate], from index
    [layer] on; [layers] is updated in place. *)
Fixpoint concatenate_loop (offset layer : Z) (turns : nat)
         (layers : list layer_unit) : result (list layer_unit) :=
  match turns with
  | O => Ok layers
  | S turns' =>
      entry <- getitem layers layer ;;
      entry' <- extend_unit offset entry ;;
      layers' <- setitem layers layer entry' ;;
      concatenate_loop offset (layer + 1)%Z turns' layers'
  end.

(** [for layer in range(offset, len(layers))]. *)
Definition concatenate (offset : Z) (layers : list layer_unit)
  : result (list layer_unit) :=
  concatenate_loop offset offset
    (Z.to_nat (Z.of_nat (length layers) - offset)) layers.

Record Config : Type := mkConfig {
  concatenated_layer_offset : Z;
  debug : bool
}.

(** A row returned by the per-layer function: its [layer] entry, which
    every row carries, and its other entries. *)
Record Row : Type := mkRow {
  row_layer : Z;
  row_cells : Dict.dict scalar
}.

(** The files the sweep writes: the rows of [eval.csv] once it has been
    opened for writing, and whether the debug log was saved. *)
Record Files : Type := mkFiles {
  eval_csv : option (list Row);
  debug_log : bool
}.

Fixpoint insert_row (r : Row) (rs : list Row) : list Row :=
  match rs with
  | [] => [r]
  | r' :: rs' =>
      if (row_layer r <=? row_layer r')%Z
      then r :: r' :: rs'
      else r' :: insert_row r rs'
  end.

Definition sort_rows (rs : list Row) : list Row :=
  fold_right insert_row [] rs.

(** The order of the rows of a frame sorted by layer. *)
Definition layer_le (a b : Row) : Prop := (row_layer a <= row_layer b)%Z.

(** [pd.DataFrame(row_buf).sort_values(by="layer")]: a frame built from
    no row has no [layer] column, and sorting by a missing column raises
    [KeyError]. Rows of one layer are kept here in their order of
    arrival; the properties below use only that the frame is sorted and
    holds the rows of the buffer. *)
Definition sort_values_by_layer (row_buf : list Row) : result (list Row) :=
  match row_buf with
  | [] => Raise KeyError
  | _ :: _ => Ok (sort_rows row_buf)
  end.

(** The results the loop receives, in order: [map] yields them in the
    order of [layers]; [imap_unordered] yields them as the workers
    complete, an order [schedule] stands for. *)
Definition mapper (num_devices : Z)
           (schedule : list layer_unit -> list layer_unit)
           (func : layer_unit -> result Row) (layers : list layer_unit)
  : list (result Row) :=
  if (1 <? num_devices)%Z then map func (schedule layers) else map func layers.

(** The collection loop: rows are appended until the results are
    exhausted or one of them raises. *)
Fixpoint collect (results : list (result Row)) (row_buf : list Row)
  : list Row * option exn :=
  match results with
  | [] => (row_buf, None)
  | Ok row :: rest => collect rest (row_buf ++ [row])
  | Raise e :: _ => (row_buf, Some e)
  end.

(** The [finally] block, then the exception left pending by the loop.
    [eval.csv] was opened for writing before the loop, so it is empty
    until [to_csv] writes the sorted frame. *)
Definition flush (cfg : Config) (files : Files) (row_buf : list Row)
           (pending : option exn) : Files * result unit :=
  match sort_values_by_layer row_buf with
  | Raise e => (mkFiles (Some []) (debug_log files), Raise e)
  | Ok df =>
      (mkFiles (Some df) (debug_log files || debug cfg),
       match pending with
       | Some e => Raise e
       | None => Ok tt
       end)
  end.

Definition resolve_layers (cfg : Config) (layers : list layer_unit)
  : result (list layer_unit) :=
  if (0 <? concatenated_layer_offset cfg)%Z
  then concatenate (concatenated_layer_offset cfg) layers
  else Ok layers.

(** [apply_to_layers], from the files present before the call ([layers]
    is what [get_layers] returned). *)
Definition apply_to_layers (cfg : Config)
           (schedule : list layer_unit -> list layer_unit)
           (func : layer_unit -> result Row) (num_devices : Z)
           (layers : list layer_unit) (files : Files)
  : Files * result unit :=
  match resolve_layers cfg layers with
  | Raise e => (files, Raise e)
  | Ok layers' =>
      if (num_devices <? 1)%Z then (files, Raise ValueError)
      else
        let '(row_buf, pending) :=
          collect (mapper num_devices schedule func layers') [] in
        flush cfg files row_buf pending
  end.

End Run.

(* ------------------------------------------------------------------ *)
(** ** The specification's wording, as definitions *)

Module Spec.

Section Worded.

Variables AccuracyResult CalibrationEstimate RocAucResult : Type.
Variable accuracy_ci : tensor Z -> tensor Z -> result AccuracyResult.
Variable roc_auc_ci : tensor Z -> tensor scalar -> result RocAucResult.
Variable calibration_error :
  tensor Z -> tensor scalar -> result CalibrationEstimate.
Variable sigmoid : scalar -> scalar.

(** "Flatten all but the last axis". *)
Definition flatten_keep_last {A} (t : tensor A) : result (tensor A) :=
  match rev (shape t) with
  | [] => Raise IndexError
  | k :: lead_rev => Ok (Tensor [numel (rev lead_rev); k] (data t))
  end.

(** AUROC of mode [none] as the specification words it: one-hot encode,
    flatten all but the last axis, score against the logits flattened
    the same way. *)
Definition calc_auroc_none_keep_last (y_logits : tensor scalar)
           (y_true : tensor Z) (num_classes : nat) : result RocAucResult :=
  hot <- to_one_hot y_true num_classes ;;
  hot_flat <- flatten_keep_last hot ;;
  logits_flat <- flatten_keep_last y_logits ;;
  roc_auc_ci hot_flat logits_flat.

(** The signed score of one example: [logit[1] - logit[0]]. *)
Definition signed_score (logits : list scalar) : scalar :=
  match logits with
  | [l0; l1] => ssub l1 l0
  | _ => NaN
  end.

(** The one-hot row of a label among [n_classes] classes. *)
Definition one_hot_vector (n_classes : nat) (label : Z) : list Z :=
  map (fun j => if (Z.of_nat j =? label)%Z then 1%Z else 0%Z)
      (seq 0 n_classes).

(** The empirical positive rate [mean(y_true)]. *)
Definition positive_rate (y_true : tensor Z) : scalar :=
  mean (map of_int (data y_true)).

(** The predictions [pos_probs > threshold]. *)
Definition predictions_above (threshold : scalar) (pos_probs : tensor scalar)
  : tensor Z :=
  tmap (fun p => if sgt p threshold then 1%Z else 0%Z) pos_probs.

(** The variant-averaged validation credences of one layer. *)
Definition variant_average (layer_output : list LayerOutput)
  : result (tensor scalar) :=
  first <- getitem layer_output 0 ;;
  mean_dim 1 (val_credences first).

Definition ground_truth (layer_output : list LayerOutput)
  : result (tensor Z) :=
  first <- getitem layer_output 0 ;;
  Ok (val_gt first).

(** Layer ensembling as the specification words it: keep the layers from
    index [len // 2] on, stack their variant-averaged credences, average
    over the depth axis, and score in mode [full] against the ground
    truth at index 2 of the kept layers. The number of classes is read
    off the credences of the first layer of the sweep. *)
Definition layer_ensembling_later_half
           (layer_outputs : list (list LayerOutput))
  : result (EvalResult AccuracyResult CalibrationEstimate RocAucResult) :=
  let later := skipn (length layer_outputs / 2) layer_outputs in
  averaged <- mapM variant_average later ;;
  truths <- mapM ground_truth later ;;
  layer0 <- getitem layer_outputs 0 ;;
  first0 <- getitem layer0 0 ;;
  num_classes <- getitem (shape (val_credences first0)) 2 ;;
  stacked <- stack averaged ;;
  depth_mean <- mean_dim 0 stacked ;;
  y_true <- getitem truths 2 ;;
  calc_eval_results accuracy_ci roc_auc_ci calibration_error sigmoid
                    y_true depth_mean "full" num_classes.

End Worded.

(** [einops.repeat(t, "n 1 k -> n v k", v=v)]: every example's single
    variant row is copied [v] times. *)
Definition repeat_variants {A} (v : nat) (t : tensor A) : tensor A :=
  match shape t with
  | [n; _; k] =>
      Tensor [n; v; k]
             (flat_map (fun row => concat (repeat row v)) (rows n k (data t)))
  | _ => t
  end.

(** The list [concatenate] would return if every entry received the
    layer [offset] below its own. *)
Definition extend_every_unit (offset : Z) (layers : list Run.layer_unit)
  : result (list Run.layer_unit) :=
  mapM (Run.extend_unit offset) layers.

(** An entry with the layer [offset] below its first index joined to it. *)
Definition extend_entry (offset : Z) (entry : list Z) : list Z :=
  match entry with
  | [] => entry
  | l0 :: _ => entry ++ [(l0 - offset)%Z]
  end.

End Spec.

(* ------------------------------------------------------------------ *)
(** ** Estimators and data for the concrete runs *)

Module Probe.

(** Estimators that return the arguments they were called with, so that
    a run shows what the metrics hand to each estimator. *)
Definition AccuracyResult : Type := (tensor Z * tensor Z)%type.
Definition RocAucResult : Type := (tensor Z * tensor scalar)%type.
Definition CalibrationEstimate : Type := (tensor Z * tensor scalar)%type.

Definition accuracy_ci (y_true y_pred : tensor Z) : result AccuracyResult :=
  Ok (y_true, y_pred).

Definition roc_auc_ci (y_true : tensor Z) (y_pred : tensor scalar)
  : result RocAucResult :=
  Ok (y_true, y_pred).

Definition calibration_error (y_true : tensor Z) (probs : tensor scalar)
  : result CalibrationEstimate :=
  Ok (y_true, probs).

Definition fields_AccuracyResult (_ : AccuracyResult)
  : list (string * scalar) :=
  [("estimate"%string, NaN); ("lower"%string, NaN); ("upper"%string, NaN)].

Definition fields_RocAucResult (_ : RocAucResult) : list (string * scalar) :=
  [("estimate"%string, NaN); ("lower"%string, NaN); ("upper"%string, NaN)].

Definition ece (_ : CalibrationEstimate) : scalar := NaN.

(** A rational squashing function standing for the sigmoid: increasing,
    with values strictly between 0 and 1, and 1/2 at 0. *)
Definition squash (x : scalar) : scalar :=
  match x with
  | NaN => NaN
  | Fin q =>
      let a := match (q ?= 0)%Qc with Lt => (- q)%Qc | _ => q end in
      Fin (Q2Qc (1 # 2) + q / (Q2Qc 2 * (1 + a)))%Qc
  end.

Definition calc_eval_results :=
  calc_eval_results accuracy_ci roc_auc_ci calibration_error squash.

Definition evaluate_preds :=
  evaluate_preds accuracy_ci roc_auc_ci calibration_error squash.

Definition layer_ensembling :=
  layer_ensembling accuracy_ci roc_auc_ci calibration_error squash.

Definition to_dict :=
  @to_dict AccuracyResult CalibrationEstimate RocAucResult
           fields_AccuracyResult fields_RocAucResult ece.

End Probe.

Module Data.

(** Scenario 1 of the specification: four examples, one variant, two
    classes, logits [2, -2] for class 0 and [-2, 2] for class 1. *)
Definition y_true4 : tensor Z := Tensor [4] [0; 1; 0; 1]%Z.

Definition logits412 : tensor scalar :=
  Tensor [4; 1; 2] (map of_int [2; -2; -2; 2; 2; -2; -2; 2]%Z).

(** One example with two variants and two classes. *)
Definition y_true12 : tensor Z := Tensor [1; 2] [0; 1]%Z.

Definition logits122 : tensor scalar :=
  Tensor [1; 2; 2] (map of_int [2; -2; -2; 2]%Z).

Definition layer_at (i : Z) : list LayerOutput :=
  [mkLayerOutput y_true4 logits412 ("imdb"%string, i)].

Definition sweep (n : nat) : list (list LayerOutput) :=
  map (fun i => layer_at (Z.of_nat i)) (seq 0 n).

(** The same logits once the variant axis is averaged away. *)
Definition logits42 : tensor scalar :=
  Tensor [4; 2] (map of_int [2; -2; -2; 2; 2; -2; -2; 2]%Z).

(** Three-class logits for the same four examples. *)
Definition logits43 : tensor scalar :=
  Tensor [4; 3] (map of_int [2; -2; 0; -2; 2; 0; 2; -2; 0; -2; 2; 0]%Z).

(** Probabilities that all lie above one half, with one positive label
    out of four. *)
Definition probs4 : tensor scalar :=
  Tensor [4] [Fin (Q2Qc (6 # 10)); Fin (Q2Qc (7 # 10));
              Fin (Q2Qc (8 # 10)); Fin (Q2Qc (9 # 10))].

Definition y_true_one_positive : tensor Z := Tensor [4] [0; 0; 0; 1]%Z.

(** A sweep over the layers 0, 1, 2 whose worker for layer 1 raises. *)
Definition layers012 : list Run.layer_unit :=
  [Run.LInt 0; Run.LInt 1; Run.LInt 2].

Definition failing_at_1 (u : Run.layer_unit) : result Run.Row :=
  match u with
  | Run.LInt 1 => Raise (WorkerError 1)
  | Run.LInt i => Ok (Run.mkRow i [])
  | Run.LList _ => Raise TypeError
  end.

(** A pool in which the worker of layer 1 is the last to report. *)
Definition layer_1_last (layers : list Run.layer_unit) : list Run.layer_unit :=
  match layers with
  | [l0; l1; l2] => [l0; l2; l1]
  | _ => layers
  end.

Definition no_files : Run.Files := Run.mkFiles None false.

Definition cfg_plain : Run.Config := Run.mkConfig 0 false.

Definition units012 : list Run.layer_unit :=
  [Run.LList [0%Z]; Run.LList [1%Z]; Run.LList [2%Z]].

End Data.

(* ------------------------------------------------------------------ *)
(** ** Reading dictionaries *)

Module Lookup.

(** [d.get(k)]. *)
Fixpoint get {V} (d : Dict.dict V) (k : string) : option V :=
  match d with
  | [] => None
  | (k', v) :: d' => if String.eqb k k' then Some v else get d' k
  end.

(** [d[k]]. *)
Definition getkey {V} (d : Dict.dict V) (k : string) : result V :=
  match get d k with
  | Some v => Ok v
  | None => Raise KeyError
  end.

End Lookup.

(* ------------------------------------------------------------------ *)
(** ** Comparing sweeps of layer outputs *)

Module Sweep.

(** The ground truth a layer contributes: that of its first entry. *)
Definition first_ground_truth (layer_output : list LayerOutput)
  : option (tensor Z) :=
  match layer_output with
  | [] => None
  | first :: _ => Some (val_gt first)
  end.

(** Two layer outputs whose first entries carry the same credences (or
    that both have no entry). *)
Definition same_credences (a b : list LayerOutput) : Prop :=
  match a, b with
  | [], [] => True
  | first :: _, first' :: _ => val_credences first = val_credences first'
  | _, _ => False
  end.

End Sweep.

(* ------------------------------------------------------------------ *)
(** ** Exceptions outside the metrics and the sweep *)

Module Errors.

Inductive error : Type :=
| Builtin (e : exn)
| ZeroDivisionError
| NotImplementedError.

Inductive outcome (A : Type) : Type :=
| Return (a : A)
| Throw (e : error).

Arguments Return {A} a.
Arguments Throw {A} e.

Definition lift {A} (m : result A) : outcome A :=
  match m with
  | Ok a => Return a
  | Raise e => Throw (Builtin e)
  end.

End Errors.

Import Errors.

(* ------------------------------------------------------------------ *)
(** ** elk/run.py: the device of a worker *)

Module Device.

(** [get_device]: [rank = os.getpid() % world_size], then
    [devices[rank]]; [pid] is the identifier of the current process. *)
Definition get_device (devices : list string) (world_size : Z) (pid : Z)
  : outcome string :=
  if (world_size =? 0)%Z then Throw ZeroDivisionError
  else lift (getitem devices (pid mod world_size)%Z).

End Device.

(* ------------------------------------------------------------------ *)
(** ** elk/eval/utils_evaluation.py: reducing pairs of hidden states *)

Module Reduce.

Definition is_digit (c : ascii) : bool :=
  (48 <=? nat_of_ascii c) && (nat_of_ascii c <=? 57).

Fixpoint all_digits (s : string) : bool :=
  match s with
  | EmptyString => true
  | String c s' => is_digit c && all_digits s'
  end.

(** Whether [s] holds ASCII characters only. A character outside ASCII
    can be a digit for Python ([str.isdigit] accepts the digits of every
    script), so the two definitions that follow speak for ASCII modes. *)
Fixpoint ascii_only (s : string) : bool :=
  match s with
  | EmptyString => true
  | String c s' => (nat_of_ascii c <? 128) && ascii_only s'
  end.

(** [mode.isdigit()], for a mode made of ASCII characters: at least one
    character, and only decimal digits. *)
Definition isdigit (mode : string) : bool :=
  match mode with
  | EmptyString => false
  | String _ _ => all_digits mode
  end.

Fixpoint int_from (acc : nat) (s : string) : nat :=
  match s with
  | EmptyString => acc
  | String c s' => int_from (10 * acc + (nat_of_ascii c - 48)) s'
  end.

(** [int(mode)] for a string of decimal digits. Python's [int] refuses a
    string of more than 4300 digits, and torch an index that does not fit
    a signed 64-bit integer: the value is meant within these bounds. *)
Definition int (mode : string) : nat := int_from 0 mode.

(** [t[:, i]] for [i >= 0]. *)
Definition select_dim1 {A} (i : nat) (t : tensor A) : result (tensor A) :=
  match shape t with
  | n :: p :: rest =>
      if i <? p then
        let inner := numel rest in
        Ok (Tensor (n :: rest)
              (flat_map (fun g => firstn inner (skipn (i * inner) g))
                        (rows n (p * inner) (data t))))
      else Raise IndexError
  | _ => Raise IndexError
  end.

Definition reduce_paired_states (hidden_states : tensor scalar)
           (mode : string) : outcome (tensor scalar) :=
  if isdigit mode then
    lift (select_dim1 (int mode) hidden_states)
  else if String.eqb mode "minus" then
    lift (first <- select_dim1 0 hidden_states ;;
          second <- select_dim1 1 hidden_states ;;
          Ok (tzip ssub first second))
  else if String.eqb mode "concat" then
    lift (flatten_from_1 hidden_states)
  else Throw NotImplementedError.

End Reduce.

(* ------------------------------------------------------------------ *)
(** ** The columns of the frame of a sweep *)

Module Frame.

Import Run.

(** The keys of a row that are not among [columns] yet. *)
Definition new_keys (columns : list string) (r : Row) : list string :=
  filter (fun k => negb (existsb (String.eqb k) columns))
         (Dict.keys (row_cells r)).

(** The labels [pd.DataFrame(row_buf)] gives the columns other than
    [layer]: the keys of the rows, each where it first appears, the rows
    taken in the order in which they were received. *)
Definition columns (row_buf : list Row) : list string :=
  fold_left (fun cols r => cols ++ new_keys cols r) row_buf [].

End Frame.

(* ------------------------------------------------------------------ *)
(** ** elk/training/train.py: the rows of one layer *)

Module Train.

(** The values a row holds: dataset names and modes, layer and iteration
    numbers, metrics, and [None] for an absent training loss. *)
Inductive cell : Type :=
| CStr (s : string)
| CInt (z : Z)
| CFloat (x : scalar)
| CNone.

Definition row : Type := Dict.dict cell.

(** [row_bufs], a [defaultdict(list)] from category to rows. *)
Definition row_bufs : Type := Dict.dict (list row).

(** [row_bufs[key].append(r)]: a category is created by its first row. *)
Fixpoint append_row (bufs : row_bufs) (key : string) (r : row) : row_bufs :=
  match bufs with
  | [] => [(key, [r])]
  | (k, rs) :: bufs' =>
      if String.eqb key k then (k, rs ++ [r]) :: bufs'
      else (k, rs) :: append_row bufs' key r
  end.

(** The rows of a category, none when the category is absent. *)
Definition rows_of (bufs : row_bufs) (key : string) : list row :=
  match Lookup.get bufs key with
  | Some rs => rs
  | None => []
  end.

(** A loop over [xs] that threads a state and stops at the first
    exception. *)
Fixpoint foldM {S A} (f : S -> A -> result S) (xs : list A) (s : S)
  : result S :=
  match xs with
  | [] => Ok s
  | x :: xs' => s' <- f s x ;; foldM f xs' s'
  end.

(** [enumerate(xs)]. *)
Definition enumerate {A} (xs : list A) : list (Z * A) :=
  combine (map Z.of_nat (seq 0 (length xs))) xs.

(** The data of one dataset: hidden states, ground truth, and the
    predictions of the language model when there are any. *)
Definition prepared : Type :=
  (tensor scalar * tensor Z * option (tensor scalar))%type.

Section EvaluateAndSave.

Variables AccuracyResult CalibrationEstimate RocAucResult : Type.
Variable fields_AccuracyResult : AccuracyResult -> list (string * scalar).
Variable fields_RocAucResult : RocAucResult -> list (string * scalar).
Variable ece : CalibrationEstimate -> scalar.
Variable accuracy_ci : tensor Z -> tensor Z -> result AccuracyResult.
Variable roc_auc_ci : tensor Z -> tensor scalar -> result RocAucResult.
Variable calibration_error :
  tensor Z -> tensor scalar -> result CalibrationEstimate.
Variable sigmoid : scalar -> scalar.

(** [PromptEnsembling]: its members in the order of [all()], the [value]
    of a member, and the string a member stands for in the comparisons of
    [evaluate_preds]. *)
Variable PromptEnsembling : Type.
Variable all_modes : list PromptEnsembling.
Variable value : PromptEnsembling -> string.
Variable mode_key : PromptEnsembling -> string.

Definition PROMPT_ENSEMBLING : string := "prompt_ensembling".

(** [evaluate_preds(y_true, y_logits, mode).to_dict()] as row values. *)
Definition metric_cells (y_true : tensor Z) (y_logits : tensor scalar)
           (mode : PromptEnsembling) : result row :=
  r <- evaluate_preds accuracy_ci roc_auc_ci calibration_error sigmoid
                      y_true y_logits (mode_key mode) ;;
  Ok (map (fun kv => (fst kv, CFloat (snd kv)))
          (to_dict fields_AccuracyResult fields_RocAucResult ece r "")).

Definition meta_cells (ds_name : string) (layer : Z) : row :=
  Dict.of_items [("dataset"%string, CStr ds_name); ("layer"%string, CInt layer)].

Definition loss_cell (train_loss : option scalar) : cell :=
  match train_loss with
  | Some x => CFloat x
  | None => CNone
  end.

(** The body of the loop over the ensembling modes, for one dataset. *)
Definition mode_rows (train_loss : option scalar)
           (lr_models : list (tensor scalar -> result (tensor scalar)))
           (meta : row) (val : prepared) (train : prepared)
           (val_credences train_credences : tensor scalar)
           (bufs : row_bufs) (prompt_ensembling : PromptEnsembling)
  : result row_bufs :=
  let '(val_h, val_gt, val_lm_preds) := val in
  let '(train_h, train_gt, train_lm_preds) := train in
  let mode_cell := [(PROMPT_ENSEMBLING, CStr (value prompt_ensembling))] in
  metrics <- metric_cells val_gt val_credences prompt_ensembling ;;
  let bufs :=
    append_row bufs "eval"
      (Dict.merge [meta; mode_cell; metrics;
                   [("train_loss"%string, loss_cell train_loss)]]) in
  metrics <- metric_cells train_gt train_credences prompt_ensembling ;;
  let bufs :=
    append_row bufs "train_eval"
      (Dict.merge [meta; mode_cell; metrics;
                   [("train_loss"%string, loss_cell train_loss)]]) in
  bufs <- match val_lm_preds with
          | Some preds =>
              metrics <- metric_cells val_gt preds prompt_ensembling ;;
              Ok (append_row bufs "lm_eval"
                             (Dict.merge [meta; mode_cell; metrics]))
          | None => Ok bufs
          end ;;
  bufs <- match train_lm_preds with
          | Some preds =>
              metrics <- metric_cells train_gt preds prompt_ensembling ;;
              Ok (append_row bufs "train_lm_eval"
                             (Dict.merge [meta; mode_cell; metrics]))
          | None => Ok bufs
          end ;;
  foldM (fun bufs numbered =>
           preds <- snd numbered val_h ;;
           metrics <- metric_cells val_gt preds prompt_ensembling ;;
           Ok (append_row bufs "lr_eval"
                 (Dict.merge [meta; mode_cell;
                              [("inlp_iter"%string, CInt (fst numbered))];
                              metrics])))
        (enumerate lr_models) bufs.

(** The body of the loop over the datasets of [val_dict]. *)
Definition dataset_rows (train_loss : option scalar)
           (reporter : tensor scalar -> result (tensor scalar))
           (train_dict val_dict : Dict.dict prepared)
           (lr_models : list (tensor scalar -> result (tensor scalar)))
           (layer : Z)
           (state : row_bufs * list LayerOutput) (ds_name : string)
  : result (row_bufs * list LayerOutput) :=
  let '(bufs, layer_output) := state in
  val <- Lookup.getkey val_dict ds_name ;;
  train <- Lookup.getkey train_dict ds_name ;;
  let meta := meta_cells ds_name layer in
  val_credences <- reporter (fst (fst val)) ;;
  train_credences <- reporter (fst (fst train)) ;;
  let layer_output :=
    layer_output
    ++ [mkLayerOutput (snd (fst val)) val_credences (ds_name, layer)] in
  bufs <- foldM (mode_rows train_loss lr_models meta val train
                           val_credences train_credences)
                all_modes bufs ;;
  Ok (bufs, layer_output).

(** [evaluate_and_save]: the layer outputs and the rows by category. *)
Definition evaluate_and_save (train_loss : option scalar)
           (reporter : tensor scalar -> result (tensor scalar))
           (train_dict val_dict : Dict.dict prepared)
           (lr_models : list (tensor scalar -> result (tensor scalar)))
           (layer : Z)
  : result (list LayerOutput * row_bufs) :=
  state <- foldM (dataset_rows train_loss reporter train_dict val_dict
                               lr_models layer)
                 (Dict.keys val_dict) ([], []) ;;
  Ok (snd state, fst state).

End EvaluateAndSave.

End Train.

Module TrainCount.

(** Whether the data of a dataset hold predictions of the language
    model. *)
Definition has_lm (p : Train.prepared) : bool :=
  match p with
  | (_, _, Some _) => true
  | (_, _, None) => false
  end.

Definition has_lm_in (d : Dict.dict Train.prepared) (ds_name : string) : bool :=
  match Lookup.get d ds_name with
  | Some p => has_lm p
  | None => false
  end.

(** The datasets among [names] for which [d] holds predictions of the
    language model. *)
Definition with_lm_preds (d : Dict.dict Train.prepared) (names : list string)
  : list string :=
  filter (has_lm_in d) names.

(** The number of rows of a category. *)
Definition count (bufs : Train.row_bufs) (key : string) : nat :=
  length (Train.rows_of bufs key).

(** The columns that come before and after the metrics in the rows of a
    category. *)
Definition row_columns (key : string) : option (list string * list string) :=
  if String.eqb key "eval" || String.eqb key "train_eval" then
    Some (["dataset"; "layer"; "prompt_ensembling"], ["train_loss"])%string
  else if String.eqb key "lm_eval" || String.eqb key "train_lm_eval" then
    Some (["dataset"; "layer"; "prompt_ensembling"], [])%string
  else if String.eqb key "lr_eval" then
    Some (["dataset"; "layer"; "prompt_ensembling"; "inlp_iter"], [])%string
  else None.

(** The rows one turn of the loop over the modes adds to a category. *)
Definition rows_per_mode (key : string) (val train : Train.prepared)
           (n_lr_models : nat) : nat :=
  (if String.eqb key "eval" then 1 else 0)
  + (if String.eqb key "train_eval" then 1 else 0)
  + (if has_lm val && String.eqb key "lm_eval" then 1 else 0)
  + (if has_lm train && String.eqb key "train_lm_eval" then 1 else 0)
  + (if String.eqb key "lr_eval" then n_lr_models else 0).

End TrainCount.

(* ------------------------------------------------------------------ *)
(** ** Data for the further properties *)

Module MoreData.

(** No example at all, two classes. *)
Definition empty_truth : tensor Z := Tensor [0] [].
Definition empty_logits : tensor scalar := Tensor [0; 1; 2] [].

(** Four examples with three identical variants each. *)
Definition logits432 : tensor scalar := Spec.repeat_variants 3 Data.logits412.

(** The sweep of five layers, and the same sweep with another ground
    truth in its first layer. *)
Definition other_truth : tensor Z := Tensor [4] [1; 1; 0; 0]%Z.

Definition sweep_other_truth : list (list LayerOutput) :=
  [mkLayerOutput other_truth Data.logits412 ("imdb"%string, 0%Z)]
    :: tl (Data.sweep 5).

Definition devices : list string := ["cuda:0"; "cuda:1"]%string.

(** A per-layer function that succeeds on every layer index. *)
Definition row_of_layer (u : Run.layer_unit) : result Run.Row :=
  match u with
  | Run.LInt i => Ok (Run.mkRow i [])
  | Run.LList _ => Raise TypeError
  end.


(** A pool in which the worker of layer 1 is the first to report. *)
Definition layer_1_first (layers : list Run.layer_unit)
  : list Run.layer_unit :=
  match layers with
  | [l0; l1; l2] => [l1; l0; l2]
  | _ => layers
  end.

(** A per-layer function that fails on the first layer. *)
Definition failing_at_0 (u : Run.layer_unit) : result Run.Row :=
  match u with
  | Run.LInt 0 => Raise (WorkerError 0)
  | Run.LInt i => Ok (Run.mkRow i [])
  | Run.LList _ => Raise TypeError
  end.

(** The configuration with the debug log requested. *)
Definition cfg_debug : Run.Config := Run.mkConfig 0 true.

(** Two examples, a pair of hidden states each, two numbers per state. *)
Definition hidden222 : tensor scalar :=
  Tensor [2; 2; 2] (map of_int [1; 2; 3; 4; 5; 6; 7; 8]%Z).

(** One layer of a run over two datasets, the second of which comes with
    predictions of the language model: the modes are strings, the
    reporter returns the hidden states it is given, and there is one
    baseline classifier. *)
Definition modes : list string := ["full"; "partial"; "none"]%string.

Definition reporter (h : tensor scalar) : result (tensor scalar) := Ok h.

Definition datasets : Dict.dict Train.prepared :=
  [("imdb"%string, (Data.logits412, Data.y_true4, None));
   ("amazon"%string, (Data.logits412, Data.y_true4, Some Data.logits412))].

Definition evaluate_and_save :=
  Train.evaluate_and_save
    Probe.fields_AccuracyResult Probe.fields_RocAucResult Probe.ece
    Probe.accuracy_ci Probe.roc_auc_ci Probe.calibration_error Probe.squash
    modes (fun mode : string => mode) (fun mode : string => mode).

End MoreData.

(* ------------------------------------------------------------------ *)
(** ** The metrics over an element type *)

(** The part of [elk/metrics/eval.py] that [evaluate_preds] runs, over
    any element type and its arithmetic. The definitions above are the
    instance at exact rationals; the instance that follows is at IEEE 754
    binary32, the element type of the tensors the code receives, where
    the mean rounds. *)
Module Dtype.

Section Elements.

Variable E : Type.

(** [xs.mean()] over the elements of one reduction, [a - b], [a > b],
    [isnan], the conversion [y_true.float()] of a label, [xs.quantile(q)]
    and [torch.sigmoid]. *)
Variable mean : list E -> E.
Variable ssub : E -> E -> E.
Variable sgt : E -> E -> bool.
Variable is_nan : E -> bool.
Variable of_int : Z -> E.
Variable quantile : list E -> E -> result E.
Variable sigmoid : E -> E.

Variables AccuracyResult CalibrationEstimate RocAucResult : Type.
Variable accuracy_ci : tensor Z -> tensor Z -> result AccuracyResult.
Variable roc_auc_ci : tensor Z -> tensor E -> result RocAucResult.
Variable calibration_error : tensor Z -> tensor E -> result CalibrationEstimate.

Fixpoint argmax_from (best_i : nat) (best : E) (i : nat) (xs : list E) : nat :=
  match xs with
  | [] => best_i
  | x :: xs' =>
      if negb (is_nan best) && (is_nan x || sgt x best)
      then argmax_from i x (S i) xs'
      else argmax_from best_i best (S i) xs'
  end.

Definition argmax_row (xs : list E) : Z :=
  match xs with
  | [] => 0%Z
  | x :: xs' => Z.of_nat (argmax_from 0 x 1 xs')
  end.

(** [t.argmax(dim=-1)]. *)
Definition argmax_last (t : tensor E) : result (tensor Z) :=
  match rev (shape t) with
  | [] => Ok (Tensor [] (map (fun _ => 0%Z) (data t)))
  | k :: lead_rev =>
      if k =? 0 then Raise IndexError
      else Ok (Tensor (rev lead_rev)
                      (map argmax_row (rows (numel (rev lead_rev)) k (data t))))
  end.

(** [t.mean(dim=d)] for [d >= 0]. *)
Definition mean_dim (d : nat) (t : tensor E) : result (tensor E) :=
  let s := shape t in
  if d <? length s then
    let outer := numel (firstn d s) in
    let v := nth d s 0 in
    let inner := numel (skipn (S d) s) in
    Ok (Tensor (firstn d s ++ skipn (S d) s)
          (flat_map
             (fun g => map (fun r => mean (column r (rows v inner g)))
                           (seq 0 inner))
             (rows outer (v * inner) (data t))))
  else Raise IndexError.

(** [y_logits[..., 1] - y_logits[..., 0]]. *)
Definition logit_difference (y_logits : tensor E) : result (tensor E) :=
  l1 <- select_last 1 y_logits ;;
  l0 <- select_last 0 y_logits ;;
  Ok (tzip ssub l1 l0).

Definition calc_auroc (y_logits : tensor E) (y_true : tensor Z)
           (ensembling : string) (num_classes : nat) : result RocAucResult :=
  if String.eqb ensembling "none" then
    hot <- to_one_hot y_true num_classes ;;
    hot_flat <- flatten_from_1 hot ;;
    logits_flat <- flatten_from_1 y_logits ;;
    roc_auc_ci hot_flat logits_flat
  else if String.eqb ensembling "partial" || String.eqb ensembling "full" then
    if num_classes =? 2 then
      score <- logit_difference y_logits ;;
      roc_auc_ci y_true score
    else
      hot <- to_one_hot y_true num_classes ;;
      roc_auc_ci hot y_logits
  else Raise ValueError.

Definition calc_calibrated_accuracies (y_true : tensor Z)
           (pos_probs : tensor E) : result AccuracyResult :=
  cal_thresh <- quantile (data pos_probs) (mean (map of_int (data y_true))) ;;
  let cal_preds :=
    tmap (fun p => if sgt p cal_thresh then 1%Z else 0%Z) pos_probs in
  accuracy_ci y_true cal_preds.

Definition calc_calibrated_errors (y_true : tensor Z)
           (pos_probs : tensor E) : result CalibrationEstimate :=
  calibration_error (flatten y_true) (flatten pos_probs).

Definition calc_accuracies (y_logits : tensor E) (y_true : tensor Z)
  : result AccuracyResult :=
  y_pred <- argmax_last y_logits ;;
  accuracy_ci y_true y_pred.

Definition calc_eval_results (y_true : tensor Z) (y_logits : tensor E)
           (ensembling : string) (num_classes : nat)
  : result (EvalResult AccuracyResult CalibrationEstimate RocAucResult) :=
  acc <- calc_accuracies y_logits y_true ;;
  diff <- logit_difference y_logits ;;
  let pos_probs := tmap sigmoid diff in
  cal_acc <- (if num_classes =? 2
              then fmap Some (calc_calibrated_accuracies y_true pos_probs)
              else Ok None) ;;
  cal_err <- (if num_classes =? 2
              then fmap Some (calc_calibrated_errors y_true pos_probs)
              else Ok None) ;;
  auroc <- calc_auroc y_logits y_true ensembling num_classes ;;
  Ok (mkEvalResult acc cal_acc cal_err auroc).

Definition evaluate_preds (y_true : tensor Z) (y_logits : tensor E)
           (ensembling : string)
  : result (EvalResult AccuracyResult CalibrationEstimate RocAucResult) :=
  match shape y_logits with
  | [n; num_variants; num_classes] =>
      if shape_eqb (shape y_true) [n] then
        if String.eqb ensembling "full" then
          y_logits' <- mean_dim 1 y_logits ;;
          calc_eval_results y_true y_logits' ensembling num_classes
        else
          y_true' <- repeat_n_v y_true num_variants ;;
          calc_eval_results y_true' y_logits ensembling num_classes
      else Raise AssertionError
  | _ => Raise ValueError
  end.

End Elements.

End Dtype.

(* ------------------------------------------------------------------ *)
(** ** Tensors of 32-bit floats *)

Module Float32.

(** IEEE 754 binary32, the default element type of torch and the type of
    the credences a reporter returns: 24 bits of precision, exponents
    below 128, every operation rounded to nearest, ties to even. *)
Definition prec : Z := 24.
Definition emax : Z := 128.

Definition float32 : Type := SpecFloat.spec_float.

(** The float nearest to [m * 2 ^ e]. *)
Definition of_scaled (m e : Z) : float32 :=
  SpecFloat.binary_normalize prec emax m e false.

Definition of_int (z : Z) : float32 := of_scaled z 0.

Definition sadd : float32 -> float32 -> float32 := SpecFloat.SFadd prec emax.
Definition ssub : float32 -> float32 -> float32 := SpecFloat.SFsub prec emax.
Definition smul : float32 -> float32 -> float32 := SpecFloat.SFmul prec emax.
Definition sdiv : float32 -> float32 -> float32 := SpecFloat.SFdiv prec emax.

(** [a > b]; every comparison with [nan] is false. *)
Definition sgt (a b : float32) : bool := SpecFloat.SFltb b a.

Definition is_nan (a : float32) : bool :=
  match a with
  | SpecFloat.S754_nan => true
  | _ => false
  end.

(** The elements of a reduction added up one after the other. The order
    in which the kernel of torch adds them is not fixed by the code;
    floating-point addition is commutative, so for up to three equal
    elements every order gives this sum. *)
Definition ssum (xs : list float32) : float32 :=
  fold_left sadd xs (SpecFloat.S754_zero false).

(** [xs.mean()]: the sum of the elements, then its division by their
    number, each rounded; [nan] for an empty mean. *)
Definition mean (xs : list float32) : float32 :=
  sdiv (ssum xs) (of_int (Z.of_nat (length xs))).

(** The greatest integer not above a finite float. *)
Definition floor (x : float32) : Z :=
  match x with
  | SpecFloat.S754_finite s m e =>
      let n := if s then Z.neg m else Z.pos m in
      if (0 <=? e)%Z then (n * 2 ^ e)%Z else (n / 2 ^ (- e))%Z
  | _ => 0%Z
  end.

Definition ceiling (x : float32) : Z := (- floor (SpecFloat.SFopp x))%Z.

Fixpoint insert_sorted (x : float32) (xs : list float32) : list float32 :=
  match xs with
  | [] => [x]
  | y :: ys => if sgt x y then y :: insert_sorted x ys else x :: y :: ys
  end.

Definition sort (xs : list float32) : list float32 :=
  fold_right insert_sorted [] xs.

Module Probe.

(** Estimators that return the arguments they were called with. *)
Definition AccuracyResult : Type := (tensor Z * tensor Z)%type.
Definition RocAucResult : Type := (tensor Z * tensor float32)%type.
Definition CalibrationEstimate : Type := (tensor Z * tensor float32)%type.

Definition accuracy_ci (y_true y_pred : tensor Z) : result AccuracyResult :=
  Ok (y_true, y_pred).

Definition roc_auc_ci (y_true : tensor Z) (y_pred : tensor float32)
  : result RocAucResult :=
  Ok (y_true, y_pred).

Definition calibration_error (y_true : tensor Z) (probs : tensor float32)
  : result CalibrationEstimate :=
  Ok (y_true, probs).

(** A squashing function standing for the sigmoid: [1/2 + x / (2 (1 + |x|))]
    in the operations of the element type. *)
Definition squash (x : float32) : float32 :=
  sadd (of_scaled 1 (-1))
       (sdiv x (smul (of_int 2) (sadd (of_int 1) (SpecFloat.SFabs x)))).

(** Linear interpolation between the two nearest order statistics, in
    the operations of the element type, standing for [torch.quantile]:
    how the kernel of torch rounds the interpolation is not fixed by the
    code. It is called for two classes only. *)
Definition quantile (xs : list float32) (q : float32) : result float32 :=
  match xs with
  | [] => Raise RuntimeError
  | _ :: _ =>
      if SpecFloat.SFleb (of_int 0) q && SpecFloat.SFleb q (of_int 1) then
        if existsb is_nan xs then Ok SpecFloat.S754_nan
        else
          let sorted := sort xs in
          let rank := smul q (of_int (Z.of_nat (length xs) - 1)) in
          let lo := nth (Z.to_nat (floor rank)) sorted SpecFloat.S754_nan in
          let hi := nth (Z.to_nat (ceiling rank)) sorted SpecFloat.S754_nan in
          let weight := ssub rank (of_int (floor rank)) in
          Ok (sadd lo (smul weight (ssub hi lo)))
      else Raise RuntimeError
  end.

(** [evaluate_preds] on tensors of 32-bit floats. *)
Definition evaluate_preds :=
  @Dtype.evaluate_preds float32 mean ssub sgt is_nan of_int quantile squash
                        AccuracyResult CalibrationEstimate RocAucResult
                        accuracy_ci roc_auc_ci calibration_error.

End Probe.

(** Two neighbouring floats above 1.5: [1.5 + 2 * 2^-23] and
    [1.5 + 3 * 2^-23]. *)
Definition just_above : float32 := of_scaled 12582914 (-23).
Definition next_above : float32 := of_scaled 12582915 (-23).

(** Two examples with one variant and two classes: the logit of class 1
    of the first example is the greater one by one unit in the last
    place. *)
Definition y_true2 : tensor Z := Tensor [2] [1; 0]%Z.

Definition logits212 : tensor float32 :=
  Tensor [2; 1; 2] [just_above; next_above; of_int 1; of_int 0].

(** Scenario 1 of the specification in 32-bit floats: four examples, one
    variant, two classes. *)
Definition logits412 : tensor float32 :=
  Tensor [4; 1; 2] (map of_int [2; -2; -2; 2; 2; -2; -2; 2]%Z).

End Float32.

(* ------------------------------------------------------------------ *)
(** ** Facts about the error monad and Python lists *)

Section MonadFacts.

Context {A B : Type}.

Lemma bind_ok_inv (m : result A) (k : A -> result B) (b : B) :
  bind m k = Ok b -> exists a, m = Ok a /\ k a = Ok b.
Proof.
  destruct m as [a | e]; simpl; intros H.
  - exists a; split; [reflexivity | assumption].
  - discriminate.
Qed.

Lemma mapM_app (f : A -> result B) (xs ys : list A) :
  mapM f (xs ++ ys) =
  bind (mapM f xs) (fun us => bind (mapM f ys) (fun vs => Ok (us ++ vs))).
Proof.
  induction xs as [| x xs IH]; simpl.
  - destruct (mapM f ys); reflexivity.
  - destruct (f x) as [y | e]; simpl; [| reflexivity].
    rewrite IH. destruct (mapM f xs) as [us | e]; simpl; [| reflexivity].
    destruct (mapM f ys); reflexivity.
Qed.

Lemma mapM_length (f : A -> result B) (xs : list A) (ys : list B) :
  mapM f xs = Ok ys -> length ys = length xs.
Proof.
  revert ys; induction xs as [| x xs IH]; simpl; intros ys H.
  - inversion H; reflexivity.
  - destruct (f x) as [y | e]; simpl in H; [| discriminate].
    destruct (mapM f xs) as [us | e]; simpl in H; [| discriminate].
    inversion H; subst; simpl. f_equal. apply IH; reflexivity.
Qed.

Lemma mapM_total (f : A -> result B) (g : A -> B) (xs : list A) :
  Forall (fun x => f x = Ok (g x)) xs -> mapM f xs = Ok (map g xs).
Proof.
  induction 1 as [| x xs Hx _ IH]; simpl.
  - reflexivity.
  - rewrite Hx; simpl. rewrite IH; reflexivity.
Qed.

End MonadFacts.

Lemma mapM_fmap {A B C} (f : A -> result B) (g : B -> C) (xs : list A) :
  mapM (fun x => fmap g (f x)) xs = fmap (map g) (mapM f xs).
Proof.
  induction xs as [| x xs IH]; simpl.
  - reflexivity.
  - destruct (f x) as [y | e]; simpl; [| reflexivity].
    rewrite IH. destruct (mapM f xs); reflexivity.
Qed.

Lemma getitem_nat {A} (xs : list A) (i : nat) :
  getitem xs (Z.of_nat i) =
  match nth_error xs i with Some x => Ok x | None => Raise IndexError end.
Proof.
  unfold getitem.
  destruct (Z.of_nat i <? 0)%Z eqn:Hneg; [apply Z.ltb_lt in Hneg; lia |].
  rewrite Nat2Z.id.
  destruct (nth_error xs i) as [x |] eqn:Hx.
  - assert (i < length xs) by (apply nth_error_Some; congruence).
    replace ((0 <=? Z.of_nat i) && (Z.of_nat i <? Z.of_nat (length xs)))%Z
      with true; [reflexivity |].
    symmetry; apply andb_true_iff; split;
      [apply Z.leb_le | apply Z.ltb_lt]; lia.
  - destruct ((0 <=? Z.of_nat i) && (Z.of_nat i <? Z.of_nat (length xs)))%Z;
      reflexivity.
Qed.

(* ------------------------------------------------------------------ *)
(** ** Facts about dictionaries and keys *)

Section DictFacts.

Context {V : Type}.

Lemma set_fresh (d : Dict.dict V) (k : string) (v : V) :
  ~ In k (Dict.keys d) -> Dict.set d k v = d ++ [(k, v)].
Proof.
  induction d as [| [k' v'] d IH]; simpl; intros Hk.
  - reflexivity.
  - destruct (String.eqb k k') eqn:E.
    + apply String.eqb_eq in E. exfalso; apply Hk; left; congruence.
    + rewrite IH; [reflexivity |]. intros Hin; apply Hk; right; exact Hin.
Qed.

Lemma update_fresh (items d : Dict.dict V) :
  NoDup (Dict.keys items) ->
  (forall k, In k (Dict.keys items) -> ~ In k (Dict.keys d)) ->
  Dict.update d items = d ++ items.
Proof.
  unfold Dict.update.
  revert d; induction items as [| [k v] items IH]; simpl; intros d Hnd Hfresh.
  - rewrite app_nil_r; reflexivity.
  - inversion Hnd as [| ? ? Hk Hnd']; subst.
    rewrite set_fresh by (apply Hfresh; left; reflexivity).
    rewrite IH; [rewrite <- app_assoc; reflexivity | assumption |].
    intros k' Hin Hin'. unfold Dict.keys in Hin'.
    rewrite map_app in Hin'. apply in_app_or in Hin' as [Hin' | Hin'].
    + apply (Hfresh k'); [right; exact Hin | exact Hin'].
    + simpl in Hin'. destruct Hin' as [<- | []]. apply Hk; exact Hin.
Qed.

Lemma of_items_nodup (items : Dict.dict V) :
  NoDup (Dict.keys items) -> Dict.of_items items = items.
Proof.
  intros Hnd. unfold Dict.of_items.
  rewrite update_fresh; [reflexivity | assumption |].
  intros k _ [].
Qed.

Lemma keys_set_NoDup (d : Dict.dict V) (k : string) (v : V) :
  NoDup (Dict.keys d) -> NoDup (Dict.keys (Dict.set d k v)).
Proof.
  intros Hnd.
  assert (Hkeys : forall d', In k (Dict.keys d') ->
                        Dict.keys (Dict.set d' k v) = Dict.keys d').
  { induction d' as [| [k' v'] d' IH]; simpl; intros Hin; [contradiction |].
    destruct (String.eqb k k') eqn:E; simpl; [reflexivity |].
    f_equal. apply IH. destruct Hin as [Heq | Hin]; [| exact Hin].
    apply String.eqb_neq in E. congruence. }
  destruct (in_dec string_dec k (Dict.keys d)) as [Hin | Hout].
  - rewrite Hkeys; assumption.
  - rewrite set_fresh by assumption.
    unfold Dict.keys in *. rewrite map_app; simpl.
    apply NoDup_app_remove_l with (l := []); simpl.
    apply Permutation_NoDup with (l := k :: map fst d).
    + apply Permutation_cons_append.
    + constructor; assumption.
Qed.

Lemma keys_update_NoDup (items d : Dict.dict V) :
  NoDup (Dict.keys d) -> NoDup (Dict.keys (Dict.update d items)).
Proof.
  unfold Dict.update.
  revert d; induction items as [| [k v] items IH]; simpl; intros d Hnd.
  - assumption.
  - apply IH. apply keys_set_NoDup; assumption.
Qed.

Lemma keys_of_items_NoDup (items : list (string * V)) :
  NoDup (Dict.keys (Dict.of_items items)).
Proof.
  apply keys_update_NoDup. constructor.
Qed.

End DictFacts.

Lemma append_inj_l (p a b : string) :
  (p ++ a)%string = (p ++ b)%string -> a = b.
Proof.
  induction p as [| c p IH]; simpl; intros H.
  - exact H.
  - apply IH. congruence.
Qed.

Lemma keys_prefixed (prefix tag : string) (d : Dict.dict scalar) :
  Dict.keys (prefixed prefix tag d) =
  map (fun k => (prefix ++ tag ++ k)%string) (Dict.keys d).
Proof.
  unfold prefixed, Dict.keys. rewrite !map_map. reflexivity.
Qed.

Lemma keys_prefixed_NoDup (prefix tag : string) (d : Dict.dict scalar) :
  NoDup (Dict.keys d) -> NoDup (Dict.keys (prefixed prefix tag d)).
Proof.
  rewrite keys_prefixed.
  induction 1 as [| k ks Hk _ IH]; simpl; constructor; [| exact IH].
  intros Hin. apply in_map_iff in Hin as (k' & Heq & Hin').
  apply append_inj_l, append_inj_l in Heq. subst. contradiction.
Qed.

(** Keys built with two of the tags [auroc_], [cal_acc_], [acc_], [ece]
    differ, whatever the prefix and the field names. *)
Ltac tag_clash :=
  let H := fresh in
  intros H; apply append_inj_l in H; simpl in H; congruence.

Lemma auroc_not_cal_acc p x y :
  (p ++ "auroc_" ++ x)%string <> (p ++ "cal_acc_" ++ y)%string.
Proof. tag_clash. Qed.

Lemma auroc_not_acc p x y :
  (p ++ "auroc_" ++ x)%string <> (p ++ "acc_" ++ y)%string.
Proof. tag_clash. Qed.

Lemma cal_acc_not_acc p x y :
  (p ++ "cal_acc_" ++ x)%string <> (p ++ "acc_" ++ y)%string.
Proof. tag_clash. Qed.

Lemma auroc_not_ece p x :
  (p ++ "auroc_" ++ x)%string <> (p ++ "ece")%string.
Proof. tag_clash. Qed.

Lemma cal_acc_not_ece p x :
  (p ++ "cal_acc_" ++ x)%string <> (p ++ "ece")%string.
Proof. tag_clash. Qed.

Lemma acc_not_ece p x :
  (p ++ "acc_" ++ x)%string <> (p ++ "ece")%string.
Proof. tag_clash. Qed.

(* ------------------------------------------------------------------ *)
(** ** The flat mapping of an [EvalResult] *)

Section ToDict.

Variables AccuracyResult CalibrationEstimate RocAucResult : Type.
Variable fields_AccuracyResult : AccuracyResult -> list (string * scalar).
Variable fields_RocAucResult : RocAucResult -> list (string * scalar).
Variable ece : CalibrationEstimate -> scalar.

Let Result :=
  EvalResult AccuracyResult CalibrationEstimate RocAucResult.
Let asdict_acc :=
  asdict_AccuracyResult fields_AccuracyResult.
Let asdict_roc :=
  asdict_RocAucResult fields_RocAucResult.

Lemma keys_app (d1 d2 : Dict.dict scalar) :
  Dict.keys (d1 ++ d2) = Dict.keys d1 ++ Dict.keys d2.
Proof. apply map_app. Qed.

Lemma in_keys_prefixed prefix tag (d : Dict.dict scalar) k :
  In k (Dict.keys (prefixed prefix tag d)) ->
  exists x, k = (prefix ++ tag ++ x)%string.
Proof.
  rewrite keys_prefixed. intros Hin.
  apply in_map_iff in Hin as (x & <- & _). exists x; reflexivity.
Qed.

Lemma of_items_prefixed_asdict_acc prefix tag a :
  Dict.of_items (prefixed prefix tag (asdict_acc a)) =
  prefixed prefix tag (asdict_acc a).
Proof.
  apply of_items_nodup, keys_prefixed_NoDup, keys_of_items_NoDup.
Qed.

Lemma of_items_prefixed_asdict_roc prefix tag a :
  Dict.of_items (prefixed prefix tag (asdict_roc a)) =
  prefixed prefix tag (asdict_roc a).
Proof.
  apply of_items_nodup, keys_prefixed_NoDup, keys_of_items_NoDup.
Qed.

(** The items of [to_dict], group after group. *)
Lemma to_dict_items (self : Result) (prefix : string) :
  to_dict fields_AccuracyResult fields_RocAucResult ece self prefix =
  prefixed prefix "auroc_" (asdict_roc (roc_auc self))
  ++ match cal_accuracy self with
     | Some c => prefixed prefix "cal_acc_" (asdict_acc c)
     | None => []
     end
  ++ prefixed prefix "acc_" (asdict_acc (accuracy self))
  ++ match calibration self with
     | Some c => [((prefix ++ "ece")%string, ece c)]
     | None => []
     end.
Proof.
  unfold to_dict, Dict.merge. simpl fold_left.
  fold asdict_acc asdict_roc.
  rewrite of_items_prefixed_asdict_roc, of_items_prefixed_asdict_acc.
  set (A := prefixed prefix "auroc_" (asdict_roc (roc_auc self))).
  set (C := prefixed prefix "acc_" (asdict_acc (accuracy self))).
  assert (HA : Dict.update [] A = A).
  { rewrite update_fresh; [reflexivity | |].
    - apply keys_prefixed_NoDup, keys_of_items_NoDup.
    - intros k _ []. }
  rewrite HA.
  set (B := match cal_accuracy self with
            | Some c => Dict.of_items (prefixed prefix "cal_acc_" (asdict_acc c))
            | None => []
            end).
  assert (HB : B = match cal_accuracy self with
                   | Some c => prefixed prefix "cal_acc_" (asdict_acc c)
                   | None => []
                   end).
  { subst B. destruct (cal_accuracy self);
      [apply of_items_prefixed_asdict_acc | reflexivity]. }
  rewrite HB; clear HB B.
  set (B := match cal_accuracy self with
            | Some c => prefixed prefix "cal_acc_" (asdict_acc c)
            | None => []
            end).
  assert (HBk : forall k, In k (Dict.keys B) ->
                          exists x, k = (prefix ++ "cal_acc_" ++ x)%string).
  { subst B. destruct (cal_accuracy self); [apply in_keys_prefixed |].
    intros k []. }
  assert (HBn : NoDup (Dict.keys B)).
  { subst B. destruct (cal_accuracy self); [| constructor].
    apply keys_prefixed_NoDup, keys_of_items_NoDup. }
  set (D := match calibration self with
            | Some c => Dict.of_items [((prefix ++ "ece")%string, ece c)]
            | None => []
            end).
  assert (HD : D = match calibration self with
                   | Some c => [((prefix ++ "ece")%string, ece c)]
                   | None => []
                   end).
  { subst D. destruct (calibration self); reflexivity. }
  rewrite HD; clear HD D.
  set (D := match calibration self with
            | Some c => [((prefix ++ "ece")%string, ece c)]
            | None => []
            end).
  assert (HDk : forall k, In k (Dict.keys D) -> k = (prefix ++ "ece")%string).
  { subst D. destruct (calibration self); simpl; intros k Hin;
      [destruct Hin as [<- | []]; reflexivity | contradiction]. }
  assert (HDn : NoDup (Dict.keys D)).
  { subst D. destruct (calibration self); simpl; repeat constructor.
    intros []. }
  change (Dict.update (Dict.update (Dict.update A B) C) D = A ++ B ++ C ++ D).
  rewrite (update_fresh B A); [| exact HBn |].
  2:{ intros k Hk Hin. apply HBk in Hk as (x & ->).
      apply in_keys_prefixed in Hin as (y & Hy).
      symmetry in Hy. revert Hy. apply auroc_not_cal_acc. }
  rewrite (update_fresh C (A ++ B)).
  2:{ apply keys_prefixed_NoDup, keys_of_items_NoDup. }
  2:{ intros k Hk Hin. apply in_keys_prefixed in Hk as (x & ->).
      unfold Dict.keys in Hin. rewrite map_app in Hin.
      apply in_app_or in Hin as [Hin | Hin].
      - apply in_keys_prefixed in Hin as (y & Hy).
        symmetry in Hy. revert Hy. apply auroc_not_acc.
      - apply HBk in Hin as (y & Hy).
        symmetry in Hy. revert Hy. apply cal_acc_not_acc. }
  rewrite (update_fresh D ((A ++ B) ++ C)); [| exact HDn |].
  2:{ intros k Hk Hin. apply HDk in Hk as ->.
      unfold Dict.keys in Hin. rewrite !map_app in Hin.
      apply in_app_or in Hin as [Hin | Hin];
        [apply in_app_or in Hin as [Hin | Hin] |].
      - apply in_keys_prefixed in Hin as (y & Hy).
        symmetry in Hy. revert Hy. apply auroc_not_ece.
      - apply HBk in Hin as (y & Hy).
        symmetry in Hy. revert Hy. apply cal_acc_not_ece.
      - apply in_keys_prefixed in Hin as (y & Hy).
        symmetry in Hy. revert Hy. apply acc_not_ece. }
  rewrite <- !app_assoc. reflexivity.
Qed.

Lemma keys_to_dict (self : Result) (prefix : string) :
  Dict.keys (to_dict fields_AccuracyResult fields_RocAucResult ece self prefix) =
  Dict.keys (prefixed prefix "auroc_" (asdict_roc (roc_auc self)))
  ++ Dict.keys match cal_accuracy self with
               | Some c => prefixed prefix "cal_acc_" (asdict_acc c)
               | None => []
               end
  ++ Dict.keys (prefixed prefix "acc_" (asdict_acc (accuracy self)))
  ++ Dict.keys match calibration self with
               | Some c => [((prefix ++ "ece")%string, ece c)]
               | None => []
               end.
Proof. rewrite to_dict_items, !keys_app. reflexivity. Qed.

(** C6. For every [EvalResult] and prefix, the keys of [to_dict] come in
    the order: the AUROC fields, then the calibrated-accuracy fields (when
    present), then the accuracy fields, then the calibration key (when
    present); each key is the prefix, the metric tag and the field
    name. *)
Theorem to_dict_key_order (self : Result) (prefix : string) :
  Dict.keys (to_dict fields_AccuracyResult fields_RocAucResult ece self prefix) =
  map (fun k => (prefix ++ "auroc_" ++ k)%string)
      (Dict.keys (asdict_RocAucResult fields_RocAucResult (roc_auc self)))
  ++ match cal_accuracy self with
     | Some c => map (fun k => (prefix ++ "cal_acc_" ++ k)%string)
                     (Dict.keys (asdict_AccuracyResult fields_AccuracyResult c))
     | None => []
     end
  ++ map (fun k => (prefix ++ "acc_" ++ k)%string)
         (Dict.keys (asdict_AccuracyResult fields_AccuracyResult (accuracy self)))
  ++ match calibration self with
     | Some _ => [(prefix ++ "ece")%string]
     | None => []
     end.
Proof.
  rewrite keys_to_dict, !keys_prefixed.
  destruct (cal_accuracy self), (calibration self);
    rewrite ?keys_prefixed; reflexivity.
Qed.

End ToDict.

(* ------------------------------------------------------------------ *)
(** ** The evaluation results *)

Ltac bind_inv H :=
  repeat first
    [ apply bind_ok_inv in H as (? & ? & H)
    | progress unfold fmap in H ].

Ltac ok_inv :=
  repeat match goal with
  | H : Ok _ = Ok _ |- _ => injection H as H; try subst
  end.

Section EvalFacts.

Variables AccuracyResult CalibrationEstimate RocAucResult : Type.
Variable fields_AccuracyResult : AccuracyResult -> list (string * scalar).
Variable fields_RocAucResult : RocAucResult -> list (string * scalar).
Variable ece : CalibrationEstimate -> scalar.
Variable accuracy_ci : tensor Z -> tensor Z -> result AccuracyResult.
Variable roc_auc_ci : tensor Z -> tensor scalar -> result RocAucResult.
Variable calibration_error :
  tensor Z -> tensor scalar -> result CalibrationEstimate.
Variable sigmoid : scalar -> scalar.

Let Result :=
  EvalResult AccuracyResult CalibrationEstimate RocAucResult.
Let eval_results :=
  calc_eval_results accuracy_ci roc_auc_ci calibration_error sigmoid.
Let flat_mapping :=
  to_dict fields_AccuracyResult fields_RocAucResult ece.

Lemma calc_eval_results_fields y_true y_logits ensembling num_classes
      (r : Result) :
  eval_results y_true y_logits ensembling num_classes = Ok r ->
  if num_classes =? 2
  then (exists a, cal_accuracy r = Some a) /\ (exists c, calibration r = Some c)
  else cal_accuracy r = None /\ calibration r = None.
Proof.
  unfold eval_results, calc_eval_results. intros H.
  destruct (num_classes =? 2); bind_inv H;
    repeat match goal with
    | H' : fmap _ _ = Ok _ |- _ => bind_inv H'
    end; ok_inv; simpl; eauto.
Qed.

(** C5. In the [EvalResult] that [calc_eval_results] returns, the fields
    [cal_accuracy] and [calibration] are present exactly when the number
    of classes is 2; for another number of classes both are [None], and
    [to_dict] has no [cal_acc_] key and no [ece] key at all, while for two
    classes it has the [ece] key and every calibrated-accuracy key. *)
Theorem cal_fields_iff_binary y_true y_logits ensembling num_classes
        (r : Result) :
  eval_results y_true y_logits ensembling num_classes = Ok r ->
  (cal_accuracy r <> None <-> num_classes = 2) /\
  (calibration r <> None <-> num_classes = 2) /\
  (num_classes <> 2 ->
   forall prefix,
     (forall x, ~ In (prefix ++ "cal_acc_" ++ x)%string
                     (Dict.keys (flat_mapping r prefix))) /\
     ~ In (prefix ++ "ece")%string (Dict.keys (flat_mapping r prefix))) /\
  (num_classes = 2 ->
   forall prefix,
     In (prefix ++ "ece")%string (Dict.keys (flat_mapping r prefix)) /\
     exists a,
       cal_accuracy r = Some a /\
       incl (map (fun k => (prefix ++ "cal_acc_" ++ k)%string)
                 (Dict.keys (asdict_AccuracyResult fields_AccuracyResult a)))
            (Dict.keys (flat_mapping r prefix))).
Proof.
  intros H. apply calc_eval_results_fields in H.
  destruct (num_classes =? 2) eqn:Hk.
  - apply Nat.eqb_eq in Hk. destruct H as [[a Ha] [c Hc]].
    split; [split; congruence |].
    split; [split; congruence |].
    split; [intros Hne; contradiction |].
    intros _ prefix. split.
    + unfold flat_mapping. rewrite keys_to_dict, Hc.
      repeat (apply in_or_app; right). left; reflexivity.
    + exists a; split; [exact Ha |].
      unfold flat_mapping. rewrite keys_to_dict, Ha, !keys_prefixed.
      intros k Hin. apply in_or_app; right. apply in_or_app; left. exact Hin.
  - apply Nat.eqb_neq in Hk. destruct H as [Ha Hc].
    split; [split; [intros Hn; contradiction | intros Hn; contradiction] |].
    split; [split; [intros Hn; contradiction | intros Hn; contradiction] |].
    split; [| intros Hn; contradiction].
    intros _ prefix.
    assert (Hkeys : Dict.keys (flat_mapping r prefix) =
                    map (fun k => (prefix ++ "auroc_" ++ k)%string)
                        (Dict.keys (asdict_RocAucResult fields_RocAucResult
                                                        (roc_auc r)))
                    ++ map (fun k => (prefix ++ "acc_" ++ k)%string)
                           (Dict.keys (asdict_AccuracyResult
                                         fields_AccuracyResult (accuracy r)))).
    { unfold flat_mapping. rewrite keys_to_dict, Ha, Hc, !keys_prefixed.
      simpl. rewrite app_nil_r. reflexivity. }
    rewrite Hkeys. split.
    + intros x Hin.
      apply in_app_or in Hin as [Hin | Hin];
        apply in_map_iff in Hin as (y & Hy & _); revert Hy.
      * apply auroc_not_cal_acc.
      * intros Hy; symmetry in Hy; revert Hy. apply cal_acc_not_acc.
    + intros Hin.
      apply in_app_or in Hin as [Hin | Hin];
        apply in_map_iff in Hin as (y & Hy & _); revert Hy.
      * apply auroc_not_ece.
      * apply acc_not_ece.
Qed.

End EvalFacts.

(* ------------------------------------------------------------------ *)
(** ** Row-major buffers *)

Section Rows.

Context {A : Type}.

Lemma rows_S (m k : nat) (xs : list A) :
  rows (S m) k xs = firstn k xs :: rows m k (skipn k xs).
Proof.
  unfold rows. rewrite <- cons_seq, <- seq_shift. simpl.
  f_equal. rewrite map_map. apply map_ext. intros i.
  rewrite skipn_skipn. do 2 f_equal. lia.
Qed.

Lemma rows_length (m k : nat) (xs : list A) : length (rows m k xs) = m.
Proof. unfold rows. rewrite length_map, length_seq. reflexivity. Qed.

Lemma rows_concat (k : nat) (blocks : list (list A)) :
  Forall (fun b => length b = k) blocks ->
  rows (length blocks) k (concat blocks) = blocks.
Proof.
  induction 1 as [| b blocks Hb _ IH]; simpl.
  - reflexivity.
  - rewrite rows_S. subst k.
    rewrite firstn_app, Nat.sub_diag, firstn_all. simpl. rewrite app_nil_r.
    rewrite skipn_app, Nat.sub_diag, skipn_all. simpl.
    rewrite IH. reflexivity.
Qed.

Lemma concat_rows (m k : nat) (xs : list A) :
  length xs = m * k -> concat (rows m k xs) = xs.
Proof.
  revert xs; induction m as [| m IH]; intros xs Hlen.
  - destruct xs; [reflexivity | discriminate].
  - rewrite rows_S. simpl. rewrite IH.
    + apply firstn_skipn.
    + rewrite length_skipn. simpl in Hlen. lia.
Qed.

Lemma rows_each_length (m k : nat) (xs : list A) :
  length xs = m * k -> Forall (fun b => length b = k) (rows m k xs).
Proof.
  revert xs; induction m as [| m IH]; intros xs Hlen.
  - constructor.
  - rewrite rows_S. constructor.
    + rewrite length_firstn. simpl in Hlen. lia.
    + apply IH. rewrite length_skipn. simpl in Hlen. lia.
Qed.

Lemma column_repeat (r v : nat) (row : list A) (x : A) :
  nth_error row r = Some x -> column r (repeat row v) = repeat x v.
Proof.
  intros Hx. unfold column.
  induction v as [| v IH]; simpl; [reflexivity |].
  rewrite Hx, IH. reflexivity.
Qed.

Lemma map_seq_from (row : list A) (g : nat -> A) (start : nat) :
  (forall r x, nth_error row r = Some x -> g (start + r) = x) ->
  map g (seq start (length row)) = row.
Proof.
  revert start; induction row as [| y row IH]; intros start Hg; simpl.
  - reflexivity.
  - f_equal.
    + rewrite <- (Hg 0 y eq_refl). f_equal. lia.
    + apply IH. intros r x Hr.
      rewrite <- (Hg (S r) x Hr). f_equal. lia.
Qed.

Lemma map_seq_nth_error (row : list A) (g : nat -> A) :
  (forall r x, nth_error row r = Some x -> g r = x) ->
  map g (seq 0 (length row)) = row.
Proof. intros Hg. apply map_seq_from. exact Hg. Qed.

End Rows.

Lemma numel_app (s1 s2 : list nat) :
  numel (s1 ++ s2) = numel s1 * numel s2.
Proof.
  induction s1 as [| d s1 IH]; simpl.
  - lia.
  - rewrite IH. lia.
Qed.

(* ------------------------------------------------------------------ *)
(** ** Means of equal elements *)

Lemma Qc_of_Z_add (a b : Z) :
  Qc_of_Z (a + b) = (Qc_of_Z a + Qc_of_Z b)%Qc.
Proof.
  unfold Qc_of_Z, Qcplus. apply Q2Qc_eq_iff. cbn [this Q2Qc].
  rewrite !Qred_correct, inject_Z_plus. reflexivity.
Qed.

Lemma Qc_of_Z_nonzero (z : Z) : z <> 0%Z -> Qc_of_Z z <> 0%Qc.
Proof.
  intros Hz Heq. unfold Qc_of_Z in Heq.
  change 0%Qc with (Q2Qc 0) in Heq.
  apply Q2Qc_eq_iff in Heq.
  unfold Qeq in Heq. simpl in Heq. lia.
Qed.

Lemma ssum_repeat_fin (q : Qc) (n : nat) :
  ssum (repeat (Fin q) n) = Fin (Qc_of_Z (Z.of_nat n) * q)%Qc.
Proof.
  induction n as [| n IH].
  - simpl. f_equal. change (Qc_of_Z 0) with 0%Qc. ring.
  - change (ssum (repeat (Fin q) (S n)))
      with (sadd (Fin q) (ssum (repeat (Fin q) n))).
    rewrite IH. simpl sadd. f_equal.
    replace (Z.of_nat (S n)) with (1 + Z.of_nat n)%Z by lia.
    rewrite Qc_of_Z_add. change (Qc_of_Z 1) with 1%Qc. ring.
Qed.

Lemma mean_repeat (x : scalar) (v : nat) :
  1 <= v -> mean (repeat x v) = x.
Proof.
  intros Hv. unfold mean. rewrite repeat_length.
  destruct v as [| v]; [lia |].
  destruct x as [| q].
  - reflexivity.
  - rewrite ssum_repeat_fin. unfold sdiv_nat. f_equal.
    fold (Qc_of_Z (Z.of_nat (S v))).
    rewrite Qcmult_comm. apply Qcdiv_mult_l.
    apply Qc_of_Z_nonzero. lia.
Qed.

(* ------------------------------------------------------------------ *)
(** ** Averaging identical variants *)

Lemma length_concat_repeat {A} (row : list A) (v : nat) :
  length (concat (repeat row v)) = v * length row.
Proof.
  induction v as [| v IH]; simpl; [reflexivity |].
  rewrite length_app, IH. reflexivity.
Qed.

Lemma mean_columns_of_copies (row : list scalar) (v : nat) :
  1 <= v ->
  map (fun r => mean (column r (rows v (length row) (concat (repeat row v)))))
      (seq 0 (length row)) = row.
Proof.
  intros Hv.
  assert (E : rows v (length row) (concat (repeat row v)) = repeat row v).
  { pose proof (@rows_concat _ (length row) (repeat row v)) as E.
    rewrite repeat_length in E. apply E.
    apply Forall_forall. intros b Hb. apply repeat_spec in Hb. congruence. }
  rewrite E. apply map_seq_nth_error. intros r x Hr.
  rewrite (@column_repeat _ r v row x Hr). apply mean_repeat; exact Hv.
Qed.

Lemma mean_dim_1_repeat_variants (t : tensor scalar) (n k v : nat) :
  shape t = [n; 1; k] -> wf t -> 1 <= v ->
  mean_dim 1 (Spec.repeat_variants v t) = Ok (Tensor [n; k] (data t)).
Proof.
  intros Hs Hwf Hv. unfold Spec.repeat_variants. rewrite Hs.
  assert (Hlen : length (data t) = n * k).
  { unfold wf in Hwf. rewrite Hs in Hwf. simpl in Hwf. lia. }
  unfold mean_dim. simpl. rewrite !Nat.mul_1_r.
  do 2 f_equal.
  pose proof (@rows_each_length _ n k (data t) Hlen) as HR.
  set (R := rows n k (data t)) in *.
  rewrite (flat_map_concat_map (fun row => concat (repeat row v)) R).
  replace n with (length (map (fun row => concat (repeat row v)) R)) at 1
    by (rewrite length_map; apply rows_length).
  rewrite rows_concat.
  2:{ apply Forall_map. eapply Forall_impl; [| exact HR].
      intros b Hb. simpl. rewrite length_concat_repeat, Hb. reflexivity. }
  rewrite flat_map_concat_map, map_map.
  transitivity (concat R); [| apply concat_rows; exact Hlen]. f_equal.
  transitivity (map (fun row => row) R); [| apply map_id].
  apply map_ext_in. intros row Hin.
  rewrite Forall_forall in HR. specialize (HR row Hin). subst k.
  apply mean_columns_of_copies; exact Hv.
Qed.

Lemma repeat_variants_1 (t : tensor scalar) (n k : nat) :
  shape t = [n; 1; k] -> wf t -> Spec.repeat_variants 1 t = t.
Proof.
  intros Hs Hwf. unfold Spec.repeat_variants. rewrite Hs.
  assert (Hlen : length (data t) = n * k).
  { unfold wf in Hwf. rewrite Hs in Hwf. simpl in Hwf. lia. }
  destruct t as [s d]. simpl in *. subst s. f_equal.
  rewrite flat_map_concat_map.
  transitivity (concat (rows n k d)); [| apply concat_rows; exact Hlen].
  f_equal.
  transitivity (map (fun row => row) (rows n k d)); [| apply map_id].
  apply map_ext. intros row. simpl. apply app_nil_r.
Qed.

Section FullEnsembling.

Variables AccuracyResult CalibrationEstimate RocAucResult : Type.
Variable accuracy_ci : tensor Z -> tensor Z -> result AccuracyResult.
Variable roc_auc_ci : tensor Z -> tensor scalar -> result RocAucResult.
Variable calibration_error :
  tensor Z -> tensor scalar -> result CalibrationEstimate.
Variable sigmoid : scalar -> scalar.

Let evaluate :=
  evaluate_preds accuracy_ci roc_auc_ci calibration_error sigmoid.

(** In exact arithmetic the mean of [v] equal elements is that element:
    for a ground truth and logits of shape [(n, 1, k)], repeating the
    single variant of every example [v >= 1] times leaves the result of
    [evaluate_preds] in mode [full] unchanged. The tensors of the code
    hold floats, whose mean rounds: the next section states what holds
    of them. *)
Theorem full_ensembling_of_identical_variants
        (y_true : tensor Z) (y_logits : tensor scalar) (n k v : nat) :
  shape y_logits = [n; 1; k] -> wf y_logits -> 1 <= v ->
  evaluate y_true (Spec.repeat_variants v y_logits) "full" =
  evaluate y_true y_logits "full".
Proof.
  intros Hs Hwf Hv.
  assert (Hone : mean_dim 1 y_logits = Ok (Tensor [n; k] (data y_logits))).
  { rewrite <- (@repeat_variants_1 y_logits n k Hs Hwf) at 1.
    apply mean_dim_1_repeat_variants; [exact Hs | exact Hwf | lia]. }
  pose proof (@mean_dim_1_repeat_variants y_logits n k v Hs Hwf Hv) as Hmany.
  unfold evaluate, evaluate_preds.
  rewrite Hmany, Hone, Hs.
  unfold Spec.repeat_variants. rewrite Hs. reflexivity.
Qed.

End FullEnsembling.

(* ------------------------------------------------------------------ *)
(** ** Averaging identical variants in the element type *)

Section TypedEnsembling.

Variable E : Type.
Variable mean : list E -> E.
Variable ssub : E -> E -> E.
Variable sgt : E -> E -> bool.
Variable is_nan : E -> bool.
Variable of_int : Z -> E.
Variable quantile : list E -> E -> result E.
Variable sigmoid : E -> E.
Variables AccuracyResult CalibrationEstimate RocAucResult : Type.
Variable accuracy_ci : tensor Z -> tensor Z -> result AccuracyResult.
Variable roc_auc_ci : tensor Z -> tensor E -> result RocAucResult.
Variable calibration_error : tensor Z -> tensor E -> result CalibrationEstimate.

Let evaluate :=
  Dtype.evaluate_preds mean ssub sgt is_nan of_int quantile sigmoid
                       accuracy_ci roc_auc_ci calibration_error.
Let eval_results :=
  Dtype.calc_eval_results mean ssub sgt is_nan of_int quantile sigmoid
                          accuracy_ci roc_auc_ci calibration_error.

Lemma map_seq_nth_error_map (row : list E) (f : E -> E) (g : nat -> E) :
  (forall r x, nth_error row r = Some x -> g r = f x) ->
  map g (seq 0 (length row)) = map f row.
Proof.
  intros Hg.
  rewrite <- (length_map f row).
  apply map_seq_nth_error. intros r y Hy.
  rewrite nth_error_map in Hy.
  destruct (nth_error row r) as [x |] eqn:Hx; [| discriminate].
  injection Hy as <-. apply Hg. exact Hx.
Qed.

(** Over [v] copies of a row, the mean of column [r] is the mean of [v]
    copies of the element [r] of the row. *)
Lemma typed_mean_columns_of_copies (row : list E) (v : nat) :
  map (fun r => mean (column r (rows v (length row) (concat (repeat row v)))))
      (seq 0 (length row)) =
  map (fun x => mean (repeat x v)) row.
Proof.
  assert (Hrows : rows v (length row) (concat (repeat row v)) = repeat row v).
  { pose proof (@rows_concat _ (length row) (repeat row v)) as Hc.
    rewrite repeat_length in Hc. apply Hc.
    apply Forall_forall. intros b Hb. apply repeat_spec in Hb. congruence. }
  rewrite Hrows. apply map_seq_nth_error_map. intros r x Hr.
  rewrite (@column_repeat _ r v row x Hr). reflexivity.
Qed.

(** [mean(dim=1)] of [v] identical variants: every element of the
    result is the mean of [v] copies of a logit. *)
Lemma typed_mean_dim_1_repeat_variants (t : tensor E) (n k v : nat) :
  shape t = [n; 1; k] -> wf t ->
  Dtype.mean_dim mean 1 (Spec.repeat_variants v t) =
  Ok (Tensor [n; k] (map (fun x => mean (repeat x v)) (data t))).
Proof.
  intros Hs Hwf. unfold Spec.repeat_variants. rewrite Hs.
  assert (Hlen : length (data t) = n * k).
  { unfold wf in Hwf. rewrite Hs in Hwf. simpl in Hwf. lia. }
  unfold Dtype.mean_dim. simpl. rewrite !Nat.mul_1_r.
  do 2 f_equal.
  pose proof (@rows_each_length _ n k (data t) Hlen) as HR.
  set (R := rows n k (data t)) in *.
  rewrite (flat_map_concat_map (fun row => concat (repeat row v)) R).
  replace n with (length (map (fun row => concat (repeat row v)) R)) at 1
    by (rewrite length_map; apply rows_length).
  rewrite rows_concat.
  2:{ apply Forall_map. eapply Forall_impl; [| exact HR].
      intros b Hb. simpl. rewrite length_concat_repeat, Hb. reflexivity. }
  rewrite flat_map_concat_map, map_map.
  transitivity (map (fun x => mean (repeat x v)) (concat R));
    [| unfold R; rewrite concat_rows by exact Hlen; reflexivity].
  rewrite concat_map. f_equal.
  apply map_ext_in. intros row Hin.
  rewrite Forall_forall in HR. specialize (HR row Hin). subst k.
  apply typed_mean_columns_of_copies.
Qed.

Lemma typed_repeat_variants_1 (t : tensor E) (n k : nat) :
  shape t = [n; 1; k] -> wf t -> Spec.repeat_variants 1 t = t.
Proof.
  intros Hs Hwf. unfold Spec.repeat_variants. rewrite Hs.
  assert (Hlen : length (data t) = n * k).
  { unfold wf in Hwf. rewrite Hs in Hwf. simpl in Hwf. lia. }
  destruct t as [s d]. simpl in *. subst s. f_equal.
  rewrite flat_map_concat_map.
  transitivity (concat (rows n k d)); [| apply concat_rows; exact Hlen].
  f_equal.
  transitivity (map (fun row => row) (rows n k d)); [| apply map_id].
  apply map_ext. intros row. simpl. apply app_nil_r.
Qed.

(** C9, amended. For a ground truth and logits of shape [(n, 1, k)]
    repeated into [v] identical variants, [evaluate_preds] in mode [full]
    scores, in place of each logit, the mean of its [v] copies, taken in
    the element type of the tensor; whenever each of these means is the
    mean of the single copy, the result is the result on the original
    logits. *)
Theorem full_ensembling_of_copies_with_exact_means
        (y_true : tensor Z) (y_logits : tensor E) (n k v : nat) :
  shape y_logits = [n; 1; k] -> wf y_logits ->
  evaluate y_true (Spec.repeat_variants v y_logits) "full" =
    (if shape_eqb (shape y_true) [n]
     then eval_results
            y_true
            (Tensor [n; k] (map (fun x => mean (repeat x v)) (data y_logits)))
            "full" k
     else Raise AssertionError) /\
  (Forall (fun x => mean (repeat x v) = mean [x]) (data y_logits) ->
   evaluate y_true (Spec.repeat_variants v y_logits) "full" =
   evaluate y_true y_logits "full").
Proof.
  intros Hs Hwf.
  assert (Hone : Dtype.mean_dim mean 1 y_logits =
                 Ok (Tensor [n; k] (map (fun x => mean [x]) (data y_logits)))).
  { rewrite <- (@typed_repeat_variants_1 y_logits n k Hs Hwf) at 1.
    apply typed_mean_dim_1_repeat_variants; assumption. }
  pose proof (@typed_mean_dim_1_repeat_variants y_logits n k v Hs Hwf) as Hmany.
  assert (Hshape : shape (Spec.repeat_variants v y_logits) = [n; v; k]).
  { unfold Spec.repeat_variants. rewrite Hs. reflexivity. }
  split.
  - unfold evaluate, Dtype.evaluate_preds.
    rewrite Hshape, Hmany. reflexivity.
  - intros Hexact.
    assert (Hsame : map (fun x => mean (repeat x v)) (data y_logits) =
                    map (fun x => mean [x]) (data y_logits)).
    { apply map_ext_in. intros x Hx.
      rewrite Forall_forall in Hexact. apply Hexact. exact Hx. }
    unfold evaluate, Dtype.evaluate_preds.
    rewrite Hshape, Hmany, Hone, Hs, Hsame. reflexivity.
Qed.

End TypedEnsembling.

(** The metrics above are the instance of the typed ones at exact
    rationals. *)
Lemma evaluate_preds_is_exact_instance
      (AccuracyResult CalibrationEstimate RocAucResult : Type)
      (accuracy_ci : tensor Z -> tensor Z -> result AccuracyResult)
      (roc_auc_ci : tensor Z -> tensor scalar -> result RocAucResult)
      (calibration_error :
         tensor Z -> tensor scalar -> result CalibrationEstimate)
      (sigmoid : scalar -> scalar) :
  Dtype.evaluate_preds mean ssub sgt is_nan of_int quantile sigmoid
                       accuracy_ci roc_auc_ci calibration_error =
  evaluate_preds accuracy_ci roc_auc_ci calibration_error sigmoid.
Proof. reflexivity. Qed.

(** In 32-bit floats the mean of three copies of [1.5 + 2 * 2^-23] is
    its neighbour [1.5 + 3 * 2^-23]: the sum [4.5 + 6 * 2^-23] lies
    halfway between two floats and rounds to [4.5 + 8 * 2^-23], whose
    third rounds up. The order of the additions does not matter. *)
Lemma mean_of_three_copies_rounds :
  Float32.mean (repeat Float32.just_above 3) = Float32.next_above /\
  Float32.mean (repeat Float32.next_above 3) = Float32.next_above /\
  Float32.mean [Float32.just_above] = Float32.just_above /\
  Float32.sadd Float32.just_above
               (Float32.sadd Float32.just_above Float32.just_above) =
  Float32.sadd (Float32.sadd Float32.just_above Float32.just_above)
               Float32.just_above.
Proof. repeat split; vm_compute; reflexivity. Qed.

(** C9 as stated fails in 32-bit floats: for two examples whose first has
    the logits [1.5 + 2 * 2^-23] and [1.5 + 3 * 2^-23], [evaluate_preds]
    in mode [full] predicts the classes 1 and 0 on the single variant
    and the classes 0 and 0 on three identical variants, whose means are
    equal. *)
Lemma full_ensembling_rounds_in_float32 :
  (exists r,
      Float32.Probe.evaluate_preds Float32.y_true2 Float32.logits212 "full"
      = Ok r /\
      snd (accuracy r) = Tensor [2] [1; 0]%Z) /\
  (exists r,
      Float32.Probe.evaluate_preds
        Float32.y_true2 (Spec.repeat_variants 3 Float32.logits212) "full"
      = Ok r /\
      snd (accuracy r) = Tensor [2] [0; 0]%Z) /\
  Float32.Probe.evaluate_preds
    Float32.y_true2 (Spec.repeat_variants 3 Float32.logits212) "full" <>
  Float32.Probe.evaluate_preds Float32.y_true2 Float32.logits212 "full".
Proof.
  split; [eexists; split; vm_compute; reflexivity |].
  split; [eexists; split; vm_compute; reflexivity |].
  vm_compute. discriminate.
Qed.

(* ------------------------------------------------------------------ *)
(** ** AUROC *)

Lemma signed_scores_of_pairs (R : list (list scalar)) :
  Forall (fun b => length b = 2) R ->
  map (fun p => ssub (fst p) (snd p)) (combine (column 1 R) (column 0 R)) =
  map Spec.signed_score R.
Proof.
  induction 1 as [| b R Hb _ IH]; simpl.
  - reflexivity.
  - destruct b as [| l0 [| l1 [| ? ?]]]; try discriminate.
    simpl. f_equal. exact IH.
Qed.

Lemma logit_difference_signed (y_logits : tensor scalar) (lead : list nat) :
  shape y_logits = lead ++ [2] -> wf y_logits ->
  logit_difference y_logits =
  Ok (Tensor lead (map Spec.signed_score
                       (rows (numel lead) 2 (data y_logits)))).
Proof.
  intros Hs Hwf.
  assert (Hlen : length (data y_logits) = numel lead * 2).
  { unfold wf in Hwf. rewrite Hs, numel_app in Hwf. simpl in Hwf. lia. }
  unfold logit_difference, select_last.
  rewrite Hs, rev_app_distr. simpl. rewrite rev_involutive.
  unfold tzip. simpl. do 2 f_equal.
  apply signed_scores_of_pairs, rows_each_length, Hlen.
Qed.

Lemma to_one_hot_in_range (labels : tensor Z) (k : nat) :
  Forall (fun l => (0 <= l < Z.of_nat k)%Z) (data labels) ->
  to_one_hot labels k =
  Ok (Tensor (shape labels ++ [k])
             (flat_map (Spec.one_hot_vector k) (data labels))).
Proof.
  intros Hrange. unfold to_one_hot.
  rewrite (@mapM_total _ _ (one_hot_row k) (Spec.one_hot_vector k)).
  - simpl. rewrite flat_map_concat_map. reflexivity.
  - eapply Forall_impl; [| exact Hrange]. intros l [Hlo Hhi].
    unfold one_hot_row.
    replace ((0 <=? l) && (l <? Z.of_nat k))%Z with true; [reflexivity |].
    symmetry. apply andb_true_iff. split;
      [apply Z.leb_le | apply Z.ltb_lt]; assumption.
Qed.

Section Auroc.

Variable RocAucResult : Type.
Variable roc_auc_ci : tensor Z -> tensor scalar -> result RocAucResult.

(** C7. In mode [partial] or [full] with two classes, [calc_auroc] scores
    the ground truth as it is against the single signed score
    [logit[1] - logit[0]] of every example; no one-hot encoding of the
    ground truth and no per-class score enters the computation. *)
Theorem binary_auroc_pools_signed_score
        (y_logits : tensor scalar) (y_true : tensor Z) (ensembling : string) :
  ensembling = "partial"%string \/ ensembling = "full"%string ->
  calc_auroc roc_auc_ci y_logits y_true ensembling 2 =
    (score <- logit_difference y_logits ;; roc_auc_ci y_true score) /\
  forall lead,
    shape y_logits = lead ++ [2] -> wf y_logits ->
    calc_auroc roc_auc_ci y_logits y_true ensembling 2 =
    roc_auc_ci y_true
               (Tensor lead (map Spec.signed_score
                                 (rows (numel lead) 2 (data y_logits)))).
Proof.
  intros Hmode.
  assert (H : calc_auroc roc_auc_ci y_logits y_true ensembling 2 =
              (score <- logit_difference y_logits ;; roc_auc_ci y_true score)).
  { destruct Hmode as [-> | ->]; reflexivity. }
  split; [exact H |].
  intros lead Hs Hwf. rewrite H.
  rewrite (@logit_difference_signed y_logits lead Hs Hwf). reflexivity.
Qed.

Lemma calc_auroc_none_general (y_logits : tensor scalar) (y_true : tensor Z)
      (k n d0 d1 : nat) (rest_true rest_logits : list nat) :
  shape y_true = n :: rest_true ->
  shape y_logits = d0 :: d1 :: rest_logits ->
  Forall (fun l => (0 <= l < Z.of_nat k)%Z) (data y_true) ->
  calc_auroc roc_auc_ci y_logits y_true "none" k =
  roc_auc_ci
    (Tensor [n; numel (rest_true ++ [k])]
            (flat_map (Spec.one_hot_vector k) (data y_true)))
    (Tensor [d0; numel (d1 :: rest_logits)] (data y_logits)).
Proof.
  intros Ht Hl Hrange. unfold calc_auroc. simpl String.eqb. cbv iota.
  rewrite to_one_hot_in_range by exact Hrange. rewrite Ht. simpl bind.
  unfold flatten_from_1. rewrite Hl. simpl shape.
  destruct rest_true; reflexivity.
Qed.

(** C3, amended. In mode [none], for a ground truth of shape [(n, v)] with
    labels below [k] and logits of shape [(n, v, k)], [calc_auroc] one-hot
    encodes the ground truth and flattens every axis except the first:
    the estimator receives labels and logits of shape [(n, v * k)], the
    variant and class axes merged and the example axis kept. *)
Theorem calc_auroc_none_keeps_first_axis
        (y_logits : tensor scalar) (y_true : tensor Z) (n v k : nat) :
  shape y_true = [n; v] ->
  shape y_logits = [n; v; k] ->
  Forall (fun l => (0 <= l < Z.of_nat k)%Z) (data y_true) ->
  calc_auroc roc_auc_ci y_logits y_true "none" k =
  roc_auc_ci
    (Tensor [n; v * k] (flat_map (Spec.one_hot_vector k) (data y_true)))
    (Tensor [n; v * k] (data y_logits)).
Proof.
  intros Ht Hl Hrange.
  rewrite (@calc_auroc_none_general y_logits y_true k n n v [v] [k] Ht Hl Hrange).
  simpl. rewrite !Nat.mul_1_r. reflexivity.
Qed.

End Auroc.

(** C3 as stated fails: for one example with two variants and two classes
    the estimator receives tensors of shape [(1, 4)], where flattening all
    but the last axis would hand it tensors of shape [(2, 2)]. *)
Lemma calc_auroc_none_not_keep_last :
  calc_auroc Probe.roc_auc_ci Data.logits122 Data.y_true12 "none" 2 =
    Ok (Tensor [1; 4] [1; 0; 0; 1]%Z, Tensor [1; 4] (data Data.logits122)) /\
  Spec.calc_auroc_none_keep_last
    Probe.roc_auc_ci Data.logits122 Data.y_true12 2 =
    Ok (Tensor [2; 2] [1; 0; 0; 1]%Z, Tensor [2; 2] (data Data.logits122)) /\
  calc_auroc Probe.roc_auc_ci Data.logits122 Data.y_true12 "none" 2 <>
  Spec.calc_auroc_none_keep_last
    Probe.roc_auc_ci Data.logits122 Data.y_true12 2.
Proof.
  split; [reflexivity |]. split; [reflexivity |].
  intros H. vm_compute in H. discriminate H.
Qed.

(* ------------------------------------------------------------------ *)
(** ** The calibrated threshold *)

Lemma this_Qc_of_Z (z : Z) : (this (Qc_of_Z z) == inject_Z z)%Q.
Proof. unfold Qc_of_Z. cbn [this Q2Qc]. apply Qred_correct. Qed.

Lemma this_Qcdiv (x y : Qc) : (this (x / y)%Qc == this x / this y)%Q.
Proof.
  unfold Qcdiv, Qcmult, Qcinv. cbn [this Q2Qc].
  rewrite !Qred_correct. reflexivity.
Qed.

Lemma ssum_of_int (labels : list Z) :
  ssum (map of_int labels) = Fin (Qc_of_Z (fold_right Z.add 0%Z labels)).
Proof.
  induction labels as [| l labels IH].
  - reflexivity.
  - change (ssum (map of_int (l :: labels)))
      with (sadd (of_int l) (ssum (map of_int labels))).
    rewrite IH. simpl fold_right. rewrite Qc_of_Z_add. reflexivity.
Qed.

Lemma binary_sum_bounds (labels : list Z) :
  Forall (fun l => l = 0%Z \/ l = 1%Z) labels ->
  (0 <= fold_right Z.add 0 labels <= Z.of_nat (length labels))%Z.
Proof.
  induction 1 as [| l labels Hl _ IH]; simpl fold_right; simpl length.
  - lia.
  - destruct Hl; subst; lia.
Qed.

(** The positive rate of a non-empty binary ground truth is a number
    between 0 and 1. *)
Lemma positive_rate_in_unit_interval (y_true : tensor Z) :
  data y_true <> [] ->
  Forall (fun l => l = 0%Z \/ l = 1%Z) (data y_true) ->
  exists p : Qc,
    Spec.positive_rate y_true = Fin p /\
    (Qle_bool 0 p && Qle_bool p 1)%bool = true.
Proof.
  intros Hne Hbin. unfold Spec.positive_rate, mean.
  rewrite ssum_of_int, length_map.
  pose proof (binary_sum_bounds Hbin) as [Hlo Hhi].
  set (s := fold_right Z.add 0%Z (data y_true)) in *.
  destruct (data y_true) as [| l0 ls] eqn:Hd; [contradiction |].
  set (n := length (l0 :: ls)) in *.
  assert (Hn : (0 < Z.of_nat n)%Z) by (subst n; simpl; lia).
  unfold sdiv_nat. subst n. simpl length in *.
  eexists; split; [reflexivity |].
  fold (Qc_of_Z (Z.of_nat (S (length ls)))).
  apply andb_true_iff; split; apply Qle_bool_iff;
    rewrite this_Qcdiv, !this_Qc_of_Z.
  - apply Qle_shift_div_l.
    + change 0%Q with (inject_Z 0). rewrite <- Zlt_Qlt. exact Hn.
    + rewrite Qmult_0_l. change 0%Q with (inject_Z 0).
      rewrite <- Zle_Qle. exact Hlo.
  - apply Qle_shift_div_r.
    + change 0%Q with (inject_Z 0). rewrite <- Zlt_Qlt. exact Hn.
    + rewrite Qmult_1_l. rewrite <- Zle_Qle. exact Hhi.
Qed.

Section Calibration.

Variable AccuracyResult : Type.
Variable accuracy_ci : tensor Z -> tensor Z -> result AccuracyResult.

(** C4. For a non-empty binary ground truth and a non-empty tensor of
    probabilities, the positive rate [q = mean(y_true)] lies in [0, 1],
    the [q]-quantile of the probabilities is defined, and
    [calc_calibrated_accuracies] is the accuracy estimate of the
    predictions [pos_probs > threshold] against the ground truth, with
    that quantile as the threshold. *)
Theorem calibrated_accuracy_uses_quantile_threshold
        (y_true : tensor Z) (pos_probs : tensor scalar) :
  data y_true <> [] ->
  Forall (fun l => l = 0%Z \/ l = 1%Z) (data y_true) ->
  data pos_probs <> [] ->
  exists threshold,
    quantile (data pos_probs) (Spec.positive_rate y_true) = Ok threshold /\
    calc_calibrated_accuracies accuracy_ci y_true pos_probs =
    accuracy_ci y_true (Spec.predictions_above threshold pos_probs).
Proof.
  intros Hne Hbin Hprobs.
  destruct (positive_rate_in_unit_interval y_true Hne Hbin) as (p & Hp & Hunit).
  assert (Hq : exists threshold,
             quantile (data pos_probs) (Fin p) = Ok threshold).
  { unfold quantile. destruct (data pos_probs) as [| x xs]; [contradiction |].
    rewrite Hunit. destruct (finite_values (x :: xs)); eexists; reflexivity. }
  destruct Hq as [threshold Hq]. exists threshold.
  unfold calc_calibrated_accuracies. fold (Spec.positive_rate y_true).
  rewrite Hp, Hq. split; reflexivity.
Qed.

End Calibration.

(** The calibrated threshold is not one half: for the probabilities
    0.6, 0.7, 0.8, 0.9 and one positive label out of four it is the
    0.25-quantile 0.675, and the calibrated predictions are 0, 1, 1, 1
    where a threshold of one half would predict 1 everywhere. *)
Example calibrated_threshold_is_not_one_half :
  calc_calibrated_accuracies Probe.accuracy_ci
                             Data.y_true_one_positive Data.probs4 =
    Ok (Data.y_true_one_positive, Tensor [4] [0; 1; 1; 1]%Z) /\
  Spec.predictions_above (Fin (Q2Qc (1 # 2))) Data.probs4 =
    Tensor [4] [1; 1; 1; 1]%Z.
Proof. split; reflexivity. Qed.

(* ------------------------------------------------------------------ *)
(** ** Layer ensembling *)

Lemma mapM_ext {A B} (f g : A -> result B) (xs : list A) :
  (forall x, f x = g x) -> mapM f xs = mapM g xs.
Proof.
  intros Hfg. induction xs as [| x xs IH]; simpl.
  - reflexivity.
  - rewrite Hfg, IH. reflexivity.
Qed.

Lemma mapM_all_ok {A B} (f : A -> result B) (xs : list A) :
  forallb (fun x => is_ok (f x)) xs = true -> exists ys, mapM f xs = Ok ys.
Proof.
  induction xs as [| x xs IH]; simpl; intros H.
  - eexists; reflexivity.
  - apply andb_true_iff in H as [Hx Hxs].
    destruct (f x) as [y | e]; [| discriminate].
    destruct (IH Hxs) as [ys ->]. eexists; reflexivity.
Qed.

Lemma variant_average_step (layer_output : list LayerOutput) :
  Spec.variant_average layer_output = fmap fst (ensembling_step layer_output).
Proof.
  unfold Spec.variant_average, ensembling_step, fmap.
  destruct (getitem layer_output 0) as [first | e]; simpl; [| reflexivity].
  destruct (mean_dim 1 (val_credences first)); reflexivity.
Qed.

Lemma ground_truth_of_steps (xs : list (list LayerOutput))
      (vs : list (tensor scalar * tensor Z)) :
  mapM ensembling_step xs = Ok vs ->
  mapM Spec.ground_truth xs = Ok (map snd vs).
Proof.
  revert vs; induction xs as [| x xs IH]; simpl; intros vs H.
  - injection H as <-. reflexivity.
  - apply bind_ok_inv in H as (v & Hv & H).
    apply bind_ok_inv in H as (vs' & Hvs & H). injection H as <-.
    rewrite (IH vs' Hvs). simpl.
    unfold Spec.ground_truth. unfold ensembling_step in Hv.
    destruct (getitem x 0) as [first | e]; simpl in *; [| discriminate].
    destruct (mean_dim 1 (val_credences first)); simpl in Hv; [| discriminate].
    injection Hv as <-. reflexivity.
Qed.

Lemma skipn_app_exact {A} (m : nat) (us vs : list A) :
  length us = m -> skipn m (us ++ vs) = vs.
Proof.
  intros <-. rewrite skipn_app, skipn_all, Nat.sub_diag. reflexivity.
Qed.

Lemma half_le (n : nat) : n / 2 <= n.
Proof. apply Nat.Div0.div_le_upper_bound. lia. Qed.

Section LayerEnsembling.

Variables AccuracyResult CalibrationEstimate RocAucResult : Type.
Variable accuracy_ci : tensor Z -> tensor Z -> result AccuracyResult.
Variable roc_auc_ci : tensor Z -> tensor scalar -> result RocAucResult.
Variable calibration_error :
  tensor Z -> tensor scalar -> result CalibrationEstimate.
Variable sigmoid : scalar -> scalar.

Let ensemble :=
  layer_ensembling accuracy_ci roc_auc_ci calibration_error sigmoid.
Let ensemble_later_half :=
  Spec.layer_ensembling_later_half accuracy_ci roc_auc_ci calibration_error sigmoid.

(** C2. For every sequence of layer outputs whose earlier half passes the
    averaging loop, [layer_ensembling] is the computation the
    specification words: the layers from index [len // 2] on are kept,
    their variant-averaged validation credences are stacked and averaged
    over the depth axis, and the mean is scored by [calc_eval_results] in
    mode [full] against the ground truth at index 2 of the kept layers. *)
Theorem layer_ensembling_scores_later_half
        (layer_outputs : list (list LayerOutput)) :
  forallb (fun lo => is_ok (ensembling_step lo))
          (firstn (length layer_outputs / 2) layer_outputs) = true ->
  ensemble layer_outputs = ensemble_later_half layer_outputs.
Proof.
  intros Hearly.
  apply mapM_all_ok in Hearly as [us Hus].
  pose proof (mapM_length _ _ Hus) as Hlen_us.
  rewrite length_firstn, Nat.min_l in Hlen_us by apply half_le.
  unfold ensemble, ensemble_later_half, layer_ensembling,
    Spec.layer_ensembling_later_half.
  set (m := length layer_outputs / 2) in *.
  rewrite <- (firstn_skipn m layer_outputs) at 1.
  rewrite mapM_app, Hus. cbn [bind].
  rewrite (mapM_ext _ _ _ variant_average_step), mapM_fmap.
  destruct (mapM ensembling_step (skipn m layer_outputs)) as [vs | e] eqn:Hvs;
    [| reflexivity].
  cbn [bind]. rewrite (ground_truth_of_steps _ Hvs). cbn [bind].
  pose proof (mapM_length _ _ Hvs) as Hlen_vs.
  rewrite length_skipn in Hlen_vs.
  assert (Hm : length (map snd (us ++ vs)) / 2 = m).
  { rewrite length_map, length_app, Hlen_us, Hlen_vs.
    pose proof (half_le (length layer_outputs)). fold m in H.
    replace (m + (length layer_outputs - m)) with (length layer_outputs)
      by lia. reflexivity. }
  rewrite Hm, !map_app.
  rewrite !skipn_app_exact by (rewrite length_map; exact Hlen_us).
  reflexivity.
Qed.

(** C10. [layer_ensembling] returns a result only for a sequence of at
    least five layer outputs: with one to four layers the kept later half
    has fewer than three elements, so the call raises. *)
Theorem layer_ensembling_needs_five_layers
        (layer_outputs : list (list LayerOutput)) :
  (1 <= length layer_outputs <= 4 ->
   exists e, ensemble layer_outputs = Raise e) /\
  (forall r, ensemble layer_outputs = Ok r -> 5 <= length layer_outputs).
Proof.
  assert (Hok : forall r, ensemble layer_outputs = Ok r ->
                          5 <= length layer_outputs).
  { intros r H. unfold ensemble, layer_ensembling in H.
    apply bind_ok_inv in H as (collected & Hc & H).
    apply bind_ok_inv in H as (layer0 & _ & H).
    apply bind_ok_inv in H as (first0 & _ & H).
    apply bind_ok_inv in H as (num_classes & _ & H).
    apply bind_ok_inv in H as (stacked & _ & H).
    apply bind_ok_inv in H as (depth_mean & _ & H).
    apply bind_ok_inv in H as (y_true & Hy & _).
    apply mapM_length in Hc.
    change 2%Z with (Z.of_nat 2) in Hy. rewrite getitem_nat in Hy.
    destruct (nth_error _ 2) eqn:Hnth in Hy; [| discriminate].
    assert (Hlt : 2 < length (skipn (length (map snd collected) / 2)
                                    (map snd collected)))
      by (apply nth_error_Some; congruence).
    rewrite length_skipn, length_map, Hc in Hlt.
    destruct (length layer_outputs) as [| [| [| [| [| n]]]]];
      simpl in Hlt; lia. }
  split; [| exact Hok].
  intros Hlen. destruct (ensemble layer_outputs) as [r | e] eqn:H.
  - specialize (Hok r eq_refl). lia.
  - exists e; reflexivity.
Qed.

End LayerEnsembling.

(** With the estimators that record their arguments: sweeps of one to
    four layers fail on the index, a sweep of five layers is scored
    against the ground truth of its fifth layer. *)
Example layer_ensembling_short_sweeps :
  map (fun n => Probe.layer_ensembling (Data.sweep n)) [1; 2; 3; 4] =
  [Raise IndexError; Raise IndexError; Raise IndexError; Raise IndexError].
Proof. reflexivity. Qed.

Example layer_ensembling_five_layers :
  is_ok (Probe.layer_ensembling (Data.sweep 5)) = true.
Proof. reflexivity. Qed.

(* ------------------------------------------------------------------ *)
(** ** The layer sweep *)

Module RunFacts.

Import Run.

Lemma insert_row_perm (r : Row) (rs : list Row) :
  Permutation (insert_row r rs) (r :: rs).
Proof.
  induction rs as [| r' rs IH]; simpl.
  - apply Permutation_refl.
  - destruct (row_layer r <=? row_layer r')%Z.
    + apply Permutation_refl.
    + apply perm_trans with (r' :: r :: rs).
      * apply perm_skip. exact IH.
      * apply perm_swap.
Qed.

Lemma sort_rows_perm (rs : list Row) : Permutation (sort_rows rs) rs.
Proof.
  induction rs as [| r rs IH]; simpl.
  - apply perm_nil.
  - apply perm_trans with (r :: sort_rows rs).
    + apply insert_row_perm.
    + apply perm_skip. exact IH.
Qed.

Lemma insert_row_hd (r a : Row) (rs : list Row) :
  layer_le a r -> HdRel layer_le a rs -> HdRel layer_le a (insert_row r rs).
Proof.
  intros Har Hhd. destruct rs as [| r' rs]; simpl.
  - constructor. exact Har.
  - destruct (row_layer r <=? row_layer r')%Z.
    + constructor. exact Har.
    + constructor. inversion Hhd; assumption.
Qed.

Lemma insert_row_sorted (r : Row) (rs : list Row) :
  Sorted layer_le rs -> Sorted layer_le (insert_row r rs).
Proof.
  induction 1 as [| r' rs Hs IH Hhd]; simpl.
  - repeat constructor.
  - destruct (row_layer r <=? row_layer r')%Z eqn:Hle.
    + constructor.
      * constructor; assumption.
      * constructor. unfold layer_le. apply Z.leb_le. exact Hle.
    + constructor.
      * exact IH.
      * apply insert_row_hd; [| exact Hhd].
        unfold layer_le. apply Z.leb_gt in Hle. lia.
Qed.

Lemma sort_rows_sorted (rs : list Row) : Sorted layer_le (sort_rows rs).
Proof.
  induction rs as [| r rs IH]; simpl.
  - constructor.
  - apply insert_row_sorted. exact IH.
Qed.

Lemma sort_rows_nil_iff (rs : list Row) : sort_rows rs = [] -> rs = [].
Proof.
  intros H. pose proof (sort_rows_perm rs) as Hp. rewrite H in Hp.
  apply Permutation_nil in Hp. exact Hp.
Qed.

(** The loop keeps the rows received before the first failure. *)
Lemma collect_until_failure (done : list Row) (e : exn)
      (rest : list (result Row)) (row_buf : list Row) :
  collect (map Ok done ++ Raise e :: rest) row_buf = (row_buf ++ done, Some e).
Proof.
  revert row_buf; induction done as [| r done IH]; intros row_buf; simpl.
  - rewrite app_nil_r. reflexivity.
  - rewrite IH, <- app_assoc. reflexivity.
Qed.

Lemma collect_all (done : list Row) (row_buf : list Row) :
  collect (map Ok done) row_buf = (row_buf ++ done, None).
Proof.
  revert row_buf; induction done as [| r done IH]; intros row_buf; simpl.
  - rewrite app_nil_r. reflexivity.
  - rewrite IH, <- app_assoc. reflexivity.
Qed.

(** What the [finally] block achieves when the collection loop is
    aborted by a failure: by the time the call raises, [eval.csv] holds
    the rows received before the failure, sorted by layer, these rows
    and no other; whenever a row was received, the exception that leaves
    the call is the one that aborted the loop. With no row received the
    sort raises and the rest of the block is skipped, as the theorem
    after the next shows. *)
Theorem flush_after_aborted_collection
        (cfg : Config) (schedule : list layer_unit -> list layer_unit)
        (func : layer_unit -> result Row) (num_devices : Z)
        (layers layers' : list layer_unit) (files : Files)
        (done : list Row) (e : exn) (rest : list (result Row)) :
  (1 <= num_devices)%Z ->
  resolve_layers cfg layers = Ok layers' ->
  mapper num_devices schedule func layers' = map Ok done ++ Raise e :: rest ->
  exists files' e',
    apply_to_layers cfg schedule func num_devices layers files =
      (files', Raise e') /\
    eval_csv files' = Some (sort_rows done) /\
    Sorted layer_le (sort_rows done) /\
    Permutation (sort_rows done) done /\
    (done <> [] -> e' = e).
Proof.
  intros Hdev Hres Hrun. unfold apply_to_layers.
  rewrite Hres.
  destruct (num_devices <? 1)%Z eqn:Hlt; [apply Z.ltb_lt in Hlt; lia |].
  rewrite Hrun, collect_until_failure. simpl app.
  unfold flush, sort_values_by_layer.
  destruct done as [| r done].
  - exists (mkFiles (Some []) (debug_log files)), KeyError.
    repeat split; simpl; try constructor. intros Hne; contradiction.
  - eexists _, e. split; [reflexivity |]. simpl eval_csv.
    split; [reflexivity |].
    split; [apply sort_rows_sorted |].
    split; [apply sort_rows_perm | reflexivity].
Qed.

(** A sweep that meets no failure writes every row, sorted by layer. *)
Lemma flush_after_complete_collection
      (cfg : Config) (schedule : list layer_unit -> list layer_unit)
      (func : layer_unit -> result Row) (num_devices : Z)
      (layers layers' : list layer_unit) (files : Files)
      (r : Row) (done : list Row) :
  (1 <= num_devices)%Z ->
  resolve_layers cfg layers = Ok layers' ->
  mapper num_devices schedule func layers' = map Ok (r :: done) ->
  apply_to_layers cfg schedule func num_devices layers files =
  (mkFiles (Some (sort_rows (r :: done))) (debug_log files || debug cfg),
   Ok tt).
Proof.
  intros Hdev Hres Hrun. unfold apply_to_layers.
  rewrite Hres.
  destruct (num_devices <? 1)%Z eqn:Hlt; [apply Z.ltb_lt in Hlt; lia |].
  rewrite Hrun, collect_all. reflexivity.
Qed.

(** Scenario 4 of the specification: over the layers 0, 1, 2 with a
    failing worker for layer 1, a pool whose worker for layer 2 reports
    before the failure leaves the rows of layers 0 and 2; the sequential
    sweep stops at layer 1 and leaves the row of layer 0. *)
Example sweep_with_failing_layer_1 :
  apply_to_layers Data.cfg_plain Data.layer_1_last Data.failing_at_1 2
                  Data.layers012 Data.no_files =
    (mkFiles (Some [mkRow 0 []; mkRow 2 []]) false, Raise (WorkerError 1)) /\
  apply_to_layers Data.cfg_plain Data.layer_1_last Data.failing_at_1 1
                  Data.layers012 Data.no_files =
    (mkFiles (Some [mkRow 0 []]) false, Raise (WorkerError 1)).
Proof. split; reflexivity. Qed.

(** C1. The flush does not survive a failure that is the first result to
    arrive. Over the layers 0, 1, 2 with the debug log requested, in a
    pool whose worker for layer 1 fails and reports first, and in the
    sequential sweep whose worker for layer 0 fails, the loop is aborted
    with an empty buffer; the frame built from it has no [layer] column
    and its sort raises [KeyError] inside the [finally] block: nothing
    is written to [eval.csv], which stays as [open] truncated it, the
    debug log is not saved, and [KeyError] leaves the call in the place
    of the failure of the worker. *)
Theorem failure_before_first_row_skips_flush :
  collect (mapper 2 MoreData.layer_1_first Data.failing_at_1 Data.layers012)
          [] = ([], Some (WorkerError 1)) /\
  apply_to_layers MoreData.cfg_debug MoreData.layer_1_first
                  Data.failing_at_1 2 Data.layers012 Data.no_files =
    (mkFiles (Some []) false, Raise KeyError) /\
  collect (mapper 1 Data.layer_1_last MoreData.failing_at_0 Data.layers012)
          [] = ([], Some (WorkerError 0)) /\
  apply_to_layers MoreData.cfg_debug Data.layer_1_last
                  MoreData.failing_at_0 1 Data.layers012 Data.no_files =
    (mkFiles (Some []) false, Raise KeyError).
Proof. repeat split; reflexivity. Qed.

Lemma setitem_nat {A} (xs : list A) (i : nat) (x : A) :
  i < length xs ->
  setitem xs (Z.of_nat i) x = Ok (replace_nth i x xs).
Proof.
  intros Hi. unfold setitem.
  destruct (Z.of_nat i <? 0)%Z eqn:Hneg; [apply Z.ltb_lt in Hneg; lia |].
  rewrite Nat2Z.id.
  replace ((0 <=? Z.of_nat i) && (Z.of_nat i <? Z.of_nat (length xs)))%Z
    with true; [reflexivity |].
  symmetry; apply andb_true_iff; split;
    [apply Z.leb_le | apply Z.ltb_lt]; lia.
Qed.

Lemma replace_nth_middle {A} (pre post : list A) (x y : A) :
  replace_nth (length pre) y (pre ++ x :: post) = pre ++ y :: post.
Proof.
  induction pre as [| p pre IH]; simpl.
  - reflexivity.
  - rewrite IH. reflexivity.
Qed.

Lemma nth_error_middle {A} (pre post : list A) (x : A) :
  nth_error (pre ++ x :: post) (length pre) = Some x.
Proof.
  rewrite nth_error_app2 by lia. rewrite Nat.sub_diag. reflexivity.
Qed.

(** The loop of [concatenate], started at the position that follows
    [pre], extends each of the remaining entries in turn. *)
Lemma concatenate_loop_extends (offset : Z) (post : list (list Z)) :
  Forall (fun entry => entry <> []) post ->
  forall pre : list layer_unit,
    concatenate_loop offset (Z.of_nat (length pre)) (length post)
                     (pre ++ map LList post) =
    Ok (pre ++ map LList (map (Spec.extend_entry offset) post)).
Proof.
  induction 1 as [| entry post Hentry _ IH]; intros pre; simpl.
  - reflexivity.
  - rewrite getitem_nat, nth_error_middle. cbn [bind].
    destruct entry as [| l0 ls]; [contradiction |]. cbn [extend_unit bind].
    rewrite setitem_nat by (rewrite length_app; simpl; lia).
    rewrite replace_nth_middle. cbn [bind].
    specialize (IH (pre ++ [LList ((l0 :: ls) ++ [(l0 - offset)%Z])])).
    rewrite length_app in IH. simpl length in IH.
    replace (Z.of_nat (length pre + 1)) with (Z.of_nat (length pre) + 1)%Z
      in IH by lia.
    rewrite <- !app_assoc in IH. simpl app in IH. exact IH.
Qed.

(** The loop of [concatenate] on the only entries it can subscript,
    lists of layer indices, non-empty from position [offset] on: the
    first [offset] entries are left as they are and every later entry
    receives the index [offset] below its first index; the number of
    entries does not change. [get_layers] returns no such entries. *)
Theorem concatenate_extends_from_offset (cfg : Config) (entries : list (list Z)) :
  (0 < concatenated_layer_offset cfg)%Z ->
  Forall (fun entry => entry <> [])
         (skipn (Z.to_nat (concatenated_layer_offset cfg)) entries) ->
  resolve_layers cfg (map LList entries) =
  Ok (map LList
          (firstn (Z.to_nat (concatenated_layer_offset cfg)) entries
           ++ map (Spec.extend_entry (concatenated_layer_offset cfg))
                  (skipn (Z.to_nat (concatenated_layer_offset cfg)) entries))).
Proof.
  intros Hpos Hne. unfold resolve_layers.
  destruct (0 <? concatenated_layer_offset cfg)%Z eqn:Hlt;
    [| apply Z.ltb_ge in Hlt; lia].
  set (offset := concatenated_layer_offset cfg) in *.
  set (o := Z.to_nat offset) in *.
  unfold concatenate. rewrite length_map.
  destruct (Nat.le_gt_cases (length entries) o) as [Hshort | Hlong].
  - replace (Z.to_nat (Z.of_nat (length entries) - offset)) with 0 by lia.
    simpl. rewrite firstn_all2, skipn_all2 by exact Hshort.
    simpl. rewrite app_nil_r. reflexivity.
  - pose proof (concatenate_loop_extends offset Hne
                  (map LList (firstn o entries))) as Hloop.
    rewrite length_map, length_firstn, Nat.min_l in Hloop by lia.
    rewrite length_skipn in Hloop.
    replace (Z.of_nat o) with offset in Hloop by lia.
    replace (Z.to_nat (Z.of_nat (length entries) - offset))
      with (length entries - o) by lia.
    rewrite <- map_app, firstn_skipn in Hloop.
    rewrite Hloop, map_app. reflexivity.
Qed.

(** On such entries and with offset 1 the entry of layer 0 is left as
    it is, where extending every entry would join layer -1 to it. *)
Lemma concatenate_leaves_first_entries :
  resolve_layers (mkConfig 1 false) Data.units012 =
    Ok [LList [0]; LList [1; 0]; LList [2; 1]]%Z /\
  Spec.extend_every_unit 1 Data.units012 =
    Ok [LList [0; -1]; LList [1; 0]; LList [2; 1]]%Z /\
  resolve_layers (mkConfig 1 false) Data.units012 <>
  Spec.extend_every_unit 1 Data.units012.
Proof.
  split; [reflexivity |]. split; [reflexivity |].
  intros H. vm_compute in H. discriminate H.
Qed.

(** Entries that are plain layer indices are rejected by the indexing
    [layers[layer][0]]. *)
Example concatenate_on_plain_indices :
  resolve_layers (mkConfig 1 false) Data.layers012 = Raise TypeError.
Proof. reflexivity. Qed.

(** C8. On the layer indices 0, 1, 2 that [get_layers] returns, a
    concatenated layer offset of 1 or 2 extends no unit of work:
    [concatenate] subscripts the layer index at position [offset], which
    raises [TypeError], and [apply_to_layers] raises it before [eval.csv]
    is opened and before any layer is processed. *)
Theorem offset_on_layer_indices_raises :
  concatenate 1 Data.layers012 = Raise TypeError /\
  concatenate 2 Data.layers012 = Raise TypeError /\
  apply_to_layers (mkConfig 1 false) Data.layer_1_last MoreData.row_of_layer
                  1 Data.layers012 Data.no_files =
    (Data.no_files, Raise TypeError).
Proof. repeat split; reflexivity. Qed.

End RunFacts.

(* ------------------------------------------------------------------ *)
(** ** The theorems at concrete inputs *)

(** The pool sweep over the layers 0, 1, 2 whose worker for layer 1 fails
    last. *)
Lemma flush_after_aborted_collection_witness :
  exists files' e',
    Run.apply_to_layers Data.cfg_plain Data.layer_1_last Data.failing_at_1 2
                        Data.layers012 Data.no_files = (files', Raise e') /\
    Run.eval_csv files' =
      Some (Run.sort_rows [Run.mkRow 0 []; Run.mkRow 2 []]) /\
    Sorted Run.layer_le (Run.sort_rows [Run.mkRow 0 []; Run.mkRow 2 []]) /\
    Permutation (Run.sort_rows [Run.mkRow 0 []; Run.mkRow 2 []])
                [Run.mkRow 0 []; Run.mkRow 2 []] /\
    ([Run.mkRow 0 []; Run.mkRow 2 []] <> [] -> e' = WorkerError 1).
Proof.
  apply (@RunFacts.flush_after_aborted_collection
           Data.cfg_plain Data.layer_1_last Data.failing_at_1 2%Z
           Data.layers012 Data.layers012 Data.no_files
           [Run.mkRow 0 []; Run.mkRow 2 []] (WorkerError 1) []).
  - lia.
  - reflexivity.
  - reflexivity.
Defined.

(** A sweep of five well-formed layers. *)
Lemma layer_ensembling_scores_later_half_witness :
  layer_ensembling Probe.accuracy_ci Probe.roc_auc_ci
                   Probe.calibration_error Probe.squash (Data.sweep 5) =
  Spec.layer_ensembling_later_half
    Probe.accuracy_ci Probe.roc_auc_ci Probe.calibration_error Probe.squash
    (Data.sweep 5).
Proof.
  apply (@layer_ensembling_scores_later_half
           _ _ _ Probe.accuracy_ci Probe.roc_auc_ci Probe.calibration_error
           Probe.squash (Data.sweep 5)).
  reflexivity.
Defined.

(** One example, two variants, two classes. *)
Lemma calc_auroc_none_keeps_first_axis_witness :
  calc_auroc Probe.roc_auc_ci Data.logits122 Data.y_true12 "none" 2 =
  Probe.roc_auc_ci
    (Tensor [1; 2 * 2]
            (flat_map (Spec.one_hot_vector 2) (data Data.y_true12)))
    (Tensor [1; 2 * 2] (data Data.logits122)).
Proof.
  apply (@calc_auroc_none_keeps_first_axis
           _ Probe.roc_auc_ci Data.logits122 Data.y_true12 1 2 2).
  - reflexivity.
  - reflexivity.
  - simpl. repeat constructor; simpl; lia.
Defined.

(** One positive label out of four. *)
Lemma calibrated_accuracy_uses_quantile_threshold_witness :
  exists threshold,
    quantile (data Data.probs4)
             (Spec.positive_rate Data.y_true_one_positive) = Ok threshold /\
    calc_calibrated_accuracies Probe.accuracy_ci
                               Data.y_true_one_positive Data.probs4 =
    Probe.accuracy_ci Data.y_true_one_positive
                      (Spec.predictions_above threshold Data.probs4).
Proof.
  apply (@calibrated_accuracy_uses_quantile_threshold
           _ Probe.accuracy_ci Data.y_true_one_positive Data.probs4).
  - simpl. discriminate.
  - simpl. repeat constructor; simpl; lia.
  - simpl. discriminate.
Defined.

(** The four binary examples of scenario 1, variants averaged. *)
Lemma cal_fields_iff_binary_witness :
  exists r,
    Probe.calc_eval_results Data.y_true4 Data.logits42 "full" 2 = Ok r /\
    (cal_accuracy r <> None <-> 2 = 2) /\
    (calibration r <> None <-> 2 = 2) /\
    (2 <> 2 ->
     forall prefix,
       (forall x, ~ In (prefix ++ "cal_acc_" ++ x)%string
                       (Dict.keys (Probe.to_dict r prefix))) /\
       ~ In (prefix ++ "ece")%string (Dict.keys (Probe.to_dict r prefix))) /\
    (2 = 2 ->
     forall prefix,
       In (prefix ++ "ece")%string (Dict.keys (Probe.to_dict r prefix)) /\
       exists a,
         cal_accuracy r = Some a /\
         incl (map (fun k => (prefix ++ "cal_acc_" ++ k)%string)
                   (Dict.keys (asdict_AccuracyResult
                                 Probe.fields_AccuracyResult a)))
              (Dict.keys (Probe.to_dict r prefix))).
Proof.
  eexists. split.
  - vm_compute. reflexivity.
  - apply (@cal_fields_iff_binary
             _ _ _ Probe.fields_AccuracyResult Probe.fields_RocAucResult
             Probe.ece Probe.accuracy_ci Probe.roc_auc_ci
             Probe.calibration_error Probe.squash
             Data.y_true4 Data.logits42 "full"%string 2).
    vm_compute. reflexivity.
Defined.

(** The same four examples in mode [full]. *)
Lemma binary_auroc_pools_signed_score_witness :
  calc_auroc Probe.roc_auc_ci Data.logits42 Data.y_true4 "full" 2 =
  Probe.roc_auc_ci Data.y_true4
    (Tensor [4] (map Spec.signed_score
                     (rows (numel [4]) 2 (data Data.logits42)))).
Proof.
  apply (proj2 (@binary_auroc_pools_signed_score
                  _ Probe.roc_auc_ci Data.logits42 Data.y_true4
                  "full"%string (or_intror eq_refl)) [4]).
  - reflexivity.
  - reflexivity.
Defined.

(** Offset 1 over the entries [[0]], [[1]], [[2]]. *)
Lemma concatenate_extends_from_offset_witness :
  Run.resolve_layers (Run.mkConfig 1 false)
                     (map Run.LList [[0]; [1]; [2]]%Z) =
  Ok (map Run.LList
          (firstn 1 [[0]; [1]; [2]]%Z
           ++ map (Spec.extend_entry 1) (skipn 1 [[0]; [1]; [2]]%Z))).
Proof.
  apply (@RunFacts.concatenate_extends_from_offset
           (Run.mkConfig 1 false) [[0]; [1]; [2]]%Z).
  - simpl. lia.
  - simpl. repeat constructor; discriminate.
Defined.

(** Scenario 2: three identical variants of the four examples. *)
Lemma full_ensembling_of_identical_variants_witness :
  Probe.evaluate_preds Data.y_true4
                       (Spec.repeat_variants 3 Data.logits412) "full" =
  Probe.evaluate_preds Data.y_true4 Data.logits412 "full".
Proof.
  apply (@full_ensembling_of_identical_variants
           _ _ _ Probe.accuracy_ci Probe.roc_auc_ci Probe.calibration_error
           Probe.squash Data.y_true4 Data.logits412 4 2 3).
  - reflexivity.
  - reflexivity.
  - lia.
Defined.

(** Scenario 2 in 32-bit floats: three identical variants of the four
    examples, whose logits 2 and -2 have exact means. *)
Lemma full_ensembling_of_copies_with_exact_means_witness :
  Float32.Probe.evaluate_preds
    Data.y_true4 (Spec.repeat_variants 3 Float32.logits412) "full" =
  Float32.Probe.evaluate_preds Data.y_true4 Float32.logits412 "full".
Proof.
  apply (@full_ensembling_of_copies_with_exact_means
           Float32.float32 Float32.mean Float32.ssub Float32.sgt
           Float32.is_nan Float32.of_int Float32.Probe.quantile
           Float32.Probe.squash _ _ _ Float32.Probe.accuracy_ci
           Float32.Probe.roc_auc_ci Float32.Probe.calibration_error
           Data.y_true4 Float32.logits412 4 2 3).
  - reflexivity.
  - reflexivity.
  - repeat constructor.
Defined.

(** Four layers fail, five layers give a result. *)
Lemma layer_ensembling_needs_five_layers_witness :
  (exists e, Probe.layer_ensembling (Data.sweep 4) = Raise e) /\
  5 <= length (Data.sweep 5).
Proof.
  split.
  - apply (proj1 (@layer_ensembling_needs_five_layers
                    _ _ _ Probe.accuracy_ci Probe.roc_auc_ci
                    Probe.calibration_error Probe.squash (Data.sweep 4))).
    simpl. lia.
  - eapply (proj2 (@layer_ensembling_needs_five_layers
                     _ _ _ Probe.accuracy_ci Probe.roc_auc_ci
                     Probe.calibration_error Probe.squash (Data.sweep 5))).
    vm_compute. reflexivity.
Defined.

(** The keys of the flat mapping for two classes and for three. *)
Example to_dict_keys_two_and_three_classes :
  fmap (fun r => Dict.keys (Probe.to_dict r "val_"))
       (Probe.calc_eval_results Data.y_true4 Data.logits42 "full" 2) =
    Ok ["val_auroc_estimate"; "val_auroc_lower"; "val_auroc_upper";
        "val_cal_acc_estimate"; "val_cal_acc_lower"; "val_cal_acc_upper";
        "val_acc_estimate"; "val_acc_lower"; "val_acc_upper";
        "val_ece"]%string /\
  fmap (fun r => Dict.keys (Probe.to_dict r "val_"))
       (Probe.calc_eval_results Data.y_true4 Data.logits43 "full" 3) =
    Ok ["val_auroc_estimate"; "val_auroc_lower"; "val_auroc_upper";
        "val_acc_estimate"; "val_acc_lower"; "val_acc_upper"]%string.
Proof. split; reflexivity. Qed.

(* ------------------------------------------------------------------ *)
(** ** Further properties of the metrics *)

Section Blocks.

Context {A : Type}.

Lemma nth_error_concat_block (k : nat) (blocks : list (list A)) :
  Forall (fun b => length b = k) blocks ->
  forall p b j,
    nth_error blocks p = Some b -> j < k ->
    nth_error (concat blocks) (p * k + j) = nth_error b j.
Proof.
  induction 1 as [| b0 blocks Hb0 _ IH]; intros p b j Hp Hj.
  - destruct p; discriminate.
  - destruct p as [| p]; simpl in *.
    + injection Hp as <-. rewrite nth_error_app1 by lia. reflexivity.
    + rewrite nth_error_app2 by lia.
      replace (k + p * k + j - length b0) with (p * k + j) by lia.
      apply IH; assumption.
Qed.

Lemma length_concat_blocks (k : nat) (blocks : list (list A)) :
  Forall (fun b => length b = k) blocks ->
  length (concat blocks) = length blocks * k.
Proof.
  induction 1 as [| b blocks Hb _ IH]; simpl.
  - reflexivity.
  - rewrite length_app, IH, Hb. reflexivity.
Qed.

Lemma nth_error_rows (m k : nat) (xs : list A) (i : nat) :
  i < m ->
  nth_error (rows m k xs) i = Some (firstn k (skipn (i * k) xs)).
Proof.
  intros Hi. unfold rows.
  rewrite nth_error_map, nth_error_seq.
  destruct (Nat.ltb_spec i m); [reflexivity | lia].
Qed.

Lemma nth_error_block (k : nat) (xs : list A) (i j : nat) :
  j < k -> nth_error (firstn k (skipn (i * k) xs)) j = nth_error xs (i * k + j).
Proof.
  intros Hj. rewrite nth_error_firstn.
  destruct (Nat.ltb_spec j k); [| lia].
  rewrite nth_error_skipn. reflexivity.
Qed.

End Blocks.

Lemma length_one_hot_vector (k : nat) (label : Z) :
  length (Spec.one_hot_vector k label) = k.
Proof. unfold Spec.one_hot_vector. rewrite length_map, length_seq. reflexivity. Qed.

Lemma nth_error_one_hot_vector (k : nat) (label : Z) (j : nat) :
  j < k ->
  nth_error (Spec.one_hot_vector k label) j =
  Some (if (Z.of_nat j =? label)%Z then 1%Z else 0%Z).
Proof.
  intros Hj. unfold Spec.one_hot_vector.
  rewrite nth_error_map, nth_error_seq.
  destruct (Nat.ltb_spec j k); [reflexivity | lia].
Qed.

(** X1. For labels that all lie in [0, k), [to_one_hot] returns a
    well-formed tensor whose shape is the shape of the labels followed by
    [k], and whose entry [j] of the row of a label is 1 when [j] is the
    label and 0 otherwise. *)
Theorem to_one_hot_layout (labels : tensor Z) (k : nat) :
  wf labels ->
  Forall (fun l => (0 <= l < Z.of_nat k)%Z) (data labels) ->
  exists hot,
    to_one_hot labels k = Ok hot /\
    shape hot = shape labels ++ [k] /\
    wf hot /\
    forall p label j,
      nth_error (data labels) p = Some label -> j < k ->
      nth_error (data hot) (p * k + j) =
      Some (if (Z.of_nat j =? label)%Z then 1%Z else 0%Z).
Proof.
  intros Hwf Hrange.
  eexists. split; [apply to_one_hot_in_range; exact Hrange |].
  simpl. split; [reflexivity |].
  assert (Hblocks : Forall (fun b => length b = k)
                           (map (Spec.one_hot_vector k) (data labels))).
  { apply Forall_map, Forall_forall. intros l _.
    apply length_one_hot_vector. }
  split.
  - unfold wf. simpl. rewrite flat_map_concat_map.
    rewrite (length_concat_blocks Hblocks), length_map, numel_app.
    unfold wf in Hwf. rewrite Hwf. simpl. lia.
  - intros p label j Hp Hj. rewrite flat_map_concat_map.
    rewrite (@nth_error_concat_block _ k _ Hblocks p
               (Spec.one_hot_vector k label) j).
    + apply nth_error_one_hot_vector; exact Hj.
    + rewrite nth_error_map, Hp. reflexivity.
    + exact Hj.
Qed.

Lemma mapM_one_hot_row_raises (k : nat) (labels : list Z) :
  Exists (fun l => ~ (0 <= l < Z.of_nat k)%Z) labels ->
  mapM (one_hot_row k) labels = Raise RuntimeError.
Proof.
  induction labels as [| l labels IH]; intros Hex.
  - inversion Hex.
  - simpl. unfold one_hot_row at 1.
    destruct ((0 <=? l) && (l <? Z.of_nat k))%Z eqn:Hin.
    + cbn [bind].
      apply andb_true_iff in Hin as [Hlo Hhi].
      apply Z.leb_le in Hlo. apply Z.ltb_lt in Hhi.
      inversion Hex as [? ? Hbad | ? ? Hlater]; subst; [lia |].
      rewrite IH by exact Hlater. reflexivity.
    + reflexivity.
Qed.

(** X2. [to_one_hot] raises exactly when some label lies outside
    [0, n_classes), and the exception is then [RuntimeError]; a negative
    label is rejected like a label that is too large. *)
Theorem to_one_hot_raises_iff_out_of_range (labels : tensor Z) (k : nat) :
  (Exists (fun l => ~ (0 <= l < Z.of_nat k)%Z) (data labels) <->
   to_one_hot labels k = Raise RuntimeError) /\
  (forall e, to_one_hot labels k = Raise e -> e = RuntimeError).
Proof.
  assert (Hdec : Forall (fun l => (0 <= l < Z.of_nat k)%Z) (data labels) \/
                 Exists (fun l => ~ (0 <= l < Z.of_nat k)%Z) (data labels)).
  { induction (data labels) as [| l ls IH].
    - left; constructor.
    - destruct IH as [IH | IH]; [| right; apply Exists_cons_tl; exact IH].
      destruct (Z_le_dec 0 l) as [Hlo | Hlo];
        [| right; apply Exists_cons_hd; lia].
      destruct (Z_lt_dec l (Z.of_nat k)) as [Hhi | Hhi];
        [| right; apply Exists_cons_hd; lia].
      left; constructor; [lia | exact IH]. }
  assert (Hbad : Exists (fun l => ~ (0 <= l < Z.of_nat k)%Z) (data labels) ->
                 to_one_hot labels k = Raise RuntimeError).
  { intros Hex. unfold to_one_hot.
    rewrite mapM_one_hot_row_raises by exact Hex. reflexivity. }
  split; [split; [exact Hbad |] |].
  - intros Hraise. destruct Hdec as [Hall | Hex]; [| exact Hex].
    rewrite to_one_hot_in_range in Hraise by exact Hall. discriminate.
  - intros e Hraise. destruct Hdec as [Hall | Hex].
    + rewrite to_one_hot_in_range in Hraise by exact Hall. discriminate.
    + rewrite (Hbad Hex) in Hraise. congruence.
Qed.

Lemma column_as_map (blocks : list (list scalar)) (j : nat) :
  Forall (fun b => j < length b) blocks ->
  column j blocks = map (fun b => nth j b NaN) blocks.
Proof.
  induction 1 as [| b blocks Hb _ IH]; simpl.
  - reflexivity.
  - rewrite (nth_error_nth' b NaN Hb). simpl. f_equal. exact IH.
Qed.

Lemma column_rows (g : list scalar) (v k j : nat) :
  length g = v * k -> j < k ->
  column j (rows v k g) = map (fun u => nth (u * k + j) g NaN) (seq 0 v).
Proof.
  intros Hlen Hj.
  rewrite column_as_map.
  - unfold rows. rewrite map_map. apply map_ext_in. intros u Hu.
    apply in_seq in Hu.
    apply nth_error_nth.
    rewrite nth_error_block by exact Hj.
    apply nth_error_nth'. rewrite Hlen. nia.
  - eapply Forall_impl; [| apply rows_each_length; exact Hlen].
    intros b Hb. simpl in Hb. lia.
Qed.

(** The mean over the variant axis of a well-formed [(n, v, k)] tensor,
    element by element. *)
Lemma mean_dim_1_elements (t : tensor scalar) (n v k : nat) :
  shape t = [n; v; k] -> wf t ->
  exists avg,
    mean_dim 1 t = Ok avg /\
    shape avg = [n; k] /\
    wf avg /\
    forall i j,
      i < n -> j < k ->
      nth_error (data avg) (i * k + j) =
      Some (mean (map (fun u => nth ((i * v + u) * k + j) (data t) NaN)
                      (seq 0 v))).
Proof.
  intros Hs Hwf.
  assert (Hlen : length (data t) = n * (v * k)).
  { unfold wf in Hwf. rewrite Hs in Hwf. simpl in Hwf. lia. }
  unfold mean_dim. rewrite Hs. simpl. rewrite !Nat.mul_1_r.
  eexists. split; [reflexivity |]. simpl.
  split; [reflexivity |].
  set (F := fun g : list scalar =>
              map (fun r => mean (column r (rows v k g))) (seq 0 k)).
  set (R := rows n (v * k) (data t)).
  assert (Hblocks : Forall (fun b => length b = k) (map F R)).
  { apply Forall_map, Forall_forall. intros g _. unfold F.
    rewrite length_map, length_seq. reflexivity. }
  split.
  - unfold wf. simpl. rewrite flat_map_concat_map.
    rewrite (length_concat_blocks Hblocks), length_map.
    unfold R. rewrite rows_length. lia.
  - intros i j Hi Hj. rewrite flat_map_concat_map.
    set (g := firstn (v * k) (skipn (i * (v * k)) (data t))).
    rewrite (@nth_error_concat_block _ k _ Hblocks i (F g) j).
    + unfold F. rewrite nth_error_map, nth_error_seq.
      destruct (Nat.ltb_spec j k); [| lia]. simpl. do 2 f_equal.
      assert (Hg : length g = v * k).
      { unfold g. rewrite length_firstn, length_skipn. nia. }
      rewrite (@column_rows g v k j Hg Hj).
      apply map_ext_in. intros u Hu. apply in_seq in Hu.
      apply nth_error_nth.
      unfold g. rewrite nth_error_block by nia.
      replace (i * (v * k) + (u * k + j)) with ((i * v + u) * k + j) by nia.
      apply nth_error_nth'. rewrite Hlen. nia.
    + rewrite nth_error_map. unfold R.
      rewrite nth_error_rows by exact Hi. reflexivity.
    + exact Hj.
Qed.

Lemma shape_eqb_true (s1 s2 : list nat) : shape_eqb s1 s2 = true -> s1 = s2.
Proof.
  unfold shape_eqb. destruct (list_eq_dec Nat.eq_dec s1 s2); congruence.
Qed.

Lemma shape_eqb_refl (s : list nat) : shape_eqb s s = true.
Proof.
  unfold shape_eqb. destruct (list_eq_dec Nat.eq_dec s s); congruence.
Qed.

Lemma select_last_ok_inv {A} (i : nat) (t u : tensor A) :
  select_last i t = Ok u ->
  exists lead k, shape t = lead ++ [k] /\ i < k.
Proof.
  unfold select_last. intros H.
  destruct (rev (shape t)) as [| k lead_rev] eqn:Hrev; [discriminate |].
  destruct (Nat.ltb_spec i k); [| discriminate].
  exists (rev lead_rev), k. split; [| assumption].
  rewrite <- (rev_involutive (shape t)), Hrev. reflexivity.
Qed.

Section MoreEvalFacts.

Variables AccuracyResult CalibrationEstimate RocAucResult : Type.
Variable accuracy_ci : tensor Z -> tensor Z -> result AccuracyResult.
Variable roc_auc_ci : tensor Z -> tensor scalar -> result RocAucResult.
Variable calibration_error :
  tensor Z -> tensor scalar -> result CalibrationEstimate.
Variable sigmoid : scalar -> scalar.

Let eval_results :=
  calc_eval_results accuracy_ci roc_auc_ci calibration_error sigmoid.
Let evaluate :=
  evaluate_preds accuracy_ci roc_auc_ci calibration_error sigmoid.

Lemma calc_auroc_ok_mode y_logits y_true (mode : string) k (a : RocAucResult) :
  calc_auroc roc_auc_ci y_logits y_true mode k = Ok a ->
  mode = "none"%string \/ mode = "partial"%string \/ mode = "full"%string.
Proof.
  unfold calc_auroc. intros H.
  destruct (String.eqb mode "none") eqn:E0;
    [apply String.eqb_eq in E0; auto |].
  destruct (String.eqb mode "partial") eqn:E1;
    [apply String.eqb_eq in E1; auto |].
  destruct (String.eqb mode "full") eqn:E2;
    [apply String.eqb_eq in E2; auto |].
  discriminate.
Qed.

Lemma calc_eval_results_ok_inv y_true y_logits mode k r :
  eval_results y_true y_logits mode k = Ok r ->
  (exists lead c, shape y_logits = lead ++ [c] /\ 2 <= c) /\
  (mode = "none"%string \/ mode = "partial"%string \/ mode = "full"%string).
Proof.
  unfold eval_results, calc_eval_results. intros H.
  apply bind_ok_inv in H as (acc & _ & H).
  apply bind_ok_inv in H as (diff & Hdiff & H).
  apply bind_ok_inv in H as (cal_acc & _ & H).
  apply bind_ok_inv in H as (cal_err & _ & H).
  apply bind_ok_inv in H as (auroc & Hauroc & _).
  split.
  - unfold logit_difference in Hdiff.
    apply bind_ok_inv in Hdiff as (l1 & Hl1 & _).
    apply select_last_ok_inv in Hl1 as (lead & c & Hs & Hc).
    exists lead, c. split; [exact Hs | lia].
  - eapply calc_auroc_ok_mode. exact Hauroc.
Qed.

(** X3. [evaluate_preds] returns a result only for logits with three
    axes [(n, v, k)], a ground truth of shape [(n,)], at least two classes
    and a mode among [none], [partial] and [full]; on any other input it
    raises, whatever the estimators do. *)
Theorem evaluate_preds_returns_only_on_valid_input
        (y_true : tensor Z) (y_logits : tensor scalar) (mode : string) r :
  evaluate y_true y_logits mode = Ok r ->
  exists n v k,
    shape y_logits = [n; v; k] /\
    shape y_true = [n] /\
    2 <= k /\
    (mode = "none"%string \/ mode = "partial"%string \/ mode = "full"%string).
Proof.
  unfold evaluate, evaluate_preds. intros H.
  destruct (shape y_logits) as [| n [| v [| k [| ? ?]]]] eqn:Hs;
    try discriminate.
  destruct (shape_eqb (shape y_true) [n]) eqn:Ht; [| discriminate].
  apply shape_eqb_true in Ht.
  exists n, v, k. split; [reflexivity |]. split; [exact Ht |].
  destruct (String.eqb mode "full") eqn:Hfull.
  - apply bind_ok_inv in H as (avg & Havg & H).
    apply calc_eval_results_ok_inv in H as [(lead & c & Hshape & Hc) Hmode].
    split; [| exact Hmode].
    unfold mean_dim in Havg. rewrite Hs in Havg. simpl in Havg.
    injection Havg as <-. simpl in Hshape.
    destruct lead as [| a [| b [| ? ?]]]; simpl in Hshape;
      try discriminate; congruence.
  - apply bind_ok_inv in H as (wide & _ & H).
    apply calc_eval_results_ok_inv in H as [(lead & c & Hshape & Hc) Hmode].
    split; [| exact Hmode].
    rewrite Hs in Hshape.
    destruct lead as [| a [| b [| ? [| ? ?]]]]; simpl in Hshape;
      try discriminate; congruence.
Qed.

(** X4. In mode [full], [evaluate_preds] scores a well-formed [(n, k)]
    tensor whose entry for example [i] and class [j] is the mean of the
    logits of that example and class over the [v] variants, whatever [v]
    is. *)
Theorem evaluate_preds_full_scores_variant_means
        (y_true : tensor Z) (y_logits : tensor scalar) (n v k : nat) :
  shape y_logits = [n; v; k] -> wf y_logits -> shape y_true = [n] ->
  exists avg,
    shape avg = [n; k] /\
    wf avg /\
    (forall i j,
        i < n -> j < k ->
        nth_error (data avg) (i * k + j) =
        Some (mean (map (fun u => nth ((i * v + u) * k + j)
                                      (data y_logits) NaN)
                        (seq 0 v)))) /\
    evaluate y_true y_logits "full" = eval_results y_true avg "full" k.
Proof.
  intros Hs Hwf Ht.
  destruct (@mean_dim_1_elements y_logits n v k Hs Hwf) as (avg & Havg & Hshape & Hwfa & Hel).
  exists avg. repeat split; try assumption.
  unfold evaluate, evaluate_preds.
  rewrite Hs, Ht, shape_eqb_refl. simpl String.eqb. cbv iota.
  rewrite Havg. reflexivity.
Qed.

(** X5. In every mode other than [full], [evaluate_preds] scores the
    logits as they are against a well-formed [(n, v)] ground truth in
    which the label of each example is repeated for each of its [v]
    variants. *)
Theorem evaluate_preds_broadcasts_ground_truth
        (y_true : tensor Z) (y_logits : tensor scalar) (mode : string)
        (n v k : nat) :
  shape y_logits = [n; v; k] -> shape y_true = [n] -> wf y_true ->
  mode <> "full"%string ->
  exists wide,
    shape wide = [n; v] /\
    wf wide /\
    (forall i u label,
        nth_error (data y_true) i = Some label -> u < v ->
        nth_error (data wide) (i * v + u) = Some label) /\
    evaluate y_true y_logits mode = eval_results wide y_logits mode k.
Proof.
  intros Hs Ht Hwf Hmode.
  assert (Hlen : length (data y_true) = n).
  { unfold wf in Hwf. rewrite Ht in Hwf. simpl in Hwf. lia. }
  set (blocks := map (fun x : Z => repeat x v) (data y_true)).
  assert (Hblocks : Forall (fun b => length b = v) blocks).
  { apply Forall_map, Forall_forall. intros x _. apply repeat_length. }
  exists (Tensor [n; v] (flat_map (fun x => repeat x v) (data y_true))).
  split; [reflexivity |]. split; [| split].
  - unfold wf. simpl. rewrite flat_map_concat_map. fold blocks.
    rewrite (length_concat_blocks Hblocks). unfold blocks.
    rewrite length_map, Hlen. lia.
  - intros i u label Hi Hu. simpl. rewrite flat_map_concat_map. fold blocks.
    rewrite (@nth_error_concat_block _ v blocks Hblocks i (repeat label v) u).
    + apply nth_error_repeat. exact Hu.
    + unfold blocks. rewrite nth_error_map, Hi. reflexivity.
    + exact Hu.
  - unfold evaluate, evaluate_preds.
    rewrite Hs, Ht, shape_eqb_refl.
    apply String.eqb_neq in Hmode. rewrite Hmode.
    unfold repeat_n_v. rewrite Ht. reflexivity.
Qed.

(** X6. In mode [partial] or [full] with a number of classes other than
    2, [calc_auroc] hands the estimator the one-hot encoding of the
    ground truth, with one more axis than the ground truth and not
    flattened, together with the logits as they are; a label outside
    [0, k) makes it raise [RuntimeError] before the estimator is
    called. *)
Theorem multiclass_auroc_is_one_vs_rest
        (y_logits : tensor scalar) (y_true : tensor Z) (mode : string)
        (k : nat) :
  mode = "partial"%string \/ mode = "full"%string -> k <> 2 ->
  (Forall (fun l => (0 <= l < Z.of_nat k)%Z) (data y_true) ->
   calc_auroc roc_auc_ci y_logits y_true mode k =
   roc_auc_ci (Tensor (shape y_true ++ [k])
                      (flat_map (Spec.one_hot_vector k) (data y_true)))
              y_logits) /\
  (Exists (fun l => ~ (0 <= l < Z.of_nat k)%Z) (data y_true) ->
   calc_auroc roc_auc_ci y_logits y_true mode k = Raise RuntimeError).
Proof.
  intros Hmode Hk.
  assert (H : calc_auroc roc_auc_ci y_logits y_true mode k =
              (hot <- to_one_hot y_true k ;; roc_auc_ci hot y_logits)).
  { apply Nat.eqb_neq in Hk.
    destruct Hmode as [-> | ->]; unfold calc_auroc; simpl String.eqb;
      cbv iota; simpl orb; cbv iota; rewrite Hk; reflexivity. }
  rewrite H. split.
  - intros Hrange. rewrite to_one_hot_in_range by exact Hrange. reflexivity.
  - intros Hbad. unfold to_one_hot.
    rewrite mapM_one_hot_row_raises by exact Hbad. reflexivity.
Qed.

Lemma column_rows_nil {A} (i m k : nat) :
  column i (rows m k (@nil A)) = [].
Proof.
  unfold rows, column. induction (seq 0 m) as [| a l IH]; simpl.
  - reflexivity.
  - rewrite skipn_nil, firstn_nil. destruct i; simpl; exact IH.
Qed.

Lemma logit_difference_nil (y_logits diff : tensor scalar) :
  data y_logits = [] -> logit_difference y_logits = Ok diff -> data diff = [].
Proof.
  intros Hd H. unfold logit_difference, select_last in H.
  destruct (rev (shape y_logits)) as [| k lead_rev]; [discriminate |].
  rewrite Hd in H.
  destruct (1 <? k); [| discriminate].
  destruct (0 <? k); [| discriminate].
  simpl in H. injection H as <-. simpl.
  rewrite !column_rows_nil. reflexivity.
Qed.

Lemma calc_eval_results_empty_binary y_true y_logits mode :
  data y_logits = [] ->
  exists e, eval_results y_true y_logits mode 2 = Raise e.
Proof.
  intros Hd. unfold eval_results, calc_eval_results.
  destruct (calc_accuracies accuracy_ci y_logits y_true) as [acc | e];
    [| exists e; reflexivity].
  cbn [bind].
  destruct (logit_difference y_logits) as [diff | e] eqn:Hdiff;
    [| exists e; reflexivity].
  cbn [bind]. apply (@logit_difference_nil y_logits diff Hd) in Hdiff.
  simpl Nat.eqb. cbv iota.
  unfold calc_calibrated_accuracies. simpl data. rewrite Hdiff.
  exists RuntimeError. reflexivity.
Qed.

(** X7. With no example and two classes [evaluate_preds] raises in every
    mode: the calibrated threshold is a quantile of an empty tensor. *)
Theorem evaluate_preds_raises_without_examples
        (y_true : tensor Z) (y_logits : tensor scalar) (mode : string)
        (v : nat) :
  shape y_logits = [0; v; 2] -> wf y_logits ->
  exists e, evaluate y_true y_logits mode = Raise e.
Proof.
  intros Hs Hwf.
  assert (Hd : data y_logits = []).
  { unfold wf in Hwf. rewrite Hs in Hwf. simpl in Hwf.
    destruct (data y_logits); [reflexivity | discriminate]. }
  unfold evaluate, evaluate_preds. rewrite Hs.
  destruct (shape_eqb (shape y_true) [0]); [| eexists; reflexivity].
  destruct (String.eqb mode "full").
  - unfold mean_dim. rewrite Hs. simpl. cbn [bind].
    apply calc_eval_results_empty_binary. reflexivity.
  - destruct (repeat_n_v y_true v) as [wide | e]; [| exists e; reflexivity].
    cbn [bind]. apply calc_eval_results_empty_binary. exact Hd.
Qed.

End MoreEvalFacts.

(* ------------------------------------------------------------------ *)
(** ** Reading the flat mapping back *)

Section LookupFacts.

Context {V : Type}.

Lemma get_app (d1 d2 : Dict.dict V) (k : string) :
  Lookup.get (d1 ++ d2) k =
  match Lookup.get d1 k with
  | Some v => Some v
  | None => Lookup.get d2 k
  end.
Proof.
  induction d1 as [| [k' v'] d1 IH]; simpl.
  - reflexivity.
  - destruct (String.eqb k k'); [reflexivity | exact IH].
Qed.

Lemma get_absent (d : Dict.dict V) (k : string) :
  ~ In k (Dict.keys d) -> Lookup.get d k = None.
Proof.
  induction d as [| [k' v'] d IH]; simpl; intros Hk.
  - reflexivity.
  - destruct (String.eqb k k') eqn:E.
    + apply String.eqb_eq in E. exfalso. apply Hk. left. congruence.
    + apply IH. intros Hin. apply Hk. right. exact Hin.
Qed.

End LookupFacts.

Lemma eqb_append_l (p a b : string) :
  String.eqb (p ++ a) (p ++ b) = String.eqb a b.
Proof.
  destruct (String.eqb a b) eqn:E.
  - apply String.eqb_eq in E. subst. apply String.eqb_refl.
  - apply String.eqb_neq. intros H. apply append_inj_l in H.
    apply String.eqb_neq in E. contradiction.
Qed.

Lemma get_prefixed (prefix tag : string) (d : Dict.dict scalar) (f : string) :
  Lookup.get (prefixed prefix tag d) (prefix ++ tag ++ f) = Lookup.get d f.
Proof.
  induction d as [| [k v] d IH]; simpl.
  - reflexivity.
  - rewrite !eqb_append_l. destruct (String.eqb f k); [reflexivity | exact IH].
Qed.

Section ToDictLookup.

Variables AccuracyResult CalibrationEstimate RocAucResult : Type.
Variable fields_AccuracyResult : AccuracyResult -> list (string * scalar).
Variable fields_RocAucResult : RocAucResult -> list (string * scalar).
Variable ece : CalibrationEstimate -> scalar.

Let Result := EvalResult AccuracyResult CalibrationEstimate RocAucResult.
Let asdict_acc := asdict_AccuracyResult fields_AccuracyResult.
Let asdict_roc := asdict_RocAucResult fields_RocAucResult.
Let flat_mapping := to_dict fields_AccuracyResult fields_RocAucResult ece.

Lemma get_prefixed_other (prefix tag tag' : string) (d : Dict.dict scalar)
      (f : string) :
  (forall x y, (prefix ++ tag ++ x)%string <> (prefix ++ tag' ++ y)%string) ->
  Lookup.get (prefixed prefix tag d) (prefix ++ tag' ++ f) = None.
Proof.
  intros Hclash. apply get_absent. intros Hin.
  apply in_keys_prefixed in Hin as (x & Hx).
  symmetry in Hx. revert Hx. apply Hclash.
Qed.

(** X8. Every metric can be read back from the flat mapping: the value
    of a field of the accuracy, AUROC or calibrated-accuracy result is
    found under the key made of the prefix, the metric tag and the field
    name, and the calibration error under the key [ece]; no key of one
    metric shadows a key of another. *)
Theorem to_dict_round_trip (self : Result) (prefix : string) :
  (forall f x,
      Lookup.get (asdict_roc (roc_auc self)) f = Some x ->
      Lookup.get (flat_mapping self prefix) (prefix ++ "auroc_" ++ f) = Some x) /\
  (forall f x,
      Lookup.get (asdict_acc (accuracy self)) f = Some x ->
      Lookup.get (flat_mapping self prefix) (prefix ++ "acc_" ++ f) = Some x) /\
  (forall c f x,
      cal_accuracy self = Some c ->
      Lookup.get (asdict_acc c) f = Some x ->
      Lookup.get (flat_mapping self prefix) (prefix ++ "cal_acc_" ++ f)
      = Some x) /\
  (forall c,
      calibration self = Some c ->
      Lookup.get (flat_mapping self prefix) (prefix ++ "ece") = Some (ece c)).
Proof.
  unfold flat_mapping. rewrite to_dict_items.
  fold asdict_acc asdict_roc.
  repeat split.
  - intros f x Hf. rewrite get_app, get_prefixed, Hf. reflexivity.
  - intros f x Hf. rewrite get_app.
    rewrite get_prefixed_other by (intros s1 s2; apply auroc_not_acc).
    rewrite get_app.
    destruct (cal_accuracy self).
    + rewrite get_prefixed_other by (intros s1 s2; apply cal_acc_not_acc).
      rewrite get_app, get_prefixed, Hf. reflexivity.
    + simpl Lookup.get at 1. cbv iota.
      rewrite get_app, get_prefixed, Hf. reflexivity.
  - intros c f x Hc Hf. rewrite get_app.
    rewrite get_prefixed_other by (intros s1 s2; apply auroc_not_cal_acc).
    rewrite get_app, Hc, get_prefixed, Hf. reflexivity.
  - intros c Hc. rewrite Hc.
    assert (Hroc : Lookup.get
                     (prefixed prefix "auroc_" (asdict_roc (roc_auc self)))
                     (prefix ++ "ece") = None).
    { apply get_absent. intros Hin.
      apply in_keys_prefixed in Hin as (y & Hy).
      symmetry in Hy. revert Hy. apply auroc_not_ece. }
    assert (Hacc : Lookup.get
                     (prefixed prefix "acc_" (asdict_acc (accuracy self)))
                     (prefix ++ "ece") = None).
    { apply get_absent. intros Hin.
      apply in_keys_prefixed in Hin as (y & Hy).
      symmetry in Hy. revert Hy. apply acc_not_ece. }
    assert (Hcal : forall a,
               Lookup.get (prefixed prefix "cal_acc_" (asdict_acc a))
                          (prefix ++ "ece") = None).
    { intros a. apply get_absent. intros Hin.
      apply in_keys_prefixed in Hin as (y & Hy).
      symmetry in Hy. revert Hy. apply cal_acc_not_ece. }
    rewrite get_app, Hroc, get_app.
    destruct (cal_accuracy self).
    + rewrite Hcal, get_app, Hacc. simpl. rewrite String.eqb_refl. reflexivity.
    + simpl Lookup.get at 1. cbv iota.
      rewrite get_app, Hacc. simpl. rewrite String.eqb_refl. reflexivity.
Qed.

End ToDictLookup.

(* ------------------------------------------------------------------ *)
(** ** What layer ensembling reads *)

Lemma getitem_0 {A} (xs : list A) :
  getitem xs 0 = match xs with x :: _ => Ok x | [] => Raise IndexError end.
Proof.
  change 0%Z with (Z.of_nat 0). rewrite getitem_nat. destruct xs; reflexivity.
Qed.

Lemma ensembling_step_same (a b : list LayerOutput) :
  Sweep.same_credences a b ->
  fmap fst (ensembling_step a) = fmap fst (ensembling_step b).
Proof.
  unfold ensembling_step, fmap. rewrite !getitem_0.
  destruct a as [| fa a], b as [| fb b]; simpl; intros H;
    try contradiction; try reflexivity.
  rewrite H. destruct (mean_dim 1 (val_credences fb)); reflexivity.
Qed.

Lemma ensembling_steps_same (outs outs' : list (list LayerOutput)) :
  Forall2 Sweep.same_credences outs outs' ->
  fmap (map fst) (mapM ensembling_step outs) =
  fmap (map fst) (mapM ensembling_step outs').
Proof.
  induction 1 as [| a b outs outs' Hab _ IH]; simpl.
  - reflexivity.
  - apply ensembling_step_same in Hab. unfold fmap in *.
    destruct (ensembling_step a) as [[ma ga] | ea],
             (ensembling_step b) as [[mb gb] | eb];
      simpl in Hab; try discriminate;
      [| injection Hab as ->; reflexivity].
    injection Hab as ->. simpl.
    destruct (mapM ensembling_step outs) as [c | e],
             (mapM ensembling_step outs') as [c' | e'];
      simpl in *; try discriminate; congruence.
Qed.

Lemma ensembling_steps_ground_truth (outs : list (list LayerOutput))
      (collected : list (tensor scalar * tensor Z)) :
  mapM ensembling_step outs = Ok collected ->
  forall i, nth_error (map snd collected) i =
            match nth_error outs i with
            | Some lo => Sweep.first_ground_truth lo
            | None => None
            end.
Proof.
  revert collected; induction outs as [| lo outs IH]; simpl;
    intros collected H i.
  - injection H as <-. destruct i; reflexivity.
  - apply bind_ok_inv in H as ([m g] & Hstep & H).
    apply bind_ok_inv in H as (rest & Hrest & H). injection H as <-.
    destruct i as [| i]; simpl.
    + unfold ensembling_step in Hstep. rewrite getitem_0 in Hstep.
      destruct lo as [| first lo]; [discriminate |]. simpl in *.
      destruct (mean_dim 1 (val_credences first)); [| discriminate].
      simpl in Hstep. injection Hstep as _ <-. reflexivity.
    + apply IH. exact Hrest.
Qed.

Section EnsemblingReads.

Variables AccuracyResult CalibrationEstimate RocAucResult : Type.
Variable accuracy_ci : tensor Z -> tensor Z -> result AccuracyResult.
Variable roc_auc_ci : tensor Z -> tensor scalar -> result RocAucResult.
Variable calibration_error :
  tensor Z -> tensor scalar -> result CalibrationEstimate.
Variable sigmoid : scalar -> scalar.

Let ensemble :=
  layer_ensembling accuracy_ci roc_auc_ci calibration_error sigmoid.

(** Sweeps with the same credences and the same ground truth at index
    [len // 2 + 2] are ensembled alike. *)
Lemma layer_ensembling_same_reads
        (outs outs' : list (list LayerOutput)) :
  Forall2 Sweep.same_credences outs outs' ->
  (forall lo lo',
      nth_error outs (length outs / 2 + 2) = Some lo ->
      nth_error outs' (length outs / 2 + 2) = Some lo' ->
      Sweep.first_ground_truth lo = Sweep.first_ground_truth lo') ->
  ensemble outs = ensemble outs'.
Proof.
  intros Hsame Hgt.
  pose proof (Forall2_length Hsame) as Hlen.
  pose proof (ensembling_steps_same Hsame) as Hsteps.
  unfold ensemble, layer_ensembling.
  destruct (mapM ensembling_step outs) as [c | e] eqn:Hc,
           (mapM ensembling_step outs') as [c' | e'] eqn:Hc';
    unfold fmap in Hsteps; simpl in Hsteps; try discriminate;
    [| injection Hsteps as ->; reflexivity].
  injection Hsteps as Hmeans. cbn [bind].
  pose proof (mapM_length _ _ Hc) as Hlc.
  pose proof (mapM_length _ _ Hc') as Hlc'.
  rewrite !length_map, Hlc, Hlc', <- Hlen, Hmeans.
  assert (Hclasses :
            forall K : nat -> result (EvalResult AccuracyResult
                                          CalibrationEstimate RocAucResult),
              (layer0 <- getitem outs 0 ;;
               first0 <- getitem layer0 0 ;;
               num_classes <- getitem (shape (val_credences first0)) 2 ;;
               K num_classes) =
              (layer0 <- getitem outs' 0 ;;
               first0 <- getitem layer0 0 ;;
               num_classes <- getitem (shape (val_credences first0)) 2 ;;
               K num_classes)).
  { intros K. rewrite !getitem_0.
    destruct Hsame as [| a b ? ? Hab _]; [reflexivity |]. cbn [bind].
    rewrite !getitem_0.
    destruct a as [| fa a], b as [| fb b]; simpl in Hab;
      try contradiction; [reflexivity |].
    cbn [bind]. rewrite Hab. reflexivity. }
  assert (Htruth : getitem (skipn (length outs / 2) (map snd c)) 2 =
                   getitem (skipn (length outs / 2) (map snd c')) 2).
  { change 2%Z with (Z.of_nat 2). rewrite !getitem_nat, !nth_error_skipn.
    rewrite (ensembling_steps_ground_truth _ Hc),
            (ensembling_steps_ground_truth _ Hc').
    destruct (nth_error outs (length outs / 2 + 2)) as [lo |] eqn:Hlo,
             (nth_error outs' (length outs / 2 + 2)) as [lo' |] eqn:Hlo'.
    - rewrite (Hgt lo lo' eq_refl eq_refl). reflexivity.
    - exfalso. apply nth_error_None in Hlo'.
      assert (length outs / 2 + 2 < length outs)
        by (apply nth_error_Some; congruence). lia.
    - exfalso. apply nth_error_None in Hlo.
      assert (length outs / 2 + 2 < length outs')
        by (apply nth_error_Some; congruence). lia.
    - reflexivity. }
  rewrite Htruth. apply Hclasses.
Qed.


(** X9. [layer_ensembling] reads the ground truth of one layer only, the
    layer at index [len // 2 + 2] of the sweep: two sweeps whose layers
    carry the same credences and that agree on the ground truth of that
    layer give the same result, whatever the ground truths of the other
    layers are. *)
Theorem layer_ensembling_reads_one_ground_truth
        (outs outs' : list (list LayerOutput)) :
  Forall2 Sweep.same_credences outs outs' ->
  (forall lo lo',
      nth_error outs (length outs / 2 + 2) = Some lo ->
      nth_error outs' (length outs / 2 + 2) = Some lo' ->
      Sweep.first_ground_truth lo = Sweep.first_ground_truth lo') ->
  ensemble outs = ensemble outs'.
Proof. apply layer_ensembling_same_reads. Qed.

(** X21. [layer_ensembling] reads the first entry of every layer output
    and nothing else: in a run over several datasets, where a layer
    output has one entry per dataset, only the first dataset is
    ensembled. *)
Theorem layer_ensembling_reads_first_entries
        (outs : list (list LayerOutput)) :
  ensemble outs = ensemble (map (firstn 1) outs).
Proof.
  apply layer_ensembling_same_reads.
  - induction outs as [| lo outs IH]; constructor; [| exact IH].
    destruct lo; simpl; reflexivity.
  - intros lo lo' Hlo Hlo'.
    rewrite nth_error_map, Hlo in Hlo'. injection Hlo' as <-.
    destruct lo; reflexivity.
Qed.

End EnsemblingReads.

(* ------------------------------------------------------------------ *)
(** ** Further properties of the layer sweep *)

Module MoreRunFacts.

Import Run.

(** X10. For a world size between 1 and the number of devices,
    [get_device] never raises: a process is given the device at index
    [pid mod world_size], one of the first [world_size] devices, and two
    processes whose identifiers differ by a multiple of the world size
    are given the same device. *)
Theorem get_device_in_world (devices : list string) (world_size pid : Z) :
  (0 <= pid)%Z ->
  (1 <= world_size <= Z.of_nat (length devices))%Z ->
  (exists device,
      Device.get_device devices world_size pid = Return device /\
      nth_error devices (Z.to_nat (pid mod world_size)) = Some device /\
      In device (firstn (Z.to_nat world_size) devices)) /\
  (forall m,
      Device.get_device devices world_size (pid + m * world_size) =
      Device.get_device devices world_size pid).
Proof.
  intros Hpid Hws.
  assert (Hrank : (0 <= pid mod world_size < world_size)%Z)
    by (apply Z.mod_pos_bound; lia).
  unfold Device.get_device.
  destruct (world_size =? 0)%Z eqn:Hz; [apply Z.eqb_eq in Hz; lia |].
  split.
  - set (rank := Z.to_nat (pid mod world_size)).
    assert (Hr : rank < length devices) by (unfold rank; lia).
    destruct (nth_error devices rank) as [device |] eqn:Hd;
      [| apply nth_error_None in Hd; lia].
    exists device.
    replace (pid mod world_size)%Z with (Z.of_nat rank) by (unfold rank; lia).
    rewrite getitem_nat, Hd. split; [reflexivity |]. split; [reflexivity |].
    apply nth_error_In with (n := rank).
    rewrite nth_error_firstn.
    destruct (Nat.ltb_spec rank (Z.to_nat world_size)); [exact Hd |].
    unfold rank in *. lia.
  - intros m. rewrite Z_mod_plus_full. reflexivity.
Qed.

Lemma length_replace_nth {A} (n : nat) (x : A) (xs : list A) :
  length (replace_nth n x xs) = length xs.
Proof.
  revert n; induction xs as [| y xs IH]; intros n; destruct n; simpl;
    try reflexivity.
  rewrite IH. reflexivity.
Qed.

Lemma firstn_replace_nth {A} (n o : nat) (x : A) (xs : list A) :
  o <= n -> firstn o (replace_nth n x xs) = firstn o xs.
Proof.
  revert n o; induction xs as [| y xs IH]; intros n o Hon;
    destruct n as [| n]; simpl; try reflexivity.
  - replace o with 0 by lia. reflexivity.
  - destruct o as [| o]; simpl; [reflexivity |].
    rewrite IH by lia. reflexivity.
Qed.

Lemma setitem_ok_inv {A} (xs xs' : list A) (i : Z) (x : A) :
  setitem xs i x = Ok xs' ->
  length xs' = length xs /\
  forall o, (0 <= i)%Z -> (Z.of_nat o <= i)%Z -> firstn o xs' = firstn o xs.
Proof.
  unfold setitem. intros H.
  destruct (i <? 0)%Z eqn:Hneg.
  - destruct ((0 <=? Z.of_nat (length xs) + i) &&
              (Z.of_nat (length xs) + i <? Z.of_nat (length xs)))%Z;
      [| discriminate].
    injection H as <-. split; [apply length_replace_nth |].
    intros o Hi. apply Z.ltb_lt in Hneg. lia.
  - destruct ((0 <=? i) && (i <? Z.of_nat (length xs)))%Z; [| discriminate].
    injection H as <-. split; [apply length_replace_nth |].
    intros o Hi Ho. apply firstn_replace_nth. lia.
Qed.

Lemma concatenate_loop_keeps (offset : Z) (turns : nat) :
  forall (layer : Z) (layers layers' : list layer_unit),
    concatenate_loop offset layer turns layers = Ok layers' ->
    length layers' = length layers /\
    forall o, (0 <= layer)%Z -> (Z.of_nat o <= layer)%Z ->
              firstn o layers' = firstn o layers.
Proof.
  induction turns as [| turns IH]; intros layer layers layers' H; simpl in H.
  - injection H as <-. split; reflexivity.
  - apply bind_ok_inv in H as (entry & _ & H).
    apply bind_ok_inv in H as (entry' & _ & H).
    apply bind_ok_inv in H as (mid & Hset & H).
    apply setitem_ok_inv in Hset as [Hlen Hpre].
    apply IH in H as [Hlen' Hpre'].
    split; [congruence |].
    intros o Hlayer Ho.
    rewrite Hpre' by lia. apply Hpre; assumption.
Qed.

(** X11. Whatever the entries are, when the orchestrator's resolution of
    the layer list returns, the list has as many entries as before and,
    for an offset above 0, its first [offset] entries are the ones it had
    before. *)
Theorem resolve_layers_keeps_length_and_prefix
        (cfg : Config) (layers layers' : list layer_unit) :
  resolve_layers cfg layers = Ok layers' ->
  length layers' = length layers /\
  firstn (Z.to_nat (concatenated_layer_offset cfg)) layers' =
  firstn (Z.to_nat (concatenated_layer_offset cfg)) layers.
Proof.
  unfold resolve_layers. intros H.
  destruct (0 <? concatenated_layer_offset cfg)%Z eqn:Hpos.
  - apply Z.ltb_lt in Hpos. unfold concatenate in H.
    apply concatenate_loop_keeps in H as [Hlen Hpre].
    split; [exact Hlen |]. apply Hpre; lia.
  - injection H as <-. split; reflexivity.
Qed.

(** X12. On a list of plain layer indices, as [get_layers] is annotated
    to return, an offset above 0 and below the number of layers makes
    [apply_to_layers] raise [TypeError] before any file is touched; with
    an offset of at least the number of layers the list is left as it
    is. *)
Theorem apply_to_layers_rejects_plain_indices
        (cfg : Config) (schedule : list layer_unit -> list layer_unit)
        (func : layer_unit -> result Row) (num_devices : Z)
        (indices : list Z) (files : Files) :
  ((0 < concatenated_layer_offset cfg < Z.of_nat (length indices))%Z ->
   apply_to_layers cfg schedule func num_devices (map LInt indices) files =
   (files, Raise TypeError)) /\
  ((Z.of_nat (length indices) <= concatenated_layer_offset cfg)%Z ->
   resolve_layers cfg (map LInt indices) = Ok (map LInt indices)).
Proof.
  split.
  - intros [Hpos Hlt]. unfold apply_to_layers, resolve_layers.
    destruct (0 <? concatenated_layer_offset cfg)%Z eqn:H0;
      [| apply Z.ltb_ge in H0; lia].
    set (offset := concatenated_layer_offset cfg) in *.
    unfold concatenate. rewrite length_map.
    destruct (Z.to_nat (Z.of_nat (length indices) - offset)) as [| turns]
      eqn:Hturns; [lia |].
    simpl concatenate_loop.
    replace offset with (Z.of_nat (Z.to_nat offset)) at 1 by lia.
    rewrite getitem_nat, nth_error_map.
    destruct (nth_error indices (Z.to_nat offset)) as [i |] eqn:Hi;
      [reflexivity |].
    apply nth_error_None in Hi. lia.
  - intros Hge. unfold resolve_layers.
    destruct (0 <? concatenated_layer_offset cfg)%Z; [| reflexivity].
    unfold concatenate. rewrite length_map.
    replace (Z.to_nat (Z.of_nat (length indices)
                       - concatenated_layer_offset cfg)) with 0 by lia.
    reflexivity.
Qed.









(** Without that condition the columns follow the order of arrival. *)
Example columns_follow_arrival_order :
  Frame.columns [mkRow 0 [("acc"%string, NaN)]; mkRow 1 [("loss"%string, NaN)]]
  = ["acc"; "loss"]%string /\
  Frame.columns [mkRow 1 [("loss"%string, NaN)]; mkRow 0 [("acc"%string, NaN)]]
  = ["loss"; "acc"]%string.
Proof. split; reflexivity. Qed.

(** X14. When no row has been received at the end of the loop, because
    the first result to arrive is a failure or because there is no layer,
    the exception that leaves [apply_to_layers] is the [KeyError] of the
    sort by layer, not the failure of the worker; [eval.csv] is left
    empty and the debug log is not saved. *)
Theorem apply_to_layers_raises_keyerror_without_rows
        (cfg : Config) (schedule : list layer_unit -> list layer_unit)
        (func : layer_unit -> result Row) (num_devices : Z)
        (layers layers' : list layer_unit) (files : Files) :
  (1 <= num_devices)%Z ->
  resolve_layers cfg layers = Ok layers' ->
  (mapper num_devices schedule func layers' = [] \/
   exists e rest,
     mapper num_devices schedule func layers' = Raise e :: rest) ->
  apply_to_layers cfg schedule func num_devices layers files =
  (mkFiles (Some []) (debug_log files), Raise KeyError).
Proof.
  intros Hdev Hres Hfirst. unfold apply_to_layers. rewrite Hres.
  destruct (num_devices <? 1)%Z eqn:Hlt; [apply Z.ltb_lt in Hlt; lia |].
  destruct Hfirst as [-> | (e & rest & ->)]; reflexivity.
Qed.

End MoreRunFacts.

(* ------------------------------------------------------------------ *)
(** ** Reducing pairs of hidden states *)

Section ReduceFacts.

Import Reduce.

Lemma select_dim1_elements {A} (t : tensor A) (n p d c : nat) :
  shape t = [n; p; d] -> wf t -> c < p ->
  exists u,
    select_dim1 c t = Ok u /\
    shape u = [n; d] /\
    wf u /\
    forall i j, i < n -> j < d ->
      nth_error (data u) (i * d + j) = nth_error (data t) ((i * p + c) * d + j).
Proof.
  intros Hs Hwf Hc.
  assert (Hlen : length (data t) = n * (p * d)).
  { unfold wf in Hwf. rewrite Hs in Hwf. simpl in Hwf. lia. }
  unfold select_dim1. rewrite Hs.
  destruct (Nat.ltb_spec c p); [| lia].
  simpl numel. rewrite !Nat.mul_1_r.
  eexists. split; [reflexivity |]. simpl shape. split; [reflexivity |].
  set (F := fun g : list A => firstn d (skipn (c * d) g)).
  set (R := rows n (p * d) (data t)).
  assert (HR : Forall (fun g => length g = p * d) R)
    by (apply rows_each_length; exact Hlen).
  assert (Hblocks : Forall (fun b => length b = d) (map F R)).
  { apply Forall_map. eapply Forall_impl; [| exact HR].
    intros g Hg. simpl in Hg. unfold F.
    rewrite length_firstn, length_skipn, Hg. nia. }
  split.
  - unfold wf. simpl. rewrite flat_map_concat_map.
    rewrite (length_concat_blocks Hblocks), length_map.
    unfold R. rewrite rows_length. lia.
  - intros i j Hi Hj. simpl data. rewrite flat_map_concat_map.
    set (g := firstn (p * d) (skipn (i * (p * d)) (data t))).
    rewrite (@nth_error_concat_block _ d _ Hblocks i (F g) j).
    + unfold F. rewrite nth_error_block by exact Hj.
      unfold g. rewrite nth_error_block by nia.
      f_equal. nia.
    + rewrite nth_error_map. unfold R.
      rewrite nth_error_rows by exact Hi. reflexivity.
    + exact Hj.
Qed.

Lemma nth_error_tzip {A B C} (f : A -> B -> C) (a : tensor A) (b : tensor B)
      (q : nat) (x : A) (y : B) :
  nth_error (data a) q = Some x -> nth_error (data b) q = Some y ->
  nth_error (data (tzip f a b)) q = Some (f x y).
Proof.
  unfold tzip. simpl. generalize (data a) (data b). clear a b.
  induction q as [| q IH]; intros la lb Ha Hb;
    destruct la as [| a0 la], lb as [| b0 lb]; try discriminate; simpl in *.
  - congruence.
  - apply IH; assumption.
Qed.

Lemma length_tzip {A B C} (f : A -> B -> C) (a : tensor A) (b : tensor B) :
  length (data a) = length (data b) ->
  length (data (tzip f a b)) = length (data a).
Proof.
  intros H. unfold tzip. simpl.
  rewrite length_map, length_combine, <- H. apply Nat.min_id.
Qed.

(** X15. For well-formed hidden states of shape [(n, 2, d)], mode
    [minus] returns a well-formed [(n, d)] tensor whose entry [(i, j)] is
    the entry [(i, 0, j)] minus the entry [(i, 1, j)], and mode [concat]
    returns the same numbers under the shape [(n, 2 * d)]. *)
Theorem reduce_paired_states_minus_and_concat
        (hidden_states : tensor scalar) (n d : nat) :
  shape hidden_states = [n; 2; d] -> wf hidden_states ->
  (exists diff,
      reduce_paired_states hidden_states "minus" = Return diff /\
      shape diff = [n; d] /\
      wf diff /\
      forall i j x y,
        i < n -> j < d ->
        nth_error (data hidden_states) ((i * 2 + 0) * d + j) = Some x ->
        nth_error (data hidden_states) ((i * 2 + 1) * d + j) = Some y ->
        nth_error (data diff) (i * d + j) = Some (ssub x y)) /\
  reduce_paired_states hidden_states "concat" =
  Return (Tensor [n; 2 * d] (data hidden_states)).
Proof.
  intros Hs Hwf. split.
  - destruct (@select_dim1_elements _ hidden_states n 2 d 0 Hs Hwf)
      as (first & H0 & Hs0 & Hwf0 & Hel0); [lia |].
    destruct (@select_dim1_elements _ hidden_states n 2 d 1 Hs Hwf)
      as (second & H1 & Hs1 & Hwf1 & Hel1); [lia |].
    exists (tzip ssub first second).
    unfold reduce_paired_states. simpl isdigit. cbv iota.
    simpl String.eqb. cbv iota. rewrite H0, H1. cbn [bind lift].
    split; [reflexivity |].
    split; [unfold tzip; simpl; exact Hs0 |].
    assert (Hlen : length (data first) = length (data second)).
    { unfold wf in Hwf0, Hwf1. rewrite Hwf0, Hwf1, Hs0, Hs1. reflexivity. }
    split.
    + unfold wf. rewrite (length_tzip _ _ _ Hlen).
      unfold tzip. simpl shape. exact Hwf0.
    + intros i j x y Hi Hj Hx Hy.
      apply nth_error_tzip.
      * rewrite (Hel0 i j Hi Hj). exact Hx.
      * rewrite (Hel1 i j Hi Hj). exact Hy.
  - unfold reduce_paired_states. simpl isdigit. cbv iota.
    simpl String.eqb. cbv iota.
    unfold flatten_from_1. rewrite Hs. simpl. rewrite Nat.mul_1_r, Nat.add_0_r.
    reflexivity.
Qed.

Lemma lift_not_unsupported {A} (m : result A) :
  lift m <> Throw NotImplementedError.
Proof. destruct m; discriminate. Qed.

(** X16. For a mode of ASCII characters, [reduce_paired_states] raises
    [NotImplementedError] exactly when the mode is neither a string of
    digits nor [minus] nor [concat], the empty mode among them, whatever
    the hidden states are. *)
Theorem reduce_paired_states_unsupported_mode
        (hidden_states : tensor scalar) (mode : string) :
  ascii_only mode = true ->
  (reduce_paired_states hidden_states mode = Throw NotImplementedError <->
   isdigit mode = false /\ mode <> "minus"%string /\ mode <> "concat"%string).
Proof.
  intros _. unfold reduce_paired_states.
  destruct (isdigit mode) eqn:Hd.
  - split; [intros H; exfalso; revert H; apply lift_not_unsupported |].
    intros [H _]. discriminate.
  - destruct (String.eqb mode "minus") eqn:Hm.
    + apply String.eqb_eq in Hm.
      split; [intros H; exfalso; revert H; apply lift_not_unsupported |].
      intros (_ & H & _). contradiction.
    + destruct (String.eqb mode "concat") eqn:Hc.
      * apply String.eqb_eq in Hc.
        split; [intros H; exfalso; revert H; apply lift_not_unsupported |].
        intros (_ & _ & H). contradiction.
      * apply String.eqb_neq in Hm, Hc. split; [| reflexivity].
        intros _. repeat split; assumption.
Qed.

(** X17. With a mode made of at most 4300 of the digits 0 to 9,
    [reduce_paired_states] keeps, for every example, the member of the
    pair at the index the digits denote: on well-formed hidden states of
    shape [(n, p, d)] it returns a well-formed [(n, d)] tensor when the
    index is below [p], and raises [IndexError] when it is not and fits a
    signed 64-bit integer. *)
Theorem reduce_paired_states_digit_mode
        (hidden_states : tensor scalar) (mode : string) (n p d : nat) :
  shape hidden_states = [n; p; d] -> wf hidden_states ->
  isdigit mode = true ->
  String.length mode <= 4300 ->
  (int mode < p ->
   exists kept,
     reduce_paired_states hidden_states mode = Return kept /\
     shape kept = [n; d] /\
     wf kept /\
     forall i j, i < n -> j < d ->
       nth_error (data kept) (i * d + j) =
       nth_error (data hidden_states) ((i * p + int mode) * d + j)) /\
  (p <= int mode -> (Z.of_nat (int mode) < 2 ^ 63)%Z ->
   reduce_paired_states hidden_states mode = Throw (Builtin IndexError)).
Proof.
  intros Hs Hwf Hd _. unfold reduce_paired_states. rewrite Hd. split.
  - intros Hlt.
    destruct (@select_dim1_elements _ hidden_states n p d (int mode)
                                    Hs Hwf Hlt)
      as (kept & Hk & Hsk & Hwfk & Hel).
    exists kept. rewrite Hk. repeat split; assumption.
  - intros Hge _. unfold select_dim1. rewrite Hs.
    destruct (Nat.ltb_spec (int mode) p); [lia | reflexivity].
Qed.

End ReduceFacts.

(* ------------------------------------------------------------------ *)
(** ** The rows of one layer *)

Section FoldFacts.

Import Train.

Context {S A : Type}.

Lemma foldM_preserves (f : S -> A -> result S) (P : S -> Prop) :
  (forall s x s', P s -> f s x = Ok s' -> P s') ->
  forall xs s s', P s -> foldM f xs s = Ok s' -> P s'.
Proof.
  intros Hstep. induction xs as [| x xs IH]; simpl; intros s s' Hs H.
  - injection H as <-. exact Hs.
  - apply bind_ok_inv in H as (s1 & H1 & H).
    apply (IH s1 s'); [eapply Hstep; eassumption | exact H].
Qed.

Lemma foldM_sum (f : S -> A -> result S) (m : S -> nat) (w : A -> nat) :
  (forall s x s', f s x = Ok s' -> m s' = m s + w x) ->
  forall xs s s',
    foldM f xs s = Ok s' -> m s' = m s + list_sum (map w xs).
Proof.
  intros Hstep. induction xs as [| x xs IH]; simpl; intros s s' H.
  - injection H as <-. lia.
  - apply bind_ok_inv in H as (s1 & H1 & H).
    rewrite (IH s1 s' H), (Hstep s x s1 H1). lia.
Qed.

End FoldFacts.

Lemma list_sum_const {A} (c : nat) (xs : list A) :
  list_sum (map (fun _ => c) xs) = length xs * c.
Proof. induction xs as [| x xs IH]; simpl; [reflexivity | rewrite IH; lia]. Qed.

Lemma list_sum_indicator {A} (c : nat) (p : A -> bool) (xs : list A) :
  list_sum (map (fun x => if p x then c else 0) xs) = length (filter p xs) * c.
Proof.
  induction xs as [| x xs IH]; simpl; [reflexivity |].
  rewrite IH. destruct (p x); simpl; lia.
Qed.

Section AppendFacts.

Import Train TrainCount.

Lemma get_append_row (bufs : row_bufs) (key key' : string) (r : row) :
  Lookup.get (append_row bufs key r) key' =
  if String.eqb key' key then Some (rows_of bufs key ++ [r])
  else Lookup.get bufs key'.
Proof.
  unfold rows_of.
  induction bufs as [| [k rs] bufs IH]; simpl.
  - destruct (String.eqb key' key); reflexivity.
  - destruct (String.eqb key k) eqn:Hk; simpl.
    + apply String.eqb_eq in Hk. subst k.
      destruct (String.eqb key' key) eqn:Hk'; [| reflexivity].
      reflexivity.
    + destruct (String.eqb key' k) eqn:Hk'.
      * apply String.eqb_eq in Hk'. subst k.
        destruct (String.eqb key' key) eqn:Hkk; [| reflexivity].
        apply String.eqb_eq in Hkk. subst key'.
        rewrite String.eqb_refl in Hk. discriminate.
      * exact IH.
Qed.

Lemma count_append_row (bufs : row_bufs) (key key' : string) (r : row) :
  count (append_row bufs key r) key' =
  count bufs key' + (if String.eqb key' key then 1 else 0).
Proof.
  unfold count, rows_of at 1. rewrite get_append_row.
  destruct (String.eqb key' key) eqn:Hk.
  - apply String.eqb_eq in Hk. subst key'.
    rewrite length_app. reflexivity.
  - fold (rows_of bufs key'). lia.
Qed.

Lemma rows_of_append_row_other (bufs : row_bufs) (key key' : string) (r : row) :
  String.eqb key' key = false ->
  rows_of (append_row bufs key r) key' = rows_of bufs key'.
Proof.
  intros Hk. unfold rows_of. rewrite get_append_row, Hk. reflexivity.
Qed.

Lemma rows_of_append_row_same (bufs : row_bufs) (key : string) (r : row) :
  rows_of (append_row bufs key r) key = rows_of bufs key ++ [r].
Proof.
  unfold rows_of at 1. rewrite get_append_row, String.eqb_refl. reflexivity.
Qed.

Lemma append_row_nonempty (bufs : row_bufs) (key : string) (r : row) :
  Forall (fun kv => snd kv <> []) bufs ->
  Forall (fun kv => snd kv <> []) (append_row bufs key r).
Proof.
  induction 1 as [| [k rs] bufs Hrs Hb IH]; simpl.
  - repeat constructor. discriminate.
  - destruct (String.eqb key k).
    + constructor; [| exact Hb]. simpl. destruct rs; discriminate.
    + constructor; [exact Hrs | exact IH].
Qed.

End AppendFacts.

Section TrainFacts.

Import Train TrainCount.

Variables AccuracyResult CalibrationEstimate RocAucResult : Type.
Variable fields_AccuracyResult : AccuracyResult -> list (string * scalar).
Variable fields_RocAucResult : RocAucResult -> list (string * scalar).
Variable ece : CalibrationEstimate -> scalar.
Variable accuracy_ci : tensor Z -> tensor Z -> result AccuracyResult.
Variable roc_auc_ci : tensor Z -> tensor scalar -> result RocAucResult.
Variable calibration_error :
  tensor Z -> tensor scalar -> result CalibrationEstimate.
Variable sigmoid : scalar -> scalar.
Variable PromptEnsembling : Type.
Variable all_modes : list PromptEnsembling.
Variable value : PromptEnsembling -> string.
Variable mode_key : PromptEnsembling -> string.

Let rows_for_mode :=
  mode_rows fields_AccuracyResult fields_RocAucResult ece accuracy_ci
            roc_auc_ci calibration_error sigmoid value mode_key.
Let rows_for_dataset :=
  dataset_rows fields_AccuracyResult fields_RocAucResult ece accuracy_ci
               roc_auc_ci calibration_error sigmoid all_modes value mode_key.
Let evaluate_layer :=
  evaluate_and_save fields_AccuracyResult fields_RocAucResult ece accuracy_ci
                    roc_auc_ci calibration_error sigmoid all_modes value
                    mode_key.

Lemma length_enumerate {A} (xs : list A) : length (enumerate xs) = length xs.
Proof.
  unfold enumerate. rewrite length_combine, length_map, length_seq.
  apply Nat.min_id.
Qed.

Lemma lr_rows_count meta mode_cell prompt_ensembling val_h val_gt
      (numbered : list (Z * (tensor scalar -> result (tensor scalar))))
      (bufs bufs' : row_bufs) (key : string) :
  foldM (fun bufs numbered =>
           preds <- snd numbered val_h ;;
           metrics <- metric_cells fields_AccuracyResult fields_RocAucResult
                                   ece accuracy_ci roc_auc_ci
                                   calibration_error sigmoid mode_key
                                   val_gt preds prompt_ensembling ;;
           Ok (append_row bufs "lr_eval"
                 (Dict.merge [meta; mode_cell;
                              [("inlp_iter"%string, CInt (fst numbered))];
                              metrics])))
        numbered bufs = Ok bufs' ->
  count bufs' key =
    count bufs key + (if String.eqb key "lr_eval" then length numbered else 0) /\
  (Forall (fun kv => snd kv <> []) bufs ->
   Forall (fun kv => snd kv <> []) bufs').
Proof.
  intros H. split.
  - match type of H with
    | foldM ?f _ _ = _ =>
        assert (Hstep : forall s x s',
                   f s x = Ok s' ->
                   count s' key =
                   count s key + (if String.eqb key "lr_eval" then 1 else 0))
    end.
    { intros s x s' Hstep.
      apply bind_ok_inv in Hstep as (preds & _ & Hstep).
      apply bind_ok_inv in Hstep as (metrics & _ & Hstep).
      injection Hstep as <-. apply count_append_row. }
    rewrite (foldM_sum _ (fun b => count b key)
                       (fun _ => if String.eqb key "lr_eval" then 1 else 0)
                       Hstep _ _ H).
    rewrite list_sum_const. destruct (String.eqb key "lr_eval"); lia.
  - intros Hne. revert H. apply foldM_preserves; [| exact Hne].
    intros s x s' Hs Hstep.
    apply bind_ok_inv in Hstep as (preds & _ & Hstep).
    apply bind_ok_inv in Hstep as (metrics & _ & Hstep).
    injection Hstep as <-. apply append_row_nonempty. exact Hs.
Qed.

Lemma mode_rows_count train_loss lr_models meta (val train : prepared)
      val_credences train_credences (bufs bufs' : row_bufs)
      prompt_ensembling (key : string) :
  rows_for_mode train_loss lr_models meta val train
                val_credences train_credences bufs prompt_ensembling
  = Ok bufs' ->
  count bufs' key =
    count bufs key + rows_per_mode key val train (length lr_models) /\
  (Forall (fun kv => snd kv <> []) bufs ->
   Forall (fun kv => snd kv <> []) bufs').
Proof.
  unfold rows_for_mode, mode_rows, rows_per_mode.
  destruct val as [[val_h val_gt] val_lm], train as [[train_h train_gt] train_lm].
  intros H.
  apply bind_ok_inv in H as (m1 & _ & H).
  apply bind_ok_inv in H as (m2 & _ & H).
  apply bind_ok_inv in H as (b3 & H3 & H).
  apply bind_ok_inv in H as (b4 & H4 & H).
  apply lr_rows_count with (key := key) in H as [Hlr Hlr_ne].
  rewrite length_enumerate in Hlr.
  assert (H3c : count b3 key =
                count bufs key
                + (if String.eqb key "eval" then 1 else 0)
                + (if String.eqb key "train_eval" then 1 else 0)
                + (if has_lm (val_h, val_gt, val_lm)
                      && String.eqb key "lm_eval" then 1 else 0) /\
                (Forall (fun kv => snd kv <> []) bufs ->
                 Forall (fun kv => snd kv <> []) b3)).
  { destruct val_lm as [preds |]; simpl has_lm; cbn [andb].
    - apply bind_ok_inv in H3 as (m3 & _ & H3). injection H3 as <-.
      rewrite !count_append_row. split; [lia |].
      intros Hne. repeat apply append_row_nonempty. exact Hne.
    - injection H3 as <-. rewrite !count_append_row. split; [lia |].
      intros Hne. repeat apply append_row_nonempty. exact Hne. }
  destruct H3c as [H3c H3ne].
  assert (H4c : count b4 key =
                count b3 key
                + (if has_lm (train_h, train_gt, train_lm)
                      && String.eqb key "train_lm_eval" then 1 else 0) /\
                (Forall (fun kv => snd kv <> []) b3 ->
                 Forall (fun kv => snd kv <> []) b4)).
  { destruct train_lm as [preds |]; simpl has_lm; cbn [andb].
    - apply bind_ok_inv in H4 as (m4 & _ & H4). injection H4 as <-.
      rewrite count_append_row. split; [lia |].
      intros Hne. apply append_row_nonempty. exact Hne.
    - injection H4 as <-. split; [lia | auto]. }
  destruct H4c as [H4c H4ne].
  split; [lia | auto].
Qed.

Lemma getkey_ok_inv {V} (d : Dict.dict V) (k : string) (v : V) :
  Lookup.getkey d k = Ok v -> Lookup.get d k = Some v.
Proof.
  unfold Lookup.getkey. destruct (Lookup.get d k); congruence.
Qed.

Lemma dataset_rows_effect train_loss reporter train_dict val_dict lr_models
      layer (bufs bufs' : row_bufs) (outs outs' : list LayerOutput)
      (ds_name : string) :
  rows_for_dataset train_loss reporter train_dict val_dict lr_models layer
                   (bufs, outs) ds_name = Ok (bufs', outs') ->
  exists val train credences,
    Lookup.get val_dict ds_name = Some val /\
    Lookup.get train_dict ds_name = Some train /\
    reporter (fst (fst val)) = Ok credences /\
    outs' = outs ++ [mkLayerOutput (snd (fst val)) credences (ds_name, layer)] /\
    (forall key,
        count bufs' key =
        count bufs key
        + length all_modes * rows_per_mode key val train (length lr_models)) /\
    (Forall (fun kv => snd kv <> []) bufs ->
     Forall (fun kv => snd kv <> []) bufs').
Proof.
  unfold rows_for_dataset, dataset_rows. intros H.
  apply bind_ok_inv in H as (val & Hval & H).
  apply bind_ok_inv in H as (train & Htrain & H).
  apply bind_ok_inv in H as (vc & Hvc & H).
  apply bind_ok_inv in H as (tc & Htc & H).
  apply bind_ok_inv in H as (b & Hb & H).
  injection H as <- <-.
  apply getkey_ok_inv in Hval, Htrain.
  exists val, train, vc. repeat split; try assumption.
  - intros key.
    match type of Hb with
    | foldM ?f _ _ = _ =>
        assert (Hstep : forall s x s',
                   f s x = Ok s' ->
                   count s' key =
                   count s key
                   + rows_per_mode key val train (length lr_models))
    end.
    { intros s x s' Hs.
      apply (mode_rows_count _ _ _ _ _ _ _ _ _ key) in Hs. apply Hs. }
    rewrite (foldM_sum _ (fun b => count b key)
               (fun _ => rows_per_mode key val train (length lr_models))
               Hstep _ _ Hb).
    rewrite list_sum_const. reflexivity.
  - intros Hne. revert Hb. apply foldM_preserves; [| exact Hne].
    intros s x s' Hs Hstep.
    apply (mode_rows_count _ _ _ _ _ _ _ _ _ "eval") in Hstep.
    apply Hstep. exact Hs.
Qed.

(** The loop over the datasets, from any state. *)
Lemma datasets_effect train_loss reporter train_dict val_dict lr_models layer
      (names : list string) :
  forall (bufs bufs' : row_bufs) (outs outs' : list LayerOutput),
    foldM (rows_for_dataset train_loss reporter train_dict val_dict
                            lr_models layer)
          names (bufs, outs) = Ok (bufs', outs') ->
    (exists new,
        outs' = outs ++ new /\
        Forall2 (fun ds_name out =>
                   exists val credences,
                     Lookup.get val_dict ds_name = Some val /\
                     reporter (fst (fst val)) = Ok credences /\
                     out = mkLayerOutput (snd (fst val)) credences
                                         (ds_name, layer))
                names new) /\
    Forall (fun ds_name =>
              exists val train,
                Lookup.get val_dict ds_name = Some val /\
                Lookup.get train_dict ds_name = Some train) names /\
    (forall key,
        count bufs' key =
        count bufs key
        + list_sum
            (map (fun ds_name =>
                    match Lookup.get val_dict ds_name,
                          Lookup.get train_dict ds_name with
                    | Some val, Some train =>
                        length all_modes
                        * rows_per_mode key val train (length lr_models)
                    | _, _ => 0
                    end) names)) /\
    (Forall (fun kv => snd kv <> []) bufs ->
     Forall (fun kv => snd kv <> []) bufs').
Proof.
  induction names as [| ds_name names IH]; simpl; intros bufs bufs' outs outs' H.
  - injection H as <- <-. split; [| split; [| split]].
    + exists []. split; [rewrite app_nil_r; reflexivity | constructor].
    + constructor.
    + intros key. lia.
    + auto.
  - apply bind_ok_inv in H as ([b1 o1] & H1 & H).
    apply dataset_rows_effect in H1
      as (val & train & c & Hval & Htrain & Hc & Ho1 & Hcount1 & Hne1).
    apply IH in H as ((new & Hnew & Hall) & Hkeys & Hcount & Hne).
    split; [| split; [| split]].
    + exists (mkLayerOutput (snd (fst val)) c (ds_name, layer) :: new).
      split; [rewrite Hnew, Ho1, <- app_assoc; reflexivity |].
      constructor; [| exact Hall]. exists val, c. auto.
    + constructor; [| exact Hkeys]. exists val, train. auto.
    + intros key. rewrite Hcount, Hcount1, Hval, Htrain. lia.
    + auto.
Qed.

Lemma get_some_in_keys {V} (d : Dict.dict V) (k : string) (v : V) :
  Lookup.get d k = Some v -> In k (Dict.keys d).
Proof.
  induction d as [| [k' v'] d IH]; simpl; [discriminate |].
  destruct (String.eqb k k') eqn:Hk.
  - apply String.eqb_eq in Hk. intros _. left. congruence.
  - intros H. right. apply IH. exact H.
Qed.

(** X18. When [evaluate_and_save] returns, its layer outputs are one per
    dataset of [val_dict], in the order of [val_dict]: the ground truth
    of the dataset, the credences of the reporter on its validation
    hidden states, and the dataset name with the layer; and every
    dataset of [val_dict] is a dataset of [train_dict]. *)
Theorem evaluate_and_save_layer_outputs
        train_loss reporter train_dict val_dict lr_models layer
        (outs : list LayerOutput) (bufs : row_bufs) :
  evaluate_layer train_loss reporter train_dict val_dict lr_models layer
  = Ok (outs, bufs) ->
  Forall2 (fun ds_name out =>
             exists val credences,
               Lookup.get val_dict ds_name = Some val /\
               reporter (fst (fst val)) = Ok credences /\
               out = mkLayerOutput (snd (fst val)) credences (ds_name, layer))
          (Dict.keys val_dict) outs /\
  Forall (fun ds_name => In ds_name (Dict.keys train_dict))
         (Dict.keys val_dict).
Proof.
  unfold evaluate_layer, evaluate_and_save. intros H.
  apply bind_ok_inv in H as ([b o] & H & Hret).
  injection Hret as <- <-.
  apply datasets_effect in H as ((new & Hnew & Hall) & Hkeys & _ & _).
  simpl in Hnew. subst o. split; [exact Hall |].
  eapply Forall_impl; [| exact Hkeys].
  intros ds (val & train & _ & Htrain).
  eapply get_some_in_keys. exact Htrain.
Qed.

Lemma rows_per_mode_eval val train n : rows_per_mode "eval" val train n = 1.
Proof. unfold rows_per_mode. simpl. rewrite !andb_false_r. reflexivity. Qed.

Lemma rows_per_mode_train_eval val train n :
  rows_per_mode "train_eval" val train n = 1.
Proof. unfold rows_per_mode. simpl. rewrite !andb_false_r. reflexivity. Qed.

Lemma rows_per_mode_lr_eval val train n :
  rows_per_mode "lr_eval" val train n = n.
Proof. unfold rows_per_mode. simpl. rewrite !andb_false_r. reflexivity. Qed.

Lemma rows_per_mode_lm_eval val train n :
  rows_per_mode "lm_eval" val train n = if has_lm val then 1 else 0.
Proof.
  unfold rows_per_mode. simpl. rewrite andb_false_r, andb_true_r.
  destruct (has_lm val); reflexivity.
Qed.

Lemma rows_per_mode_train_lm_eval val train n :
  rows_per_mode "train_lm_eval" val train n = if has_lm train then 1 else 0.
Proof.
  unfold rows_per_mode. simpl. rewrite andb_false_r, andb_true_r.
  destruct (has_lm train); reflexivity.
Qed.

Lemma list_sum_ext_in {A} (f g : A -> nat) (xs : list A) :
  (forall x, In x xs -> f x = g x) ->
  list_sum (map f xs) = list_sum (map g xs).
Proof. intros H. f_equal. apply map_ext_in. exact H. Qed.

(** X19. When [evaluate_and_save] returns, the categories [eval] and
    [train_eval] hold one row per dataset and ensembling mode, the
    category [lr_eval] one row per dataset, mode and baseline classifier,
    and the categories [lm_eval] and [train_lm_eval] one row per mode for
    each dataset that comes with predictions of the language model; a
    category that received no row is absent from the result. *)
Theorem evaluate_and_save_row_counts
        train_loss reporter train_dict val_dict lr_models layer
        (outs : list LayerOutput) (bufs : row_bufs) :
  evaluate_layer train_loss reporter train_dict val_dict lr_models layer
  = Ok (outs, bufs) ->
  count bufs "eval" = length val_dict * length all_modes /\
  count bufs "train_eval" = length val_dict * length all_modes /\
  count bufs "lr_eval" =
    length val_dict * (length all_modes * length lr_models) /\
  count bufs "lm_eval" =
    length (with_lm_preds val_dict (Dict.keys val_dict)) * length all_modes /\
  count bufs "train_lm_eval" =
    length (with_lm_preds train_dict (Dict.keys val_dict))
    * length all_modes /\
  (forall key rs, In (key, rs) bufs -> rs <> []).
Proof.
  unfold evaluate_layer, evaluate_and_save. intros H.
  apply bind_ok_inv in H as ([b o] & H & Hret).
  injection Hret as <- <-.
  apply datasets_effect in H as (_ & Hkeys & Hcount & Hne).
  rewrite Forall_forall in Hkeys.
  assert (Hlen : length (Dict.keys val_dict) = length val_dict)
    by apply length_map.
  repeat split.
  - rewrite Hcount.
    rewrite (list_sum_ext_in _ (fun _ => length all_modes)).
    + rewrite list_sum_const, Hlen. reflexivity.
    + intros ds Hin. destruct (Hkeys ds Hin) as (val & train & -> & ->).
      rewrite rows_per_mode_eval. lia.
  - rewrite Hcount.
    rewrite (list_sum_ext_in _ (fun _ => length all_modes)).
    + rewrite list_sum_const, Hlen. reflexivity.
    + intros ds Hin. destruct (Hkeys ds Hin) as (val & train & -> & ->).
      rewrite rows_per_mode_train_eval. lia.
  - rewrite Hcount.
    rewrite (list_sum_ext_in
               _ (fun _ => length all_modes * length lr_models)).
    + rewrite list_sum_const, Hlen. reflexivity.
    + intros ds Hin. destruct (Hkeys ds Hin) as (val & train & -> & ->).
      rewrite rows_per_mode_lr_eval. reflexivity.
  - rewrite Hcount.
    rewrite (list_sum_ext_in
               _ (fun ds => if has_lm_in val_dict ds
                            then length all_modes else 0)).
    + rewrite list_sum_indicator. reflexivity.
    + intros ds Hin. destruct (Hkeys ds Hin) as (val & train & Hv & Ht).
      unfold has_lm_in. rewrite Hv, Ht, rows_per_mode_lm_eval.
      destruct (has_lm val); lia.
  - rewrite Hcount.
    rewrite (list_sum_ext_in
               _ (fun ds => if has_lm_in train_dict ds
                            then length all_modes else 0)).
    + rewrite list_sum_indicator. reflexivity.
    + intros ds Hin. destruct (Hkeys ds Hin) as (val & train & Hv & Ht).
      unfold has_lm_in. rewrite Hv, Ht, rows_per_mode_train_lm_eval.
      destruct (has_lm train); lia.
  - intros key rs Hin.
    assert (Hall : Forall (fun kv => snd kv <> []) b) by (apply Hne; constructor).
    rewrite Forall_forall in Hall. apply (Hall (key, rs) Hin).
Qed.

End TrainFacts.

Lemma nodup_app_disjoint {A} (l1 l2 : list A) :
  NoDup (l1 ++ l2) -> forall a, In a l1 -> ~ In a l2.
Proof.
  induction l1 as [| x l1 IH]; simpl; intros Hnd a Ha Hin; [contradiction |].
  inversion Hnd as [| ? ? Hx Hnd']; subst.
  destruct Ha as [<- | Ha].
  - apply Hx. apply in_or_app. right. exact Hin.
  - apply (IH Hnd' a Ha Hin).
Qed.

Lemma merge_from {V} (ds : list (Dict.dict V)) :
  forall acc,
    NoDup (Dict.keys acc ++ concat (map (@Dict.keys V) ds)) ->
    fold_left (@Dict.update V) ds acc = acc ++ concat ds.
Proof.
  induction ds as [| d ds IH]; simpl; intros acc Hnd.
  - rewrite app_nil_r. reflexivity.
  - rewrite app_assoc in Hnd.
    rewrite update_fresh.
    + rewrite IH.
      * rewrite <- app_assoc. reflexivity.
      * unfold Dict.keys in *. rewrite map_app. exact Hnd.
    + apply NoDup_app_remove_r in Hnd. apply NoDup_app_remove_l in Hnd.
      exact Hnd.
    + intros k Hk Hin. apply NoDup_app_remove_r in Hnd.
      apply (nodup_app_disjoint _ _ Hnd k Hin Hk).
Qed.

Lemma merge_disjoint {V} (ds : list (Dict.dict V)) :
  NoDup (concat (map (@Dict.keys V) ds)) -> Dict.merge ds = concat ds.
Proof. intros Hnd. unfold Dict.merge. rewrite merge_from; auto. Qed.

Lemma keys_merge_NoDup {V} (ds : list (Dict.dict V)) :
  NoDup (Dict.keys (Dict.merge ds)).
Proof.
  unfold Dict.merge.
  assert (H : forall acc, NoDup (Dict.keys acc) ->
                          NoDup (Dict.keys (fold_left (@Dict.update V) ds acc))).
  { induction ds as [| d ds IH]; simpl; intros acc Hacc; [exact Hacc |].
    apply IH, keys_update_NoDup, Hacc. }
  apply H. constructor.
Qed.

Lemma keys_metric_cells {V} (f : scalar -> V) (d : Dict.dict scalar) :
  Dict.keys (map (fun kv => (fst kv, f (snd kv))) d) = Dict.keys d.
Proof. unfold Dict.keys. rewrite map_map. reflexivity. Qed.

(** No key of the flat mapping with the empty prefix is one of the other
    columns of a row. *)
Lemma metric_key_not_a_column (k : string) :
  (exists x, k = ("" ++ "auroc_" ++ x)%string) \/
  (exists x, k = ("" ++ "cal_acc_" ++ x)%string) \/
  (exists x, k = ("" ++ "acc_" ++ x)%string) \/
  k = ("" ++ "ece")%string ->
  ~ In k ["dataset"; "layer"; "prompt_ensembling"; "inlp_iter";
          "train_loss"]%string.
Proof.
  intros H Hin. simpl in Hin.
  destruct H as [[x ->] | [[x ->] | [[x ->] | ->]]];
    simpl in Hin; intuition discriminate.
Qed.

Section RowColumns.

Import Train TrainCount.

Variables AccuracyResult CalibrationEstimate RocAucResult : Type.
Variable fields_AccuracyResult : AccuracyResult -> list (string * scalar).
Variable fields_RocAucResult : RocAucResult -> list (string * scalar).
Variable ece : CalibrationEstimate -> scalar.

Let flat_mapping :=
  @to_dict AccuracyResult CalibrationEstimate RocAucResult
           fields_AccuracyResult fields_RocAucResult ece.

Lemma flat_mapping_keys_are_metrics (r : EvalResult _ _ _) (k : string) :
  In k (Dict.keys (flat_mapping r "")) ->
  ~ In k ["dataset"; "layer"; "prompt_ensembling"; "inlp_iter";
          "train_loss"]%string.
Proof.
  intros Hin. apply metric_key_not_a_column.
  unfold flat_mapping in Hin. rewrite keys_to_dict in Hin.
  apply in_app_or in Hin as [Hin | Hin];
    [left; apply in_keys_prefixed in Hin; exact Hin |].
  apply in_app_or in Hin as [Hin | Hin].
  { right; left. destruct (cal_accuracy r); [| contradiction].
    apply in_keys_prefixed in Hin. exact Hin. }
  apply in_app_or in Hin as [Hin | Hin];
    [right; right; left; apply in_keys_prefixed in Hin; exact Hin |].
  right; right; right. destruct (calibration r); [| contradiction].
  simpl in Hin. destruct Hin as [<- | []]. reflexivity.
Qed.

(** A row made of leading columns, the metrics and trailing columns has
    its keys in that order. *)
Lemma row_keys_in_order (pres posts : list row) (r : EvalResult _ _ _) :
  NoDup (concat (map (@Dict.keys cell) pres)
         ++ concat (map (@Dict.keys cell) posts)) ->
  incl (concat (map (@Dict.keys cell) pres)
        ++ concat (map (@Dict.keys cell) posts))
       ["dataset"; "layer"; "prompt_ensembling"; "inlp_iter";
        "train_loss"]%string ->
  Dict.keys
    (Dict.merge
       (pres
        ++ map (fun kv => (fst kv, CFloat (snd kv))) (flat_mapping r "")
        :: posts)) =
  concat (map (@Dict.keys cell) pres)
  ++ Dict.keys (flat_mapping r "")
  ++ concat (map (@Dict.keys cell) posts).
Proof.
  intros Hnd Hincl.
  set (P := concat (map (@Dict.keys cell) pres)) in *.
  set (Q := concat (map (@Dict.keys cell) posts)) in *.
  assert (Hkeys : concat (map (@Dict.keys cell)
                    (pres
                     ++ map (fun kv => (fst kv, CFloat (snd kv)))
                            (flat_mapping r "")
                     :: posts)) =
                  P ++ Dict.keys (flat_mapping r "") ++ Q).
  { rewrite map_app, concat_app. simpl.
    rewrite keys_metric_cells. reflexivity. }
  rewrite merge_disjoint.
  - unfold Dict.keys at 1. rewrite concat_map. exact Hkeys.
  - rewrite Hkeys.
    assert (Hm : NoDup (Dict.keys (flat_mapping r "")))
      by apply keys_merge_NoDup.
    assert (Hfresh : forall k, In k (Dict.keys (flat_mapping r "")) ->
                               ~ In k (P ++ Q)).
    { intros k Hk Hin. apply (@flat_mapping_keys_are_metrics r k Hk).
      apply Hincl. exact Hin. }
    pose proof (NoDup_app_remove_r _ _ Hnd) as Hpre.
    pose proof (NoDup_app_remove_l _ _ Hnd) as Hpost.
    apply NoDup_app; [exact Hpre | | ].
    + apply NoDup_app; [exact Hm | exact Hpost |].
      intros k Hk Hin. apply (Hfresh k Hk). apply in_or_app. right. exact Hin.
    + intros k Hk Hin. apply in_app_or in Hin as [Hin | Hin].
      * apply (Hfresh k Hin). apply in_or_app. left. exact Hk.
      * apply (nodup_app_disjoint _ _ Hnd k Hk Hin).
Qed.

End RowColumns.

Section RowColumnsOfLayer.

Import Train TrainCount.

Variables AccuracyResult CalibrationEstimate RocAucResult : Type.
Variable fields_AccuracyResult : AccuracyResult -> list (string * scalar).
Variable fields_RocAucResult : RocAucResult -> list (string * scalar).
Variable ece : CalibrationEstimate -> scalar.
Variable accuracy_ci : tensor Z -> tensor Z -> result AccuracyResult.
Variable roc_auc_ci : tensor Z -> tensor scalar -> result RocAucResult.
Variable calibration_error :
  tensor Z -> tensor scalar -> result CalibrationEstimate.
Variable sigmoid : scalar -> scalar.
Variable PromptEnsembling : Type.
Variable all_modes : list PromptEnsembling.
Variable value : PromptEnsembling -> string.
Variable mode_key : PromptEnsembling -> string.

Let flat_mapping :=
  @to_dict AccuracyResult CalibrationEstimate RocAucResult
           fields_AccuracyResult fields_RocAucResult ece.
Let metrics_of :=
  metric_cells fields_AccuracyResult fields_RocAucResult ece accuracy_ci
               roc_auc_ci calibration_error sigmoid mode_key.
Let evaluate_layer :=
  evaluate_and_save fields_AccuracyResult fields_RocAucResult ece accuracy_ci
                    roc_auc_ci calibration_error sigmoid all_modes value
                    mode_key.

(** The columns of a row of category [key]. *)
Let well_formed_row (key : string) (r : row) : Prop :=
  exists pre post (metrics : EvalResult _ _ _),
    row_columns key = Some (pre, post) /\
    Dict.keys r = pre ++ Dict.keys (flat_mapping metrics "") ++ post.

Let well_formed (bufs : row_bufs) : Prop :=
  forall key r, In r (rows_of bufs key) -> well_formed_row key r.

Lemma well_formed_append (bufs : row_bufs) (key : string) (r : row) :
  well_formed bufs -> well_formed_row key r ->
  well_formed (append_row bufs key r).
Proof.
  intros Hb Hr key' r' Hin.
  destruct (String.eqb key' key) eqn:Hk.
  - apply String.eqb_eq in Hk. subst key'.
    rewrite rows_of_append_row_same in Hin.
    apply in_app_or in Hin as [Hin | [<- | []]]; [apply Hb; exact Hin | exact Hr].
  - rewrite rows_of_append_row_other in Hin by exact Hk. apply Hb; exact Hin.
Qed.

Lemma metrics_of_ok_inv y_true y_logits mode (metrics : row) :
  metrics_of y_true y_logits mode = Ok metrics ->
  exists r, metrics = map (fun kv => (fst kv, CFloat (snd kv)))
                          (flat_mapping r "").
Proof.
  unfold metrics_of, metric_cells. intros H.
  apply bind_ok_inv in H as (r & _ & H). injection H as <-.
  exists r. reflexivity.
Qed.

Ltac columns_are_fixed :=
  simpl; repeat constructor; simpl; intuition discriminate.

Ltac columns_are_known :=
  intros k Hin; simpl in Hin; simpl; intuition auto.

Lemma eval_row_well_formed key ds_name layer mode train_loss (metrics : row)
      y_true y_logits pe :
  key = "eval"%string \/ key = "train_eval"%string ->
  metrics_of y_true y_logits pe = Ok metrics ->
  well_formed_row key
    (Dict.merge [meta_cells ds_name layer;
                 [(PROMPT_ENSEMBLING, CStr mode)];
                 metrics;
                 [("train_loss"%string, loss_cell train_loss)]]).
Proof.
  intros Hkey Hm. apply metrics_of_ok_inv in Hm as [r ->].
  exists ["dataset"; "layer"; "prompt_ensembling"]%string,
         ["train_loss"]%string, r.
  split; [destruct Hkey as [-> | ->]; reflexivity |].
  apply (@row_keys_in_order _ _ _ fields_AccuracyResult fields_RocAucResult ece
           [meta_cells ds_name layer; [(PROMPT_ENSEMBLING, CStr mode)]]
           [[("train_loss"%string, loss_cell train_loss)]] r).
  - columns_are_fixed.
  - columns_are_known.
Qed.

Lemma lm_row_well_formed key ds_name layer mode (metrics : row)
      y_true y_logits pe :
  key = "lm_eval"%string \/ key = "train_lm_eval"%string ->
  metrics_of y_true y_logits pe = Ok metrics ->
  well_formed_row key
    (Dict.merge [meta_cells ds_name layer;
                 [(PROMPT_ENSEMBLING, CStr mode)];
                 metrics]).
Proof.
  intros Hkey Hm. apply metrics_of_ok_inv in Hm as [r ->].
  exists ["dataset"; "layer"; "prompt_ensembling"]%string, [], r.
  split; [destruct Hkey as [-> | ->]; reflexivity |].
  apply (@row_keys_in_order _ _ _ fields_AccuracyResult fields_RocAucResult ece
           [meta_cells ds_name layer; [(PROMPT_ENSEMBLING, CStr mode)]]
           [] r).
  - columns_are_fixed.
  - columns_are_known.
Qed.

Lemma lr_row_well_formed ds_name layer mode (i : Z) (metrics : row)
      y_true y_logits pe :
  metrics_of y_true y_logits pe = Ok metrics ->
  well_formed_row "lr_eval"
    (Dict.merge [meta_cells ds_name layer;
                 [(PROMPT_ENSEMBLING, CStr mode)];
                 [("inlp_iter"%string, CInt i)];
                 metrics]).
Proof.
  intros Hm. apply metrics_of_ok_inv in Hm as [r ->].
  exists ["dataset"; "layer"; "prompt_ensembling"; "inlp_iter"]%string, [], r.
  split; [reflexivity |].
  apply (@row_keys_in_order _ _ _ fields_AccuracyResult fields_RocAucResult ece
           [meta_cells ds_name layer; [(PROMPT_ENSEMBLING, CStr mode)];
            [("inlp_iter"%string, CInt i)]]
           [] r).
  - columns_are_fixed.
  - columns_are_known.
Qed.

Lemma mode_rows_well_formed train_loss lr_models ds_name layer
      (val train : prepared) val_credences train_credences
      (bufs bufs' : row_bufs) pe :
  well_formed bufs ->
  mode_rows fields_AccuracyResult fields_RocAucResult ece accuracy_ci
            roc_auc_ci calibration_error sigmoid value mode_key
            train_loss lr_models (meta_cells ds_name layer) val train
            val_credences train_credences bufs pe = Ok bufs' ->
  well_formed bufs'.
Proof.
  unfold mode_rows.
  destruct val as [[val_h val_gt] val_lm], train as [[train_h train_gt] train_lm].
  intros Hb H.
  apply bind_ok_inv in H as (m1 & Hm1 & H).
  apply bind_ok_inv in H as (m2 & Hm2 & H).
  apply bind_ok_inv in H as (b3 & H3 & H).
  apply bind_ok_inv in H as (b4 & H4 & H).
  assert (Hb2 : well_formed
                  (append_row
                     (append_row bufs "eval"
                        (Dict.merge [meta_cells ds_name layer;
                                     [(PROMPT_ENSEMBLING, CStr (value pe))];
                                     m1;
                                     [("train_loss"%string,
                                       loss_cell train_loss)]]))
                     "train_eval"
                     (Dict.merge [meta_cells ds_name layer;
                                  [(PROMPT_ENSEMBLING, CStr (value pe))];
                                  m2;
                                  [("train_loss"%string,
                                    loss_cell train_loss)]]))).
  { apply well_formed_append; [apply well_formed_append; [exact Hb |] |].
    - eapply eval_row_well_formed; [left; reflexivity | exact Hm1].
    - eapply eval_row_well_formed; [right; reflexivity | exact Hm2]. }
  assert (Hb3 : well_formed b3).
  { destruct val_lm as [preds |].
    - apply bind_ok_inv in H3 as (m3 & Hm3 & H3). injection H3 as <-.
      apply well_formed_append; [exact Hb2 |].
      eapply lm_row_well_formed; [left; reflexivity | exact Hm3].
    - injection H3 as <-. exact Hb2. }
  assert (Hb4 : well_formed b4).
  { destruct train_lm as [preds |].
    - apply bind_ok_inv in H4 as (m4 & Hm4 & H4). injection H4 as <-.
      apply well_formed_append; [exact Hb3 |].
      eapply lm_row_well_formed; [right; reflexivity | exact Hm4].
    - injection H4 as <-. exact Hb3. }
  revert H. apply foldM_preserves; [| exact Hb4].
  intros s x s' Hs Hstep.
  apply bind_ok_inv in Hstep as (preds & _ & Hstep).
  apply bind_ok_inv in Hstep as (m5 & Hm5 & Hstep).
  injection Hstep as <-.
  apply well_formed_append; [exact Hs |].
  eapply lr_row_well_formed. exact Hm5.
Qed.

(** X20. When [evaluate_and_save] returns, every row of every category
    has its columns in a fixed order: [dataset], [layer] and
    [prompt_ensembling] first ([inlp_iter] after them in the category
    [lr_eval]), then the keys of the flat mapping of an evaluation
    result, then [train_loss] in the categories [eval] and [train_eval];
    no metric overwrites one of these columns, and no row is filed under
    another category than the five of the code. *)
Theorem evaluate_and_save_row_columns
        train_loss reporter train_dict val_dict lr_models layer
        (outs : list LayerOutput) (bufs : row_bufs) :
  evaluate_layer train_loss reporter train_dict val_dict lr_models layer
  = Ok (outs, bufs) ->
  forall key r,
    In r (rows_of bufs key) ->
    exists pre post (metrics : EvalResult _ _ _),
      row_columns key = Some (pre, post) /\
      Dict.keys r =
      pre
      ++ Dict.keys (to_dict fields_AccuracyResult fields_RocAucResult ece
                            metrics "")
      ++ post.
Proof.
  unfold evaluate_layer, evaluate_and_save. intros H.
  apply bind_ok_inv in H as ([b o] & H & Hret).
  injection Hret as <- <-.
  assert (Hwf : well_formed b).
  { revert H.
    apply (foldM_preserves _ (fun state => well_formed (fst state)));
      [| intros key r []].
    intros [b0 o0] ds_name [b1 o1] Hs Hstep. simpl in *.
    unfold dataset_rows in Hstep.
    apply bind_ok_inv in Hstep as (val & _ & Hstep).
    apply bind_ok_inv in Hstep as (train & _ & Hstep).
    apply bind_ok_inv in Hstep as (vc & _ & Hstep).
    apply bind_ok_inv in Hstep as (tc & _ & Hstep).
    apply bind_ok_inv in Hstep as (b' & Hb' & Hstep).
    injection Hstep as <- _.
    revert Hb'. apply foldM_preserves; [| exact Hs].
    intros s pe s' Hs' Hmode.
    eapply mode_rows_well_formed; eassumption. }
  exact Hwf.
Qed.

End RowColumnsOfLayer.

(* ------------------------------------------------------------------ *)
(** ** The further properties at concrete inputs *)

(** The four labels of scenario 1 among two classes. *)
Lemma to_one_hot_layout_witness :
  exists hot,
    to_one_hot Data.y_true4 2 = Ok hot /\
    shape hot = shape Data.y_true4 ++ [2] /\
    wf hot /\
    forall p label j,
      nth_error (data Data.y_true4) p = Some label -> j < 2 ->
      nth_error (data hot) (p * 2 + j) =
      Some (if (Z.of_nat j =? label)%Z then 1%Z else 0%Z).
Proof.
  apply (@to_one_hot_layout Data.y_true4 2).
  - reflexivity.
  - simpl. repeat constructor; simpl; lia.
Defined.

(** Scenario 1 in mode [full]. *)
Lemma evaluate_preds_returns_only_on_valid_input_witness :
  exists r,
    Probe.evaluate_preds Data.y_true4 Data.logits412 "full" = Ok r /\
    exists n v k,
      shape Data.logits412 = [n; v; k] /\
      shape Data.y_true4 = [n] /\
      2 <= k /\
      ("full" = "none" \/ "full" = "partial" \/ "full" = "full")%string.
Proof.
  eexists. split.
  - vm_compute. reflexivity.
  - eapply (@evaluate_preds_returns_only_on_valid_input
              _ _ _ Probe.accuracy_ci Probe.roc_auc_ci Probe.calibration_error
              Probe.squash Data.y_true4 Data.logits412 "full"%string).
    vm_compute. reflexivity.
Defined.

(** Three variants per example. *)
Lemma evaluate_preds_full_scores_variant_means_witness :
  exists avg,
    shape avg = [4; 2] /\
    wf avg /\
    (forall i j,
        i < 4 -> j < 2 ->
        nth_error (data avg) (i * 2 + j) =
        Some (mean (map (fun u => nth ((i * 3 + u) * 2 + j)
                                      (data MoreData.logits432) NaN)
                        (seq 0 3)))) /\
    Probe.evaluate_preds Data.y_true4 MoreData.logits432 "full" =
    Probe.calc_eval_results Data.y_true4 avg "full" 2.
Proof.
  apply (@evaluate_preds_full_scores_variant_means
           _ _ _ Probe.accuracy_ci Probe.roc_auc_ci Probe.calibration_error
           Probe.squash Data.y_true4 MoreData.logits432 4 3 2).
  - reflexivity.
  - reflexivity.
  - reflexivity.
Defined.

Lemma evaluate_preds_broadcasts_ground_truth_witness :
  exists wide,
    shape wide = [4; 3] /\
    wf wide /\
    (forall i u label,
        nth_error (data Data.y_true4) i = Some label -> u < 3 ->
        nth_error (data wide) (i * 3 + u) = Some label) /\
    Probe.evaluate_preds Data.y_true4 MoreData.logits432 "none" =
    Probe.calc_eval_results wide MoreData.logits432 "none" 2.
Proof.
  apply (@evaluate_preds_broadcasts_ground_truth
           _ _ _ Probe.accuracy_ci Probe.roc_auc_ci Probe.calibration_error
           Probe.squash Data.y_true4 MoreData.logits432 "none"%string 4 3 2).
  - reflexivity.
  - reflexivity.
  - reflexivity.
  - discriminate.
Defined.

(** Three classes in mode [full]. *)
Lemma multiclass_auroc_is_one_vs_rest_witness :
  calc_auroc Probe.roc_auc_ci Data.logits43 Data.y_true4 "full" 3 =
  Probe.roc_auc_ci
    (Tensor (shape Data.y_true4 ++ [3])
            (flat_map (Spec.one_hot_vector 3) (data Data.y_true4)))
    Data.logits43.
Proof.
  apply (proj1 (@multiclass_auroc_is_one_vs_rest
                  _ Probe.roc_auc_ci Data.logits43 Data.y_true4
                  "full"%string 3 (or_intror eq_refl)
                  ltac:(discriminate))).
  simpl. repeat constructor; simpl; lia.
Defined.

Lemma evaluate_preds_raises_without_examples_witness :
  exists e,
    Probe.evaluate_preds MoreData.empty_truth MoreData.empty_logits "full" =
    Raise e.
Proof.
  apply (@evaluate_preds_raises_without_examples
           _ _ _ Probe.accuracy_ci Probe.roc_auc_ci Probe.calibration_error
           Probe.squash MoreData.empty_truth MoreData.empty_logits
           "full"%string 1).
  - reflexivity.
  - reflexivity.
Defined.

(** The sweep of five layers, with another ground truth in layer 0. *)
Lemma layer_ensembling_reads_one_ground_truth_witness :
  Probe.layer_ensembling (Data.sweep 5) =
  Probe.layer_ensembling MoreData.sweep_other_truth.
Proof.
  apply (@layer_ensembling_reads_one_ground_truth
           _ _ _ Probe.accuracy_ci Probe.roc_auc_ci Probe.calibration_error
           Probe.squash (Data.sweep 5) MoreData.sweep_other_truth).
  - repeat constructor.
  - simpl. intros lo lo' Hlo Hlo'.
    injection Hlo as <-. injection Hlo' as <-. reflexivity.
Defined.

(** Process 7 in a world of two devices. *)
Lemma get_device_in_world_witness :
  (exists device,
      Device.get_device MoreData.devices 2 7 = Return device /\
      nth_error MoreData.devices (Z.to_nat (7 mod 2)) = Some device /\
      In device (firstn (Z.to_nat 2) MoreData.devices)) /\
  (forall m,
      Device.get_device MoreData.devices 2 (7 + m * 2) =
      Device.get_device MoreData.devices 2 7).
Proof.
  apply (@MoreRunFacts.get_device_in_world MoreData.devices 2%Z 7%Z).
  - lia.
  - simpl. lia.
Defined.

Lemma resolve_layers_keeps_length_and_prefix_witness :
  length [Run.LList [0]; Run.LList [1; 0]; Run.LList [2; 1]]%Z =
    length Data.units012 /\
  firstn (Z.to_nat 1) [Run.LList [0]; Run.LList [1; 0]; Run.LList [2; 1]]%Z =
    firstn (Z.to_nat 1) Data.units012.
Proof.
  apply (@MoreRunFacts.resolve_layers_keeps_length_and_prefix
           (Run.mkConfig 1 false) Data.units012
           [Run.LList [0]; Run.LList [1; 0]; Run.LList [2; 1]]%Z).
  reflexivity.
Defined.

(** Offset 1 over the plain indices 0, 1, 2. *)
Lemma apply_to_layers_rejects_plain_indices_witness :
  Run.apply_to_layers (Run.mkConfig 1 false) Data.layer_1_last
                      MoreData.row_of_layer 2 (map Run.LInt [0; 1; 2]%Z)
                      Data.no_files =
  (Data.no_files, Raise TypeError).
Proof.
  apply (proj1 (@MoreRunFacts.apply_to_layers_rejects_plain_indices
                  (Run.mkConfig 1 false) Data.layer_1_last
                  MoreData.row_of_layer 2%Z [0; 1; 2]%Z Data.no_files)).
  simpl. lia.
Defined.


(** The sequential sweep over the layers 1, 2 with a failing worker for
    layer 1. *)
Lemma apply_to_layers_raises_keyerror_without_rows_witness :
  Run.apply_to_layers Data.cfg_plain Data.layer_1_last Data.failing_at_1 1
                      [Run.LInt 1; Run.LInt 2] Data.no_files =
  (Run.mkFiles (Some []) (Run.debug_log Data.no_files), Raise KeyError).
Proof.
  apply (@MoreRunFacts.apply_to_layers_raises_keyerror_without_rows
           Data.cfg_plain Data.layer_1_last Data.failing_at_1 1%Z
           [Run.LInt 1; Run.LInt 2] [Run.LInt 1; Run.LInt 2] Data.no_files).
  - lia.
  - reflexivity.
  - right. eexists _, _. reflexivity.
Defined.

Lemma reduce_paired_states_minus_and_concat_witness :
  (exists diff,
      Reduce.reduce_paired_states MoreData.hidden222 "minus" = Return diff /\
      shape diff = [2; 2] /\
      wf diff /\
      forall i j x y,
        i < 2 -> j < 2 ->
        nth_error (data MoreData.hidden222) ((i * 2 + 0) * 2 + j) = Some x ->
        nth_error (data MoreData.hidden222) ((i * 2 + 1) * 2 + j) = Some y ->
        nth_error (data diff) (i * 2 + j) = Some (ssub x y)) /\
  Reduce.reduce_paired_states MoreData.hidden222 "concat" =
  Return (Tensor [2; 2 * 2] (data MoreData.hidden222)).
Proof.
  apply (@reduce_paired_states_minus_and_concat MoreData.hidden222 2 2).
  - reflexivity.
  - reflexivity.
Defined.

Lemma reduce_paired_states_digit_mode_witness :
  (Reduce.int "1" < 2 ->
   exists kept,
     Reduce.reduce_paired_states MoreData.hidden222 "1" = Return kept /\
     shape kept = [2; 2] /\
     wf kept /\
     forall i j, i < 2 -> j < 2 ->
       nth_error (data kept) (i * 2 + j) =
       nth_error (data MoreData.hidden222) ((i * 2 + Reduce.int "1") * 2 + j)) /\
  (2 <= Reduce.int "1" -> (Z.of_nat (Reduce.int "1") < 2 ^ 63)%Z ->
   Reduce.reduce_paired_states MoreData.hidden222 "1" =
   Throw (Builtin IndexError)).
Proof.
  apply (@reduce_paired_states_digit_mode MoreData.hidden222 "1"%string 2 2 2).
  - reflexivity.
  - reflexivity.
  - reflexivity.
  - simpl. lia.
Defined.

(** The mode [first] is none of the supported ones. *)
Lemma reduce_paired_states_unsupported_mode_witness :
  Reduce.reduce_paired_states MoreData.hidden222 "first"
  = Throw NotImplementedError <->
  Reduce.isdigit "first" = false /\
  "first"%string <> "minus"%string /\ "first"%string <> "concat"%string.
Proof.
  apply (@reduce_paired_states_unsupported_mode MoreData.hidden222
                                                "first"%string).
  reflexivity.
Defined.

(** One layer over the two datasets of [MoreData]. *)
Lemma evaluate_and_save_layer_outputs_witness :
  exists outs bufs,
    MoreData.evaluate_and_save None MoreData.reporter MoreData.datasets
                               MoreData.datasets [MoreData.reporter] 7%Z
    = Ok (outs, bufs) /\
    Forall2 (fun ds_name out =>
               exists val credences,
                 Lookup.get MoreData.datasets ds_name = Some val /\
                 MoreData.reporter (fst (fst val)) = Ok credences /\
                 out = mkLayerOutput (snd (fst val)) credences (ds_name, 7%Z))
            (Dict.keys MoreData.datasets) outs /\
    Forall (fun ds_name => In ds_name (Dict.keys MoreData.datasets))
           (Dict.keys MoreData.datasets).
Proof.
  eexists _, _. split.
  - vm_compute. reflexivity.
  - eapply (@evaluate_and_save_layer_outputs
              _ _ _ Probe.fields_AccuracyResult Probe.fields_RocAucResult
              Probe.ece Probe.accuracy_ci Probe.roc_auc_ci
              Probe.calibration_error Probe.squash _ MoreData.modes
              (fun mode : string => mode) (fun mode : string => mode)
              None MoreData.reporter MoreData.datasets MoreData.datasets
              [MoreData.reporter] 7%Z).
    vm_compute. reflexivity.
Defined.

Lemma evaluate_and_save_row_counts_witness :
  exists outs bufs,
    MoreData.evaluate_and_save None MoreData.reporter MoreData.datasets
                               MoreData.datasets [MoreData.reporter] 7%Z
    = Ok (outs, bufs) /\
    TrainCount.count bufs "eval" =
      length MoreData.datasets * length MoreData.modes /\
    TrainCount.count bufs "train_eval" =
      length MoreData.datasets * length MoreData.modes /\
    TrainCount.count bufs "lr_eval" =
      length MoreData.datasets
      * (length MoreData.modes * length [MoreData.reporter]) /\
    TrainCount.count bufs "lm_eval" =
      length (TrainCount.with_lm_preds MoreData.datasets
                                       (Dict.keys MoreData.datasets))
      * length MoreData.modes /\
    TrainCount.count bufs "train_lm_eval" =
      length (TrainCount.with_lm_preds MoreData.datasets
                                       (Dict.keys MoreData.datasets))
      * length MoreData.modes /\
    (forall key rs, In (key, rs) bufs -> rs <> []).
Proof.
  eexists _, _. split.
  - vm_compute. reflexivity.
  - eapply (@evaluate_and_save_row_counts
              _ _ _ Probe.fields_AccuracyResult Probe.fields_RocAucResult
              Probe.ece Probe.accuracy_ci Probe.roc_auc_ci
              Probe.calibration_error Probe.squash _ MoreData.modes
              (fun mode : string => mode) (fun mode : string => mode)
              None MoreData.reporter MoreData.datasets MoreData.datasets
              [MoreData.reporter] 7%Z).
    vm_compute. reflexivity.
Defined.

Lemma evaluate_and_save_row_columns_witness :
  exists outs bufs,
    MoreData.evaluate_and_save None MoreData.reporter MoreData.datasets
                               MoreData.datasets [MoreData.reporter] 7%Z
    = Ok (outs, bufs) /\
    forall key r,
      In r (Train.rows_of bufs key) ->
      exists pre post
             (metrics : EvalResult Probe.AccuracyResult
                                   Probe.CalibrationEstimate
                                   Probe.RocAucResult),
        TrainCount.row_columns key = Some (pre, post) /\
        Dict.keys r = pre ++ Dict.keys (Probe.to_dict metrics "") ++ post.
Proof.
  eexists _, _. split.
  - vm_compute. reflexivity.
  - eapply (@evaluate_and_save_row_columns
              _ _ _ Probe.fields_AccuracyResult Probe.fields_RocAucResult
              Probe.ece Probe.accuracy_ci Probe.roc_auc_ci
              Probe.calibration_error Probe.squash _ MoreData.modes
              (fun mode : string => mode) (fun mode : string => mode)
              None MoreData.reporter MoreData.datasets MoreData.datasets
              [MoreData.reporter] 7%Z).
    vm_compute. reflexivity.
Defined.

(** The run over the two datasets: six rows in [eval], [train_eval] and
    [lr_eval], three in [lm_eval] and [train_lm_eval], the categories in
    the order of their first row. *)
Example evaluate_and_save_categories :
  fmap (fun result => map (fun kv => (fst kv, length (snd kv))) (snd result))
       (MoreData.evaluate_and_save None MoreData.reporter MoreData.datasets
                                   MoreData.datasets [MoreData.reporter] 7%Z) =
  Ok [("eval", 6); ("train_eval", 6); ("lr_eval", 6);
      ("lm_eval", 3); ("train_lm_eval", 3)]%string.
Proof. reflexivity. Qed.

Section ModesCompared.

Variables AccuracyResult CalibrationEstimate RocAucResult : Type.
Variable accuracy_ci : tensor Z -> tensor Z -> result AccuracyResult.
Variable roc_auc_ci : tensor Z -> tensor scalar -> result RocAucResult.
Variable calibration_error :
  tensor Z -> tensor scalar -> result CalibrationEstimate.
Variable sigmoid : scalar -> scalar.

Let eval_results :=
  calc_eval_results accuracy_ci roc_auc_ci calibration_error sigmoid.
Let evaluate :=
  evaluate_preds accuracy_ci roc_auc_ci calibration_error sigmoid.

Lemma calc_eval_results_mode_only_in_auroc y_true y_logits mode mode' k
      (r r' : EvalResult AccuracyResult CalibrationEstimate RocAucResult) :
  eval_results y_true y_logits mode k = Ok r ->
  eval_results y_true y_logits mode' k = Ok r' ->
  accuracy r = accuracy r' /\
  cal_accuracy r = cal_accuracy r' /\
  calibration r = calibration r'.
Proof.
  unfold eval_results, calc_eval_results. intros H H'.
  destruct (calc_accuracies accuracy_ci y_logits y_true) as [acc | e];
    [| discriminate].
  cbn [bind] in H, H'.
  destruct (logit_difference y_logits) as [diff | e]; [| discriminate].
  cbn [bind] in H, H'.
  destruct (if k =? 2
            then fmap Some (calc_calibrated_accuracies
                              accuracy_ci y_true (tmap sigmoid diff))
            else Ok None) as [cal_acc | e]; [| discriminate].
  cbn [bind] in H, H'.
  destruct (if k =? 2
            then fmap Some (calc_calibrated_errors
                              calibration_error y_true (tmap sigmoid diff))
            else Ok None) as [cal_err | e]; [| discriminate].
  cbn [bind] in H, H'.
  apply bind_ok_inv in H as (a & _ & H).
  apply bind_ok_inv in H' as (a' & _ & H').
  injection H as <-. injection H' as <-. simpl. auto.
Qed.

(** X22. The modes [none] and [partial] differ in the AUROC only: when
    [evaluate_preds] returns in both on the same input, the accuracy,
    the calibrated accuracy and the calibration error of the two results
    are the same. *)
Theorem none_and_partial_differ_in_auroc_only
        (y_true : tensor Z) (y_logits : tensor scalar)
        (r r' : EvalResult AccuracyResult CalibrationEstimate RocAucResult) :
  evaluate y_true y_logits "none" = Ok r ->
  evaluate y_true y_logits "partial" = Ok r' ->
  accuracy r = accuracy r' /\
  cal_accuracy r = cal_accuracy r' /\
  calibration r = calibration r'.
Proof.
  unfold evaluate, evaluate_preds. intros H H'.
  destruct (shape y_logits) as [| n [| v [| k [| ? ?]]]]; try discriminate.
  destruct (shape_eqb (shape y_true) [n]); [| discriminate].
  simpl String.eqb in H, H'. cbv iota in H, H'.
  destruct (repeat_n_v y_true v) as [wide | e]; [| discriminate].
  cbn [bind] in H, H'.
  eapply calc_eval_results_mode_only_in_auroc; eassumption.
Qed.

End ModesCompared.

(** Scenario 1 with three identical variants, in both modes. *)
Lemma none_and_partial_differ_in_auroc_only_witness :
  exists r r',
    Probe.evaluate_preds Data.y_true4 MoreData.logits432 "none" = Ok r /\
    Probe.evaluate_preds Data.y_true4 MoreData.logits432 "partial" = Ok r' /\
    accuracy r = accuracy r' /\
    cal_accuracy r = cal_accuracy r' /\
    calibration r = calibration r'.
Proof.
  eexists _, _. split; [vm_compute; reflexivity |].
  split; [vm_compute; reflexivity |].
  eapply (@none_and_partial_differ_in_auroc_only
            _ _ _ Probe.accuracy_ci Probe.roc_auc_ci Probe.calibration_error
            Probe.squash Data.y_true4 MoreData.logits432).
  - vm_compute. reflexivity.
  - vm_compute. reflexivity.
Defined.
